(** * OraiaClassical: the Wiktionary importer [DBOperations/import_verbs.py]

    A shallow embedding of the importer: parsed JSON entries, the tag
    classifier, the two heuristics, the entity resolver with its caches, the
    record extractor, the import driver with its skip tallies and their
    report, and the additive schema evolution; with it the form lookup of
    [DBOperations/check_forms.py] over the same store.  The properties
    proved of them follow. *)

From Stdlib Require Import ZArith Ascii String List Lia.
From stdpp Require Import base tactics option list list_monad sorting gmap strings
  pretty.

Set Warnings "-register-all".
Local Open Scope string_scope.
Local Open Scope list_scope.

(** ** Exceptions and fallible computations *)

(** The Python exceptions the importer can raise. *)
Inductive exn :=
| TypeError
| AttributeError
| KeyError
| IndexError
| ZeroDivisionError
| BindError          (* sqlite3: a parameter of an unsupported type *)
| OverflowError      (* sqlite3: an integer parameter outside 64 bits *)
| IntegrityError     (* sqlite3: NOT NULL or UNIQUE violated *)
| OperationalError.  (* sqlite3: a failing DDL statement *)

Inductive result (A : Type) :=
| Ok (a : A)
| Raise (e : exn).
Arguments Ok {A} a.
Arguments Raise {A} e.

#[global] Instance result_ret : MRet result := fun A a => Ok a.
#[global] Instance result_bind : MBind result := fun A B f m =>
  match m with
  | Ok a => f a
  | Raise e => Raise e
  end.

Definition is_ok {A} (r : result A) : bool :=
  match r with Ok _ => true | Raise _ => false end.

(** ** Parsed JSON values

    What [json.loads] returns.  An object is a Python dict: an association
    list in insertion order whose keys are distinct.  Numbers are the
    integers within the range of an SQLite INTEGER; fractional numbers are
    not represented (the importer only tests a number for zero and binds
    it). *)
Inductive json :=
| JNull
| JBool (b : bool)
| JNum (n : Z)
| JStr (s : string)
| JArr (items : list json)
| JObj (fields : list (string * json)).

(** Python truthiness: [bool(v)]. *)
Definition truthy (v : json) : bool :=
  match v with
  | JNull => false
  | JBool b => b
  | JNum n => negb (n =? 0)%Z
  | JStr s => negb (String.eqb s "")
  | JArr items => match items with [] => false | _ => true end
  | JObj fields => match fields with [] => false | _ => true end
  end.

(** [a or b]. *)
Definition py_or (a b : json) : json := if truthy a then a else b.

Fixpoint assoc {A} (k : string) (kv : list (string * A)) : option A :=
  match kv with
  | [] => None
  | (k', v) :: rest => if String.eqb k k' then Some v else assoc k rest
  end.

(** [d.get(k)]: [None] (JSON null) when the key is absent. *)
Definition dict_get (k : string) (d : list (string * json)) : json :=
  default JNull (assoc k d).

(** [d.get(k, dflt)]. *)
Definition dict_get_or (k : string) (dflt : json) (d : list (string * json)) : json :=
  default dflt (assoc k d).

(** Only a dict has [.get] and [.items]. *)
Definition as_dict (v : json) : result (list (string * json)) :=
  match v with
  | JObj fields => Ok fields
  | _ => Raise AttributeError
  end.

(** ** Text

    Strings are UTF-8 byte strings.  Searching, splitting and replacing with
    an ASCII pattern act on the bytes exactly as Python acts on the code
    points, since an ASCII byte never occurs inside a multi-byte sequence. *)

Definition is_cont_byte (c : ascii) : bool :=
  let n := N_of_ascii c in (128 <=? n)%N && (n <? 192)%N.

(** The code points of a string, each as a one-character string (what
    iterating over a [str] yields). *)
Fixpoint chars (s : string) : list string :=
  match s with
  | EmptyString => []
  | String c r =>
      match chars r with
      | String c' h :: t =>
          if is_cont_byte c' then String c (String c' h) :: t
          else String c EmptyString :: String c' h :: t
      | rest => String c EmptyString :: rest
      end
  end.

Definition is_ascii (s : string) : bool :=
  forallb (fun c => (N_of_ascii c <? 128)%N) (list_ascii_of_string s).

Definition ascii_lower_char (c : ascii) : ascii :=
  let n := N_of_ascii c in
  if (65 <=? n)%N && (n <=? 90)%N then ascii_of_N (n + 32) else c.

Fixpoint ascii_lower (s : string) : string :=
  match s with
  | EmptyString => EmptyString
  | String c r => String (ascii_lower_char c) (ascii_lower r)
  end.

(** The ASCII characters [str.isspace] accepts. *)
Definition is_space (c : ascii) : bool :=
  let n := N_of_ascii c in
  ((9 <=? n)%N && (n <=? 13)%N) || ((28 <=? n)%N && (n <=? 32)%N).

Fixpoint lstrip (s : string) : string :=
  match s with
  | EmptyString => EmptyString
  | String c r => if is_space c then lstrip r else s
  end.

Fixpoint rstrip (s : string) : string :=
  match s with
  | EmptyString => EmptyString
  | String c r =>
      match rstrip r with
      | EmptyString => if is_space c then EmptyString else String c EmptyString
      | r' => String c r'
      end
  end.

Definition ascii_strip (s : string) : string := rstrip (lstrip s).

(** [s.split(sep)] for a one-character separator. *)
Fixpoint split_on (sep : ascii) (s : string) : list string :=
  match s with
  | EmptyString => [EmptyString]
  | String c r =>
      if Ascii.eqb c sep then EmptyString :: split_on sep r
      else match split_on sep r with
           | h :: t => String c h :: t
           | [] => [String c EmptyString]
           end
  end.

(** [s.replace(old, new)] for a non-empty [old]: occurrences are replaced
    from the left and do not overlap.  [skip] counts the bytes of the current
    occurrence still to be dropped. *)
Fixpoint replace_from (old new : string) (skip : nat) (s : string) : string :=
  match s with
  | EmptyString => EmptyString
  | String c r =>
      match skip with
      | S k => replace_from old new k r
      | O =>
          if String.prefix old s
          then new ++ replace_from old new (String.length old - 1) r
          else String c (replace_from old new 0 r)
      end
  end.

Definition str_replace (old new s : string) : string := replace_from old new 0 s.

(** [pat in s]. *)
Fixpoint str_contains (pat s : string) : bool :=
  String.prefix pat s ||
  match s with
  | EmptyString => false
  | String _ r => str_contains pat r
  end.

(** ** The host

    The library functions of Python the importer calls.  [str.lower] and
    [str.strip] work on Unicode; on ASCII text they are the functions
    above. *)
Class Host := {
  str_lower : string -> string;
  str_strip : string -> string;
  (** [json.dumps(v, ensure_ascii=True)] *)
  json_dumps : json -> string;
  (** [str(v)] of a value that is not a string *)
  py_repr : json -> string;
  str_lower_ascii : forall s, is_ascii s = true -> str_lower s = ascii_lower s;
  str_strip_ascii : forall s, is_ascii s = true -> str_strip s = ascii_strip s;
}.

(** [str(v)]. *)
Definition py_str `{Host} (v : json) : string :=
  match v with
  | JStr s => s
  | _ => py_repr v
  end.

(** Iterating over a value: a list yields its items, a string its
    characters, a dict its keys; anything else is not iterable. *)
Definition py_iter (v : json) : result (list json) :=
  match v with
  | JArr items => Ok items
  | JStr s => Ok (JStr <$> chars s)
  | JObj fields => Ok ((fun kv => JStr kv.1) <$> fields)
  | _ => Raise TypeError
  end.

(** A method of [str] called on a value: [AttributeError] on anything else. *)
Definition as_str (v : json) : result string :=
  match v with
  | JStr s => Ok s
  | _ => Raise AttributeError
  end.

(** ** Static vocabulary tables (dict literals, in declaration order) *)

Definition DIALECT_TAGS : list (string * string) :=
  [("attic", "attic"); ("ionic", "ionic"); ("epic", "epic");
   ("homeric", "homeric"); ("koine", "koine"); ("byzantine", "byzantine");
   ("doric", "doric"); ("aeolic", "aeolic")].

Definition CASE_TAGS : list (string * string) :=
  [("nominative", "nominative"); ("genitive", "genitive"); ("dative", "dative");
   ("accusative", "accusative"); ("vocative", "vocative")].

Definition NUMBER_TAGS : list (string * string) :=
  [("singular", "singular"); ("dual", "dual"); ("plural", "plural")].

Definition GENDER_TAGS : list (string * string) :=
  [("masculine", "masculine"); ("feminine", "feminine"); ("neuter", "neuter")].

Definition PERSON_TAGS : list (string * string) :=
  [("first-person", "first-person"); ("second-person", "second-person");
   ("third-person", "third-person")].

Definition TENSE_TAGS : list (string * string) :=
  [("present", "present"); ("imperfect", "imperfect"); ("future", "future");
   ("aorist", "aorist"); ("perfect", "perfect"); ("pluperfect", "pluperfect");
   ("future-perfect", "future-perfect")].

Definition MOOD_TAGS : list (string * string) :=
  [("indicative", "indicative"); ("imperative", "imperative");
   ("subjunctive", "subjunctive"); ("optative", "optative")].

Definition VOICE_TAGS : list (string * string) :=
  [("active", "active"); ("middle", "middle"); ("passive", "passive");
   ("middle-passive", "middle-passive")].

Definition DEGREE_TAGS : list (string * string) :=
  [("positive", "positive"); ("comparative", "comparative");
   ("superlative", "superlative")].

Definition VERB_FORM_TAGS : list (string * string) :=
  [("finite", "finite"); ("infinitive", "infinitive"); ("participle", "participle")].

(** The ten category vocabularies the classifier consults. *)
Definition vocabularies : list (list (string * string)) :=
  [DIALECT_TAGS; CASE_TAGS; NUMBER_TAGS; GENDER_TAGS; PERSON_TAGS;
   TENSE_TAGS; MOOD_TAGS; VOICE_TAGS; DEGREE_TAGS; VERB_FORM_TAGS].

Definition PRONOUN_TYPE_KEYWORDS : list string :=
  ["personal"; "demonstrative"; "relative"; "interrogative"; "indefinite";
   "reflexive"; "reciprocal"; "possessive"; "proximal"; "medial"; "distal"].

Definition POS_ALIASES : list (string * string) :=
  [("adjective", "adj"); ("adj", "adj"); ("adverb", "adv"); ("adv", "adv");
   ("pronoun", "pron"); ("pron", "pron"); ("preposition", "prep");
   ("prep", "prep"); ("conjunction", "conj"); ("conj", "conj");
   ("interjection", "intj"); ("intj", "intj"); ("determiner", "det");
   ("det", "det"); ("article", "article"); ("particle", "particle");
   ("noun", "noun"); ("verb", "verb"); ("number", "num"); ("num", "num");
   ("proper noun", "name"); ("name", "name"); ("prefix", "prefix");
   ("suffix", "suffix"); ("postposition", "postp"); ("postp", "postp")].

Definition ENTRY_EXTRA_KEYS : list string :=
  ["pos"; "word"; "lang"; "lang_code"; "senses"; "forms"; "etymology_text";
   "etymology_templates"; "etymology_number"; "inflection_templates";
   "related"; "synonyms"; "antonyms"; "categories"].

Definition SENSE_EXTRA_KEYS : list string :=
  ["id"; "glosses"; "tags"; "form_of"; "alt_of"; "qualifier"; "categories";
   "raw_glosses"; "raw_tags"; "links"; "topics"; "examples"].

(** The mapping local to [add_case]. *)
Definition CASE_HINTS : list (string * string) :=
  [("gen", "genitive"); ("genitive", "genitive"); ("dat", "dative");
   ("dative", "dative"); ("acc", "accusative"); ("accusative", "accusative")].

(** ** Tag classifier, admission filter and heuristics *)

(** The dict [parse_tags] returns. *)
Record parsed_tags := {
  p_dialect : option string;
  p_case : option string;
  p_number : option string;
  p_gender : option string;
  p_person : option string;
  p_tense : option string;
  p_mood : option string;
  p_voice : option string;
  p_degree : option string;
  p_verb_form_type : option string;
}.

(** The dict [extract_entry_metadata] returns. *)
Record entry_metadata := {
  md_etymology_text : json;
  md_etymology_templates : json;
  md_etymology_number : json;
  md_inflection_templates : json;
  md_related : json;
  md_synonyms : json;
  md_antonyms : json;
  md_categories : json;
  md_entry_extra : json;
}.

(** The dict [extract_sense_metadata] returns. *)
Record sense_metadata := {
  sm_tags : json;
  sm_form_of : json;
  sm_alt_of : json;
  sm_qualifier : json;
  sm_categories : json;
  sm_raw_glosses : json;
  sm_raw_tags : json;
  sm_links : json;
  sm_topics : json;
  sm_examples : json;
  sm_sense_extra : json;
}.

Section Extraction.
Context `{Host}.

Definition normalize (text : string) : string := str_lower text.

Definition dumps_or_none (value : json) : json :=
  match value with
  | JNull => JNull
  | JArr [] => JNull
  | JArr _ => JStr (json_dumps value)
  | JObj [] => JNull
  | JObj _ => JStr (json_dumps value)
  | JStr s => if String.eqb s "" then JNull else value
  | _ => value
  end.

(** The strings of an iterable of strings, as [t.lower() for t in v] meets
    them: iterating fails on a scalar, [.lower] on a non-string item. *)
Definition str_items (v : json) : result (list string) :=
  items ← py_iter v; mapM as_str items.

(** The set [tags_lc] of [parse_tags]. *)
Definition tags_lc (tags : list string) : gset string :=
  list_to_set (str_lower <$> tags).

(** The closure [pick] of [parse_tags]: the value of the first key of
    [mapping], in declaration order, that is in the tag set. *)
Fixpoint pick (lc : gset string) (mapping : list (string * string)) : option string :=
  match mapping with
  | [] => None
  | (key, value) :: rest => if bool_decide (key ∈ lc) then Some value else pick lc rest
  end.

Definition parse_tags (tags : list string) : parsed_tags :=
  let lc := tags_lc tags in
  {| p_dialect := pick lc DIALECT_TAGS;
     p_case := pick lc CASE_TAGS;
     p_number := pick lc NUMBER_TAGS;
     p_gender := pick lc GENDER_TAGS;
     p_person := pick lc PERSON_TAGS;
     p_tense := pick lc TENSE_TAGS;
     p_mood := pick lc MOOD_TAGS;
     p_voice := pick lc VOICE_TAGS;
     p_degree := pick lc DEGREE_TAGS;
     p_verb_form_type := pick lc VERB_FORM_TAGS |}.

(** [v == s] for a string literal [s]. *)
Definition is_str (s : string) (v : json) : bool :=
  match v with
  | JStr s' => String.eqb s' s
  | _ => false
  end.

Definition should_keep_form (form_entry : json) : result bool :=
  d ← as_dict form_entry;
  if negb (truthy (dict_get "form" d)) then Ok false
  else if is_str "-" (dict_get "form" d) then Ok false
  else
    raw ← str_items (dict_get_or "tags" (JArr []) d);
    let tags := map str_lower raw in
    match tags with
    | [] => Ok false
    | _ =>
        if bool_decide ("romanization" ∈ tags) then Ok false
        else if bool_decide ("inflection-template" ∈ tags)
                || bool_decide ("table-tags" ∈ tags)
                || bool_decide ("class" ∈ tags) then Ok false
        else Ok true
    end.

(** The string values of [args] under a key that starts with [cat]. *)
Fixpoint cat_values (args : list (string * json)) : list string :=
  match args with
  | [] => []
  | (key, JStr value) :: rest =>
      if String.prefix "cat" key then value :: cat_values rest else cat_values rest
  | _ :: rest => cat_values rest
  end.

(** The candidates one head template contributes to [extract_pronoun_type]. *)
Definition head_candidates (head : json) : result (list string) :=
  hd ← as_dict head;
  args ← as_dict (py_or (dict_get "args" hd) (JObj []));
  Ok (cat_values args).

(** [sense.get("tags") or []], iterated. *)
Definition sense_tags (sense : json) : result (list json) :=
  sd ← as_dict sense;
  py_iter (py_or (dict_get "tags" sd) (JArr [])).

Definition extract_pronoun_type (entry : list (string * json)) : result (option string) :=
  heads ← py_iter (py_or (dict_get "head_templates" entry) (JArr []));
  from_heads ← mapM head_candidates heads;
  senses ← py_iter (py_or (dict_get "senses" entry) (JArr []));
  from_senses ← mapM (fun sense => tags ← sense_tags sense; Ok (map py_str tags)) senses;
  let candidates := concat from_heads ++ concat from_senses in
  let candidates_lc := str_lower (String.concat " " candidates) in
  Ok (List.find (fun keyword => str_contains keyword candidates_lc) PRONOUN_TYPE_KEYWORDS).

(** The closure [add_case], with the list [cases] it appends to made explicit. *)
Definition add_case (raw : string) (cases : list string) : list string :=
  let raw := str_lower (str_strip raw) in
  match assoc raw CASE_HINTS with
  | Some case => if bool_decide (case ∈ cases) then cases else cases ++ [case]
  | None => cases
  end.

(** The body of the loop over one sense's tags. *)
Definition add_tag_case (tag : json) (cases : list string) : list string :=
  let tag_lc := str_lower (py_str tag) in
  if String.prefix "with-" tag_lc then add_case (str_replace "with-" "" tag_lc) cases
  else cases.

(** The body of the loop over the head templates. *)
Definition add_head_cases (head : json) (cases : list string) : result (list string) :=
  hd ← as_dict head;
  args ← as_dict (py_or (dict_get "args" hd) (JObj []));
  match dict_get "2" args with
  | JStr value =>
      let parts := split_on "/" (str_replace "," "/" (str_replace ";" "/" value)) in
      Ok (foldl (fun acc part => add_case part acc) cases parts)
  | _ => Ok cases
  end.

(** A loop whose body may raise. *)
Fixpoint foldM {A S} (f : A -> S -> result S) (l : list A) (s : S) : result S :=
  match l with
  | [] => Ok s
  | x :: rest => s' ← f x s; foldM f rest s'
  end.

Definition extract_governs_case (entry : list (string * json)) : result (option string) :=
  senses ← py_iter (py_or (dict_get "senses" entry) (JArr []));
  cases ← foldM (fun sense cases =>
                   tags ← sense_tags sense;
                   Ok (foldl (fun acc tag => add_tag_case tag acc) cases tags))
                senses [];
  heads ← py_iter (py_or (dict_get "head_templates" entry) (JArr []));
  cases ← foldM add_head_cases heads cases;
  match cases with
  | [] => Ok None
  | _ => Ok (Some (String.concat "/" cases))
  end.

(** An item of [sep.join(...)]: a string. *)
Definition join_item (v : json) : result string :=
  match v with
  | JStr s => Ok s
  | _ => Raise TypeError
  end.

Definition extract_gloss (sense : json) : result (json * json) :=
  sd ← as_dict sense;
  let glosses := py_or (dict_get "glosses" sd) (JArr []) in
  if negb (truthy glosses) then Ok (JStr "?", JNull)
  else
    match glosses with
    | JArr [] => Raise IndexError
    | JArr [gloss] => Ok (gloss, JNull)
    | JArr (gloss :: rest) =>
        rest ← mapM join_item rest; Ok (gloss, JStr (String.concat "; " rest))
    | JStr s =>
        match chars s with
        | [] => Raise IndexError
        | [gloss] => Ok (JStr gloss, JNull)
        | gloss :: rest => Ok (JStr gloss, JStr (String.concat "; " rest))
        end
    | JObj _ => Raise KeyError
    | _ => Raise TypeError
    end.

Definition extract_entry_metadata (entry : list (string * json)) : entry_metadata :=
  let extra := filter (fun kv : string * json => kv.1 ∉ ENTRY_EXTRA_KEYS) entry in
  {| md_etymology_text := dict_get "etymology_text" entry;
     md_etymology_templates := dumps_or_none (dict_get "etymology_templates" entry);
     md_etymology_number := dict_get "etymology_number" entry;
     md_inflection_templates := dumps_or_none (dict_get "inflection_templates" entry);
     md_related := dumps_or_none (dict_get "related" entry);
     md_synonyms := dumps_or_none (dict_get "synonyms" entry);
     md_antonyms := dumps_or_none (dict_get "antonyms" entry);
     md_categories := dumps_or_none (dict_get "categories" entry);
     md_entry_extra := dumps_or_none (JObj extra) |}.

Definition extract_sense_metadata (sense : list (string * json)) : sense_metadata :=
  let extra := filter (fun kv : string * json => kv.1 ∉ SENSE_EXTRA_KEYS) sense in
  {| sm_tags := dumps_or_none (dict_get "tags" sense);
     sm_form_of := dumps_or_none (dict_get "form_of" sense);
     sm_alt_of := dumps_or_none (dict_get "alt_of" sense);
     sm_qualifier := match dict_get "qualifier" sense with
                     | JStr s => JStr s
                     | _ => JNull
                     end;
     sm_categories := dumps_or_none (dict_get "categories" sense);
     sm_raw_glosses := dumps_or_none (dict_get "raw_glosses" sense);
     sm_raw_tags := dumps_or_none (dict_get "raw_tags" sense);
     sm_links := dumps_or_none (dict_get "links" sense);
     sm_topics := dumps_or_none (dict_get "topics" sense);
     sm_examples := dumps_or_none (dict_get "examples" sense);
     sm_sense_extra := dumps_or_none (JObj extra) |}.

(** [parse_pos_list]: the set of alias-normalized codes of a comma-separated
    list. *)
Definition parse_pos_list (pos_list : string) : gset string :=
  foldl (fun (result : gset string) item =>
           let raw := str_lower (str_strip item) in
           if String.eqb raw "" then result
           else {[ default raw (assoc raw POS_ALIASES) ]} ∪ result)
        ∅ (split_on "," pos_list).

End Extraction.

(** ** The store

    The tables of [SCHEMA_SQL], each a list of rows in insertion order.  A
    nullable column holds [None] for NULL.  Values are kept as they were
    bound (column affinity is not modelled); foreign keys always hold, since
    every referenced id comes from an ensure operation. *)

Inductive sqlval :=
| VInt (z : Z)
| VText (s : string).

Record pos_row := { pos_id : Z; pos_code : string }.

Record dialect_row := { dialect_id : Z; dialect_code : string }.

Record lemma_row := {
  l_id : Z;
  l_headword : string;
  l_headword_norm : string;
  l_sort_key : option sqlval;
  l_notes : option sqlval;
  l_etymology_text : option sqlval;
  l_etymology_templates : option sqlval;
  l_etymology_number : option sqlval;
  l_inflection_templates : option sqlval;
  l_related : option sqlval;
  l_synonyms : option sqlval;
  l_antonyms : option sqlval;
  l_categories : option sqlval;
  l_entry_extra : option sqlval;
}.

Record lemma_pos_row := { lp_lemma_id : Z; lp_pos_id : Z; lp_is_primary : Z }.

Record sense_row := {
  s_id : Z;
  s_lemma_id : Z;
  s_pos_id : Z;
  s_gloss : sqlval;
  s_definition : option sqlval;
  s_sense_order : Z;
  s_tags : option sqlval;
  s_form_of : option sqlval;
  s_alt_of : option sqlval;
  s_qualifier : option sqlval;
  s_categories : option sqlval;
  s_raw_glosses : option sqlval;
  s_raw_tags : option sqlval;
  s_links : option sqlval;
  s_topics : option sqlval;
  s_examples : option sqlval;
  s_sense_extra : option sqlval;
}.

Record form_row := {
  f_id : Z;
  f_lemma_id : Z;
  f_pos_id : Z;
  f_form : string;
  f_form_norm : string;
  f_dialect_id : option Z;
  f_tense : option string;
  f_mood : option string;
  f_voice : option string;
  f_person : option string;
  f_number : option string;
  f_grammatical_case : option string;
  f_gender : option string;
  f_degree : option string;
  f_verb_form_type : option string;
  f_is_principal_part : Z;
  f_pronoun_type : option string;
  f_governs_case : option string;
  f_tags : string;
  f_source : option sqlval;
}.

Record database := {
  pos_table : list pos_row;
  dialect_table : list dialect_row;
  lemma_table : list lemma_row;
  lemma_pos_table : list lemma_pos_row;
  sense_table : list sense_row;
  form_table : list form_row;
}.

Definition empty_db : database :=
  {| pos_table := []; dialect_table := []; lemma_table := [];
     lemma_pos_table := []; sense_table := []; form_table := [] |}.

(** The connection with the three caches of one [import_jsonl] run. *)
Record session := {
  conn : database;
  pos_cache : gmap string Z;
  dialect_cache : gmap string Z;
  lemma_cache : gmap (string * string) Z;
}.

Definition with_conn (db : database) (s : session) : session :=
  {| conn := db; pos_cache := pos_cache s; dialect_cache := dialect_cache s;
     lemma_cache := lemma_cache s |}.

(** The rowid SQLite gives a new row of an INTEGER PRIMARY KEY table: one
    more than the largest in use. *)
Definition next_rowid (ids : list Z) : Z :=
  match ids with
  | [] => 1
  | id :: rest => foldl Z.max id rest + 1
  end.

(** The integers SQLite stores: those of 64 bits in two's complement. *)
Definition int64 (n : Z) : bool := (- 2 ^ 63 <=? n)%Z && (n <? 2 ^ 63)%Z.

(** Binding a Python value as a statement parameter: a list or a dict is
    of no supported type, and an integer must fit 64 bits. *)
Definition bind_param (v : json) : result (option sqlval) :=
  match v with
  | JNull => Ok None
  | JBool b => Ok (Some (VInt (if b then 1 else 0)))
  | JNum n => if int64 n then Ok (Some (VInt n)) else Raise OverflowError
  | JStr s => Ok (Some (VText s))
  | JArr _ | JObj _ => Raise BindError
  end.

(** SQL [COALESCE(a, b)]. *)
Definition coalesce (a b : option sqlval) : option sqlval :=
  match a with
  | Some _ => a
  | None => b
  end.

(** *** Entity resolver *)

Definition ensure_pos (code : string) (s : session) : Z * session :=
  match pos_cache s !! code with
  | Some id => (id, s)
  | None =>
      let db := conn s in
      match List.find (fun r => String.eqb (pos_code r) code) (pos_table db) with
      | Some row =>
          (pos_id row,
           {| conn := db; pos_cache := <[code := pos_id row]> (pos_cache s);
              dialect_cache := dialect_cache s; lemma_cache := lemma_cache s |})
      | None =>
          let id := next_rowid (map pos_id (pos_table db)) in
          (id,
           {| conn := {| pos_table := pos_table db ++ [{| pos_id := id; pos_code := code |}];
                         dialect_table := dialect_table db;
                         lemma_table := lemma_table db;
                         lemma_pos_table := lemma_pos_table db;
                         sense_table := sense_table db;
                         form_table := form_table db |};
              pos_cache := <[code := id]> (pos_cache s);
              dialect_cache := dialect_cache s; lemma_cache := lemma_cache s |})
      end
  end.

Definition ensure_dialect (code : string) (s : session) : Z * session :=
  match dialect_cache s !! code with
  | Some id => (id, s)
  | None =>
      let db := conn s in
      match List.find (fun r => String.eqb (dialect_code r) code) (dialect_table db) with
      | Some row =>
          (dialect_id row,
           {| conn := db; pos_cache := pos_cache s;
              dialect_cache := <[code := dialect_id row]> (dialect_cache s);
              lemma_cache := lemma_cache s |})
      | None =>
          let id := next_rowid (map dialect_id (dialect_table db)) in
          (id,
           {| conn := {| pos_table := pos_table db;
                         dialect_table :=
                           dialect_table db ++ [{| dialect_id := id; dialect_code := code |}];
                         lemma_table := lemma_table db;
                         lemma_pos_table := lemma_pos_table db;
                         sense_table := sense_table db;
                         form_table := form_table db |};
              pos_cache := pos_cache s;
              dialect_cache := <[code := id]> (dialect_cache s);
              lemma_cache := lemma_cache s |})
      end
  end.

(** The row [INSERT INTO lemma (headword, headword_norm)] creates. *)
Definition new_lemma (id : Z) (headword headword_norm : string) : lemma_row :=
  {| l_id := id; l_headword := headword; l_headword_norm := headword_norm;
     l_sort_key := None; l_notes := None; l_etymology_text := None;
     l_etymology_templates := None; l_etymology_number := None;
     l_inflection_templates := None; l_related := None; l_synonyms := None;
     l_antonyms := None; l_categories := None; l_entry_extra := None |}.

Definition lemma_key (r : lemma_row) : string * string :=
  (l_headword r, l_headword_norm r).

Section Resolver.
Context `{Host}.

Definition ensure_lemma (headword : string) (s : session) : Z * session :=
  let headword_norm := normalize headword in
  let key := (headword, headword_norm) in
  match lemma_cache s !! key with
  | Some id => (id, s)
  | None =>
      let db := conn s in
      match List.find (fun r => String.eqb (l_headword r) headword
                                && String.eqb (l_headword_norm r) headword_norm)
                      (lemma_table db) with
      | Some row =>
          (l_id row,
           {| conn := db; pos_cache := pos_cache s; dialect_cache := dialect_cache s;
              lemma_cache := <[key := l_id row]> (lemma_cache s) |})
      | None =>
          let id := next_rowid (map l_id (lemma_table db)) in
          (id,
           {| conn := {| pos_table := pos_table db;
                         dialect_table := dialect_table db;
                         lemma_table := lemma_table db ++ [new_lemma id headword headword_norm];
                         lemma_pos_table := lemma_pos_table db;
                         sense_table := sense_table db;
                         form_table := form_table db |};
              pos_cache := pos_cache s; dialect_cache := dialect_cache s;
              lemma_cache := <[key := id]> (lemma_cache s) |})
      end
  end.

End Resolver.

(** *** Lemma metadata *)

Definition is_none (v : json) : bool :=
  match v with JNull => true | _ => false end.

Definition metadata_values (md : entry_metadata) : list json :=
  [md_etymology_text md; md_etymology_templates md; md_etymology_number md;
   md_inflection_templates md; md_related md; md_synonyms md; md_antonyms md;
   md_categories md; md_entry_extra md].

(** The nine columns bound for the UPDATE, in the order of the statement. *)
Record lemma_params := {
  b_etymology_text : option sqlval;
  b_etymology_templates : option sqlval;
  b_etymology_number : option sqlval;
  b_inflection_templates : option sqlval;
  b_related : option sqlval;
  b_synonyms : option sqlval;
  b_antonyms : option sqlval;
  b_categories : option sqlval;
  b_entry_extra : option sqlval;
}.

Definition bind_metadata (md : entry_metadata) : result lemma_params :=
  a ← bind_param (md_etymology_text md);
  b ← bind_param (md_etymology_templates md);
  c ← bind_param (md_etymology_number md);
  d ← bind_param (md_inflection_templates md);
  e ← bind_param (md_related md);
  f ← bind_param (md_synonyms md);
  g ← bind_param (md_antonyms md);
  h ← bind_param (md_categories md);
  i ← bind_param (md_entry_extra md);
  Ok {| b_etymology_text := a; b_etymology_templates := b;
        b_etymology_number := c; b_inflection_templates := d;
        b_related := e; b_synonyms := f; b_antonyms := g;
        b_categories := h; b_entry_extra := i |}.

(** One row under [UPDATE lemma SET col = COALESCE(?, col), ...]. *)
Definition coalesce_row (p : lemma_params) (r : lemma_row) : lemma_row :=
  {| l_id := l_id r; l_headword := l_headword r; l_headword_norm := l_headword_norm r;
     l_sort_key := l_sort_key r; l_notes := l_notes r;
     l_etymology_text := coalesce (b_etymology_text p) (l_etymology_text r);
     l_etymology_templates := coalesce (b_etymology_templates p) (l_etymology_templates r);
     l_etymology_number := coalesce (b_etymology_number p) (l_etymology_number r);
     l_inflection_templates := coalesce (b_inflection_templates p) (l_inflection_templates r);
     l_related := coalesce (b_related p) (l_related r);
     l_synonyms := coalesce (b_synonyms p) (l_synonyms r);
     l_antonyms := coalesce (b_antonyms p) (l_antonyms r);
     l_categories := coalesce (b_categories p) (l_categories r);
     l_entry_extra := coalesce (b_entry_extra p) (l_entry_extra r) |}.

Definition update_lemma_metadata (lemma_id : Z) (md : entry_metadata) (db : database)
  : result database :=
  if negb (existsb (fun value => negb (is_none value)) (metadata_values md)) then Ok db
  else
    p ← bind_metadata md;
    Ok {| pos_table := pos_table db;
          dialect_table := dialect_table db;
          lemma_table :=
            map (fun r => if (l_id r =? lemma_id)%Z then coalesce_row p r else r)
                (lemma_table db);
          lemma_pos_table := lemma_pos_table db;
          sense_table := sense_table db;
          form_table := form_table db |}.

(** *** The import driver *)

(** One line of the input, by what [line.strip()] and [json.loads] make of
    it: blank, not JSON, or a parsed value. *)
Inductive line :=
| Blank
| Garbled
| Parsed (entry : json).

Definition is_blank (ln : line) : bool :=
  match ln with Blank => true | _ => false end.

(** The dict [skipped_reasons]. *)
Record skip_counts := {
  json_decode_error : nat;
  non_grc : nat;
  missing_pos : nat;
  pos_not_allowed : nat;
  missing_headword : nat;
}.

(** The state of the loop of [import_jsonl]. *)
Record driver := {
  sess : session;
  inserted : nat;
  skipped_reasons : skip_counts;
  skipped_pos_counts : gmap string nat;
}.

Definition skip (f : skip_counts -> skip_counts) (st : driver) : driver :=
  {| sess := sess st; inserted := inserted st;
     skipped_reasons := f (skipped_reasons st);
     skipped_pos_counts := skipped_pos_counts st |}.

Definition bump_json_decode_error (c : skip_counts) : skip_counts :=
  {| json_decode_error := json_decode_error c + 1; non_grc := non_grc c;
     missing_pos := missing_pos c; pos_not_allowed := pos_not_allowed c;
     missing_headword := missing_headword c |}.

Definition bump_non_grc (c : skip_counts) : skip_counts :=
  {| json_decode_error := json_decode_error c; non_grc := non_grc c + 1;
     missing_pos := missing_pos c; pos_not_allowed := pos_not_allowed c;
     missing_headword := missing_headword c |}.

Definition bump_missing_pos (c : skip_counts) : skip_counts :=
  {| json_decode_error := json_decode_error c; non_grc := non_grc c;
     missing_pos := missing_pos c + 1; pos_not_allowed := pos_not_allowed c;
     missing_headword := missing_headword c |}.

Definition bump_pos_not_allowed (c : skip_counts) : skip_counts :=
  {| json_decode_error := json_decode_error c; non_grc := non_grc c;
     missing_pos := missing_pos c; pos_not_allowed := pos_not_allowed c + 1;
     missing_headword := missing_headword c |}.

Definition bump_missing_headword (c : skip_counts) : skip_counts :=
  {| json_decode_error := json_decode_error c; non_grc := non_grc c;
     missing_pos := missing_pos c; pos_not_allowed := pos_not_allowed c;
     missing_headword := missing_headword c + 1 |}.

Definition no_skips : skip_counts :=
  {| json_decode_error := 0; non_grc := 0; missing_pos := 0;
     pos_not_allowed := 0; missing_headword := 0 |}.

(** [INSERT OR IGNORE INTO lemma_pos]: the primary key is the pair. *)
Definition insert_lemma_pos (lemma_id pos_id : Z) (db : database) : database :=
  if existsb (fun r => (lp_lemma_id r =? lemma_id)%Z && (lp_pos_id r =? pos_id)%Z)
             (lemma_pos_table db)
  then db
  else {| pos_table := pos_table db;
          dialect_table := dialect_table db;
          lemma_table := lemma_table db;
          lemma_pos_table :=
            lemma_pos_table db
            ++ [{| lp_lemma_id := lemma_id; lp_pos_id := pos_id; lp_is_primary := 1 |}];
          sense_table := sense_table db;
          form_table := form_table db |}.

Definition insert_sense (row : sense_row) (db : database) : database :=
  {| pos_table := pos_table db;
     dialect_table := dialect_table db;
     lemma_table := lemma_table db;
     lemma_pos_table := lemma_pos_table db;
     sense_table := sense_table db ++ [row];
     form_table := form_table db |}.

Definition insert_form (row : form_row) (db : database) : database :=
  {| pos_table := pos_table db;
     dialect_table := dialect_table db;
     lemma_table := lemma_table db;
     lemma_pos_table := lemma_pos_table db;
     sense_table := sense_table db;
     form_table := form_table db ++ [row] |}.

Section Driver.
Context `{Host}.

(** The parameters of the sense INSERT, bound in order; [gloss] is NOT NULL. *)
Definition sense_params (id lemma_id pos_id : Z) (idx : nat) (sense : json)
  : result sense_row :=
  sd ← as_dict sense;
  gd ← extract_gloss sense;
  let sm := extract_sense_metadata sd in
  gloss ← bind_param gd.1;
  definition ← bind_param gd.2;
  tags ← bind_param (sm_tags sm);
  form_of ← bind_param (sm_form_of sm);
  alt_of ← bind_param (sm_alt_of sm);
  qualifier ← bind_param (sm_qualifier sm);
  categories ← bind_param (sm_categories sm);
  raw_glosses ← bind_param (sm_raw_glosses sm);
  raw_tags ← bind_param (sm_raw_tags sm);
  links ← bind_param (sm_links sm);
  topics ← bind_param (sm_topics sm);
  examples ← bind_param (sm_examples sm);
  sense_extra ← bind_param (sm_sense_extra sm);
  match gloss with
  | None => Raise IntegrityError
  | Some gloss =>
      Ok {| s_id := id; s_lemma_id := lemma_id; s_pos_id := pos_id;
            s_gloss := gloss; s_definition := definition;
            s_sense_order := Z.of_nat idx;
            s_tags := tags; s_form_of := form_of; s_alt_of := alt_of;
            s_qualifier := qualifier; s_categories := categories;
            s_raw_glosses := raw_glosses; s_raw_tags := raw_tags;
            s_links := links; s_topics := topics; s_examples := examples;
            s_sense_extra := sense_extra |}
  end.

(** The body of the loop over [enumerate(senses)]. *)
Definition import_sense (lemma_id pos_id : Z) (idx : nat) (sense : json) (db : database)
  : result database :=
  row ← sense_params (next_rowid (map s_id (sense_table db))) lemma_id pos_id idx sense;
  Ok (insert_sense row db).

Fixpoint import_senses (lemma_id pos_id : Z) (idx : nat) (senses : list json)
    (db : database) : result database :=
  match senses with
  | [] => Ok db
  | sense :: rest =>
      db' ← import_sense lemma_id pos_id idx sense db;
      import_senses lemma_id pos_id (S idx) rest db'
  end.

(** [dialect_id = None], then [ensure_dialect] when the form carries a
    dialect tag. *)
Definition resolve_dialect (parsed : parsed_tags) (s : session) : option Z * session :=
  match p_dialect parsed with
  | Some code =>
      if String.eqb code "" then (None, s)
      else let r := ensure_dialect code s in (Some r.1, r.2)
  | None => (None, s)
  end.

(** The body of the loop over the forms. *)
Definition import_form (lemma_id pos_id : Z) (pronoun_type governs_case : option string)
    (form_entry : json) (s : session) : result session :=
  keep ← should_keep_form form_entry;
  if negb keep then Ok s
  else
    fd ← as_dict form_entry;
    form_text ← as_str (dict_get "form" fd);
    let form_norm := normalize form_text in
    let tags := py_or (dict_get "tags" fd) (JArr []) in
    raw ← str_items tags;
    let parsed := parse_tags raw in
    let ds := resolve_dialect parsed s in
    source ← bind_param (dict_get "source" fd);
    let db := conn ds.2 in
    Ok (with_conn
          (insert_form
             {| f_id := next_rowid (map f_id (form_table db));
                f_lemma_id := lemma_id; f_pos_id := pos_id;
                f_form := form_text; f_form_norm := form_norm;
                f_dialect_id := ds.1;
                f_tense := p_tense parsed; f_mood := p_mood parsed;
                f_voice := p_voice parsed; f_person := p_person parsed;
                f_number := p_number parsed; f_grammatical_case := p_case parsed;
                f_gender := p_gender parsed; f_degree := p_degree parsed;
                f_verb_form_type := p_verb_form_type parsed;
                f_is_principal_part := 0;
                f_pronoun_type := pronoun_type; f_governs_case := governs_case;
                f_tags := json_dumps tags;
                f_source := source |} db)
          ds.2).

(** What [import_jsonl] does with an entry that passed the filters. *)
Definition import_entry (pos_code : string) (headword : json)
    (entry : list (string * json)) (s : session) : result session :=
  let entry_metadata := extract_entry_metadata entry in
  let ps := ensure_pos pos_code s in
  let pos_id := ps.1 in
  headword ← as_str headword;
  let ls := ensure_lemma headword ps.2 in
  let lemma_id := ls.1 in
  db ← update_lemma_metadata lemma_id entry_metadata (conn ls.2);
  pronoun_type ← (if String.eqb pos_code "pron" then extract_pronoun_type entry
                  else Ok None);
  governs_case ← (if String.eqb pos_code "prep" then extract_governs_case entry
                  else Ok None);
  let db := insert_lemma_pos lemma_id pos_id db in
  senses ← py_iter (py_or (dict_get "senses" entry) (JArr []));
  db ← import_senses lemma_id pos_id 0 senses db;
  forms ← py_iter (py_or (dict_get "forms" entry) (JArr []));
  foldM (import_form lemma_id pos_id pronoun_type governs_case) forms (with_conn db ls.2).

(** The body of the loop over the lines.  A commit leaves the tables as
    they are; the remainder it is guarded by is still computed. *)
Definition import_line (allowed_pos : gset string) (commit_every : Z) (ln : line)
    (st : driver) : result driver :=
  match ln with
  | Blank => Ok st
  | Garbled => Ok (skip bump_json_decode_error st)
  | Parsed v =>
      entry ← as_dict v;
      if negb (is_str "grc" (dict_get "lang_code" entry)) then Ok (skip bump_non_grc st)
      else
        pos_raw ← as_str (py_or (dict_get "pos" entry) (JStr ""));
        let pos_code := str_strip pos_raw in
        if String.eqb pos_code "" then Ok (skip bump_missing_pos st)
        else if negb (bool_decide (pos_code ∈ allowed_pos)) then
          Ok {| sess := sess st; inserted := inserted st;
                skipped_reasons := bump_pos_not_allowed (skipped_reasons st);
                skipped_pos_counts :=
                  <[pos_code := default 0 (skipped_pos_counts st !! pos_code) + 1]>
                    (skipped_pos_counts st) |}
        else
          let headword := dict_get "word" entry in
          if negb (truthy headword) then Ok (skip bump_missing_headword st)
          else
            s ← import_entry pos_code headword entry (sess st);
            if (commit_every =? 0)%Z then Raise ZeroDivisionError
            else
              Ok {| sess := s; inserted := inserted st + 1;
                    skipped_reasons := skipped_reasons st;
                    skipped_pos_counts := skipped_pos_counts st |}
  end.

(** [import_jsonl]: the final store with what [report_skip_summary] is
    given, and the count of accepted entries. *)
Definition import_jsonl (db : database) (lines : list line) (allowed_pos : gset string)
    (commit_every : Z) : result driver :=
  foldM (import_line allowed_pos commit_every) lines
        {| sess := {| conn := db; pos_cache := ∅; dialect_cache := ∅; lemma_cache := ∅ |};
           inserted := 0; skipped_reasons := no_skips; skipped_pos_counts := ∅ |}.

End Driver.

(** ** The skip report

    [report_skip_summary], as the arguments of its [print] calls in order.
    [skipped_reasons] is the dict [import_jsonl] builds, with its five keys,
    so the early return on two empty dicts is never taken.  The breakdown is
    sorted on [(-count, code)]: Python compares the codes by code point,
    which on UTF-8 text is the order of the bytes. *)

Definition newline : string := String (ascii_of_N 10) EmptyString.

(** [(-a[1], a[0]) <= (-b[1], b[0])]. *)
Definition report_before (a b : string * nat) : bool :=
  Nat.ltb b.2 a.2 || (Nat.eqb a.2 b.2 && String.leb a.1 b.1).

(** [sorted(skipped_pos_counts.items(), key=lambda kv: (-kv[1], kv[0]))]. *)
Definition pos_breakdown (skipped_pos_counts : gmap string nat) : list (string * nat) :=
  merge_sort (fun a b => Is_true (report_before a b)) (map_to_list skipped_pos_counts).

(** [f"{key}: {value}"]. *)
Definition report_line (key : string) (value : nat) : string :=
  (key ++ ": " ++ pretty value)%string.

Definition report_skip_summary (skipped_pos_counts : gmap string nat)
    (skipped_reasons : skip_counts) : list string :=
  let total_skipped_pos :=
    map_fold (fun _ count total => count + total) 0 skipped_pos_counts in
  [(newline ++ "Skip report")%string;
   String.concat "" (replicate 40 "-");
   report_line "json_decode_error" (json_decode_error skipped_reasons);
   report_line "non_grc" (non_grc skipped_reasons);
   report_line "missing_pos" (missing_pos skipped_reasons);
   report_line "pos_not_allowed" (pos_not_allowed skipped_reasons);
   report_line "missing_headword" (missing_headword skipped_reasons)]
  ++ (if Nat.eqb total_skipped_pos 0 then []
      else (newline ++ "Skipped POS breakdown")%string
           :: map (fun kv : string * nat => report_line kv.1 kv.2)
                  (pos_breakdown skipped_pos_counts)).

(** ** The run of [main]

    What a run leaves on disk.  The statements of the importer run in a
    transaction that [conn.commit()] ends: in the loop after [inserted += 1]
    when [commit_every] divides the count, and after the last line.  An
    exception leaves the loop without a commit; [main] closes the connection
    in its [finally], and the store is what the last commit left.  The input
    is the list of its lines and the store has the tables of [SCHEMA_SQL],
    which [create_db_if_missing] leaves as they are. *)

Section Main.
Context `{Host}.

(** [if inserted % commit_every == 0: conn.commit()], reached on the
    accepted path only, where the count has grown. *)
Definition commits (commit_every : Z) (st st' : driver) : bool :=
  Nat.eqb (inserted st') (inserted st + 1)
  && (Z.of_nat (inserted st') mod commit_every =? 0)%Z.

(** The loop of [import_jsonl] with the store as committed, and the final
    [conn.commit()]. *)
Fixpoint import_lines (allowed_pos : gset string) (commit_every : Z)
    (lines : list line) (st : driver) (committed : database)
  : result driver * database :=
  match lines with
  | [] => (Ok st, conn (sess st))
  | ln :: lines =>
      match import_line allowed_pos commit_every ln st with
      | Raise e => (Raise e, committed)
      | Ok st' =>
          import_lines allowed_pos commit_every lines st'
            (if commits commit_every st st' then conn (sess st') else committed)
      end
  end.

(** How [main] ends: with a status, with the message of [SystemExit], or
    with the exception of the importer. *)
Inductive outcome :=
| Returned (status : Z)
| Exited (message : string)
| Failed (e : exn).

(** [main]: how it ends, what it prints and the store it leaves. *)
Definition main (pos : string) (commit_every : Z) (lines : list line) (db : database)
  : outcome * list string * database :=
  let allowed_pos := parse_pos_list pos in
  if bool_decide (allowed_pos = ∅) then
    (Exited "POS set is empty. Provide --pos.", [], db)
  else
    match import_lines allowed_pos commit_every lines
            {| sess := {| conn := db; pos_cache := ∅; dialect_cache := ∅;
                          lemma_cache := ∅ |};
               inserted := 0; skipped_reasons := no_skips; skipped_pos_counts := ∅ |}
            db with
    | (Ok st, db') =>
        (Returned 0, report_skip_summary (skipped_pos_counts st) (skipped_reasons st), db')
    | (Raise e, db') => (Failed e, [], db')
    end.

End Main.

(** ** The form lookup [check_forms.py]

    The SELECT over the store of the importer, and what [main] prints and
    returns for it.  The joins pair a form row with the lemma, POS and
    dialect rows its ids name; a form without dialect, or whose dialect id
    names no row, is kept with a NULL dialect (LEFT JOIN).  TEXT is compared
    and ordered byte by byte. *)

(** A row of [form JOIN lemma JOIN pos LEFT JOIN dialect]. *)
Record joined := {
  j_form : form_row;
  j_lemma : lemma_row;
  j_pos : pos_row;
  j_dialect : option dialect_row;
}.

(** [LEFT JOIN dialect ON form.dialect_id = dialect.id]. *)
Definition left_join_dialect (db : database) (f : form_row) : list (option dialect_row) :=
  match List.filter (fun d => match f_dialect_id f with
                              | Some id => (id =? dialect_id d)%Z
                              | None => false
                              end)
                    (dialect_table db) with
  | [] => [None]
  | matches => map Some matches
  end.

(** The FROM and WHERE clauses. *)
Definition join_forms (db : database) (form : string) : list joined :=
  flat_map (fun f =>
    flat_map (fun l =>
      flat_map (fun p =>
        map (fun d => {| j_form := f; j_lemma := l; j_pos := p; j_dialect := d |})
            (left_join_dialect db f))
        (List.filter (fun p => (f_pos_id f =? pos_id p)%Z) (pos_table db)))
      (List.filter (fun l => (f_lemma_id f =? l_id l)%Z) (lemma_table db)))
    (List.filter (fun f => String.eqb (f_form f) form) (form_table db)).

(** [ORDER BY lemma.headword, pos.code, form.id]. *)
Definition order_before (a b : joined) : bool :=
  let h1 := l_headword (j_lemma a) in
  let h2 := l_headword (j_lemma b) in
  let c1 := pos_code (j_pos a) in
  let c2 := pos_code (j_pos b) in
  String.ltb h1 h2
  || (String.eqb h1 h2
      && (String.ltb c1 c2
          || (String.eqb c1 c2 && (f_id (j_form a) <=? f_id (j_form b))%Z))).

(** The tuple the SELECT returns for a joined row. *)
Record selected := {
  sel_headword : string;
  sel_pos_code : string;
  sel_form : string;
  sel_tense : option string;
  sel_mood : option string;
  sel_voice : option string;
  sel_person : option string;
  sel_number : option string;
  sel_grammatical_case : option string;
  sel_gender : option string;
  sel_verb_form_type : option string;
  sel_dialect : option string;
  sel_source : option sqlval;
  sel_tags : option string;
}.

Definition select_columns (j : joined) : selected :=
  {| sel_headword := l_headword (j_lemma j);
     sel_pos_code := pos_code (j_pos j);
     sel_form := f_form (j_form j);
     sel_tense := f_tense (j_form j);
     sel_mood := f_mood (j_form j);
     sel_voice := f_voice (j_form j);
     sel_person := f_person (j_form j);
     sel_number := f_number (j_form j);
     sel_grammatical_case := f_grammatical_case (j_form j);
     sel_gender := f_gender (j_form j);
     sel_verb_form_type := f_verb_form_type (j_form j);
     sel_dialect := option_map dialect_code (j_dialect j);
     sel_source := f_source (j_form j);
     sel_tags := Some (f_tags (j_form j)) |}.

(** The joined rows in the order of the result. *)
Definition ordered_forms (db : database) (form : string) : list joined :=
  merge_sort (fun a b => Is_true (order_before a b)) (join_forms db form).

(** [conn.execute(sql, (args.form,)).fetchall()]. *)
Definition fetch_forms (db : database) (form : string) : list selected :=
  map select_columns (ordered_forms db form).

(** A column in an f-string: [None] for NULL. *)
Definition show_text (v : option string) : string := default "None" v.

Definition show_value (v : option sqlval) : string :=
  match v with
  | None => "None"
  | Some (VInt n) => pretty n
  | Some (VText s) => s
  end.

(** The lines printed for one row. *)
Definition print_row (row : selected) : list string :=
  [String.concat "" (replicate 60 "-");
   ("lemma: " ++ sel_headword row ++ "  pos: " ++ sel_pos_code row)%string;
   ("form: " ++ sel_form row)%string;
   ("tense: " ++ show_text (sel_tense row) ++ "  mood: " ++ show_text (sel_mood row)
    ++ "  voice: " ++ show_text (sel_voice row))%string;
   ("person: " ++ show_text (sel_person row) ++ "  number: "
    ++ show_text (sel_number row))%string;
   ("case: " ++ show_text (sel_grammatical_case row) ++ "  gender: "
    ++ show_text (sel_gender row) ++ "  verb_form_type: "
    ++ show_text (sel_verb_form_type row))%string;
   ("dialect: " ++ show_text (sel_dialect row) ++ "  source: "
    ++ show_value (sel_source row))%string]
  ++ match sel_tags row with
     | Some tags => [("tags: " ++ tags)%string]
     | None => []
     end.

(** [main] of [check_forms.py]: the lines printed and the exit status. *)
Definition check_forms (db : database) (form : string) : list string * Z :=
  match fetch_forms db form with
  | [] => (["No rows found."], 1%Z)
  | rows => (flat_map print_row rows, 0%Z)
  end.

(** ** Schema evolution

    The catalog [PRAGMA table_info] reads and [ALTER TABLE] changes: for
    each table its columns in order, and its rows as lists of cells, one per
    column.  SQLite resolves table and column names without regard to ASCII
    case; the catalog is keyed by the folded table name.

    [ensure_columns] assembles its two statements as text, with the table
    name, the column name and the column definition put in as they are, so
    SQLite reads all three with its parser.  What it reads in a plain name,
    and in a plain type name put for the column definition, is given here;
    what it makes of any other text is left to the engine. *)

Record column := {
  col_name : string;
  col_type : string;
  col_notnull : bool;
  col_default : option sqlval;
  col_pk : bool;
}.

Record sql_table := {
  tbl_columns : list column;
  tbl_rows : list (list (option sqlval));
}.

(** The keywords of SQLite, folded. *)
Definition SQL_KEYWORDS : list string :=
  ["abort"; "action"; "add"; "after"; "all"; "alter"; "always"; "analyze"; "and"; "as";
   "asc"; "attach"; "autoincrement"; "before"; "begin"; "between"; "by"; "cascade";
   "case"; "cast"; "check"; "collate"; "column"; "commit"; "conflict"; "constraint";
   "create"; "cross"; "current"; "current_date"; "current_time"; "current_timestamp";
   "database"; "default"; "deferrable"; "deferred"; "delete"; "desc"; "detach";
   "distinct"; "do"; "drop"; "each"; "else"; "end"; "escape"; "except"; "exclude";
   "exclusive"; "exists"; "explain"; "fail"; "filter"; "first"; "following"; "for";
   "foreign"; "from"; "full"; "generated"; "glob"; "group"; "groups"; "having"; "if";
   "ignore"; "immediate"; "in"; "index"; "indexed"; "initially"; "inner"; "insert";
   "instead"; "intersect"; "into"; "is"; "isnull"; "join"; "key"; "last"; "left";
   "like"; "limit"; "match"; "materialized"; "natural"; "no"; "not"; "nothing";
   "notnull"; "null"; "nulls"; "of"; "offset"; "on"; "or"; "order"; "others"; "outer";
   "over"; "partition"; "plan"; "pragma"; "preceding"; "primary"; "query"; "raise";
   "range"; "recursive"; "references"; "regexp"; "reindex"; "release"; "rename";
   "replace"; "restrict"; "returning"; "right"; "rollback"; "row"; "rows"; "savepoint";
   "select"; "set"; "table"; "temp"; "temporary"; "then"; "ties"; "to"; "transaction";
   "trigger"; "unbounded"; "union"; "unique"; "update"; "using"; "vacuum"; "values";
   "view"; "virtual"; "when"; "where"; "window"; "with"; "without"].

Definition is_upper (c : ascii) : bool :=
  let n := N_of_ascii c in (65 <=? n)%N && (n <=? 90)%N.

Definition is_lower (c : ascii) : bool :=
  let n := N_of_ascii c in (97 <=? n)%N && (n <=? 122)%N.

Definition is_digit (c : ascii) : bool :=
  let n := N_of_ascii c in (48 <=? n)%N && (n <=? 57)%N.

Definition underscore : ascii := ascii_of_N 95.

(** A text SQLite reads as one name: ASCII letters, digits and underscores,
    the first not a digit; no keyword, and not one of the names in
    [sqlite_] that SQLite keeps to itself. *)
Definition plain_name (s : string) : bool :=
  match s with
  | EmptyString => false
  | String c r =>
      (is_upper c || is_lower c || Ascii.eqb c underscore)
      && forallb (fun c => is_upper c || is_lower c || is_digit c || Ascii.eqb c underscore)
                 (list_ascii_of_string r)
      && negb (existsb (String.eqb (ascii_lower s)) SQL_KEYWORDS)
      && negb (String.prefix "sqlite_" (ascii_lower s))
  end.

(** A column definition that is a type name and nothing more.  SQLite
    reports its own type names in capitals however they were written, so a
    plain type name has no small letter. *)
Definition plain_type (s : string) : bool :=
  plain_name s && forallb (fun c => negb (is_lower c)) (list_ascii_of_string s).

(** The column [name type] defines when [name] is a plain name and [type] a
    plain type name: of that type, nullable, without a default. *)
Definition plain_column (name type : string) : column :=
  {| col_name := name; col_type := type; col_notnull := false;
     col_default := None; col_pk := false |}.

(** The rows of [PRAGMA table_info(name)] for a plain name: none for an
    unknown table. *)
Definition table_info (cat : gmap string sql_table) (name : string) : list column :=
  match cat !! ascii_lower name with
  | Some t => tbl_columns t
  | None => []
  end.

Definition same_name (a b : string) : bool :=
  String.eqb (ascii_lower a) (ascii_lower b).

(** [ALTER TABLE table ADD COLUMN name type] for plain names and a plain
    type name: it fails on an unknown table and on a column name already in
    use; the column is added last and the rows in place get NULL in it. *)
Definition add_column (table name type : string) (cat : gmap string sql_table)
  : result (gmap string sql_table) :=
  match cat !! ascii_lower table with
  | None => Raise OperationalError
  | Some t =>
      if existsb (fun c => same_name (col_name c) name) (tbl_columns t)
      then Raise OperationalError
      else Ok (<[ascii_lower table :=
                   {| tbl_columns := tbl_columns t ++ [plain_column name type];
                      tbl_rows := map (fun r => r ++ [None]) (tbl_rows t) |}]> cat)
  end.

(** SQLite as [ensure_columns] uses it: the two statements with the texts
    put in.  On plain names the PRAGMA reads the catalog, and an ALTER TABLE
    that succeeds has done what [add_column] does. *)
Class Engine := {
  (** [conn.execute(f"PRAGMA table_info({table})")] *)
  pragma_table_info : string -> gmap string sql_table -> result (list column);
  (** [conn.execute(f"ALTER TABLE {table} ADD COLUMN {name} {col_def}")] *)
  alter_table_add_column :
    string -> string -> string -> gmap string sql_table -> result (gmap string sql_table);
  pragma_table_info_plain : forall table cat,
    plain_name table = true -> pragma_table_info table cat = Ok (table_info cat table);
  alter_table_add_column_plain : forall table name col_def cat cat',
    plain_name table = true -> plain_name name = true -> plain_type col_def = true ->
    alter_table_add_column table name col_def cat = Ok cat' ->
    add_column table name col_def cat = Ok cat';
}.

Definition LEMMA_EXTRA_COLUMNS : list (string * string) :=
  [("etymology_text", "TEXT"); ("etymology_templates", "TEXT");
   ("etymology_number", "INTEGER"); ("inflection_templates", "TEXT");
   ("related", "TEXT"); ("synonyms", "TEXT"); ("antonyms", "TEXT");
   ("categories", "TEXT"); ("entry_extra", "TEXT")].

Definition SENSE_EXTRA_COLUMNS : list (string * string) :=
  [("tags", "TEXT"); ("form_of", "TEXT"); ("alt_of", "TEXT"); ("qualifier", "TEXT");
   ("categories", "TEXT"); ("raw_glosses", "TEXT"); ("raw_tags", "TEXT");
   ("links", "TEXT"); ("topics", "TEXT"); ("examples", "TEXT");
   ("sense_extra", "TEXT")].

Definition FORM_EXTRA_COLUMNS : list (string * string) :=
  [("source", "TEXT")].

Section Evolution.
Context `{Engine}.

Definition ensure_columns (table : string) (columns : list (string * string))
    (cat : gmap string sql_table) : result (gmap string sql_table) :=
  info ← pragma_table_info table cat;
  let existing : gset string := list_to_set (map col_name info) in
  foldM (fun (c : string * string) cat =>
           if bool_decide (c.1 ∈ existing) then Ok cat
           else alter_table_add_column table c.1 c.2 cat)
        columns cat.

Definition ensure_schema_columns (cat : gmap string sql_table) : result (gmap string sql_table) :=
  cat ← ensure_columns "lemma" LEMMA_EXTRA_COLUMNS cat;
  cat ← ensure_columns "sense" SENSE_EXTRA_COLUMNS cat;
  ensure_columns "form" FORM_EXTRA_COLUMNS cat.

End Evolution.

(** ** A host for ASCII text

    On strings without a byte above 127 these are Python's [str.lower],
    [str.strip], [json.dumps(.., ensure_ascii=True)] and [str]; the concrete
    runs below use such text only. *)

Definition dquote : ascii := ascii_of_N 34.
Definition squote : ascii := ascii_of_N 39.
Definition backslash : ascii := ascii_of_N 92.

Definition hex_digit (d : N) : ascii :=
  if (d <? 10)%N then ascii_of_N (48 + d) else ascii_of_N (87 + d).

Definition hex2 (n : N) : string :=
  String (hex_digit (n / 16)) (String (hex_digit (n mod 16)) EmptyString).

(** One character inside a JSON string literal. *)
Definition json_escape (c : ascii) : string :=
  let n := N_of_ascii c in
  if (n =? 34)%N then String backslash (String dquote EmptyString)
  else if (n =? 92)%N then String backslash (String backslash EmptyString)
  else if (n =? 10)%N then String backslash "n"
  else if (n =? 13)%N then String backslash "r"
  else if (n =? 9)%N then String backslash "t"
  else if (n =? 8)%N then String backslash "b"
  else if (n =? 12)%N then String backslash "f"
  else if (n <? 32)%N || (n =? 127)%N then String backslash ("u00" ++ hex2 n)
  else String c EmptyString.

Fixpoint flat_map_string (f : ascii -> string) (s : string) : string :=
  match s with
  | EmptyString => EmptyString
  | String c r => f c ++ flat_map_string f r
  end.

Definition json_quote (s : string) : string :=
  String dquote (flat_map_string json_escape s ++ String dquote EmptyString).

Fixpoint ascii_dumps (v : json) : string :=
  match v with
  | JNull => "null"
  | JBool b => if b then "true" else "false"
  | JNum n => pretty n
  | JStr s => json_quote s
  | JArr items => "[" ++ String.concat ", " (map ascii_dumps items) ++ "]"
  | JObj fields =>
      "{" ++ String.concat ", "
               (map (fun '(k, v) => (json_quote k ++ ": " ++ ascii_dumps v)%string) fields)
          ++ "}"
  end.

Fixpoint has_char (c : ascii) (s : string) : bool :=
  match s with
  | EmptyString => false
  | String c' r => Ascii.eqb c c' || has_char c r
  end.

(** One character inside [repr] of a string quoted with [q]. *)
Definition repr_escape (q c : ascii) : string :=
  let n := N_of_ascii c in
  if Ascii.eqb c q || (n =? 92)%N then String backslash (String c EmptyString)
  else if (n =? 10)%N then String backslash "n"
  else if (n =? 13)%N then String backslash "r"
  else if (n =? 9)%N then String backslash "t"
  else if (n <? 32)%N || (n =? 127)%N then String backslash ("x" ++ hex2 n)
  else String c EmptyString.

Definition repr_string (s : string) : string :=
  let q := if has_char squote s && negb (has_char dquote s) then dquote else squote in
  String q (flat_map_string (repr_escape q) s ++ String q EmptyString).

Fixpoint ascii_repr (v : json) : string :=
  match v with
  | JNull => "None"
  | JBool b => if b then "True" else "False"
  | JNum n => pretty n
  | JStr s => repr_string s
  | JArr items => "[" ++ String.concat ", " (map ascii_repr items) ++ "]"
  | JObj fields =>
      "{" ++ String.concat ", "
               (map (fun '(k, v) => (repr_string k ++ ": " ++ ascii_repr v)%string) fields)
          ++ "}"
  end.

Definition ascii_host : Host :=
  {| str_lower := ascii_lower;
     str_strip := ascii_strip;
     json_dumps := ascii_dumps;
     py_repr := ascii_repr;
     str_lower_ascii := fun s _ => eq_refl;
     str_strip_ascii := fun s _ => eq_refl |}.

(** ** An engine for plain names

    SQLite on plain names, where an ALTER TABLE fails only as [add_column]
    does; the concrete runs below put in no other text, and on any other
    this engine stands for nothing. *)

Definition plain_engine : Engine :=
  {| pragma_table_info := fun table cat =>
       if plain_name table then Ok (table_info cat table) else Raise OperationalError;
     alter_table_add_column := fun table name col_def cat =>
       if plain_name table && plain_name name && plain_type col_def
       then add_column table name col_def cat
       else Raise OperationalError;
     pragma_table_info_plain := fun table cat Ht =>
       @eq_ind_r bool true
         (fun b : bool =>
            (if b then Ok (table_info cat table) else Raise OperationalError)
            = Ok (table_info cat table))
         eq_refl (plain_name table) Ht;
     alter_table_add_column_plain := fun table name col_def cat cat' Ht Hn Hd =>
       @eq_ind_r bool true
         (fun b : bool =>
            (if b && plain_name name && plain_type col_def
             then add_column table name col_def cat
             else Raise OperationalError) = Ok cat' ->
            add_column table name col_def cat = Ok cat')
         (@eq_ind_r bool true
            (fun b : bool =>
               (if true && b && plain_type col_def
                then add_column table name col_def cat
                else Raise OperationalError) = Ok cat' ->
               add_column table name col_def cat = Ok cat')
            (@eq_ind_r bool true
               (fun b : bool =>
                  (if true && true && b
                   then add_column table name col_def cat
                   else Raise OperationalError) = Ok cat' ->
                  add_column table name col_def cat = Ok cat')
               (fun Hrun => Hrun) (plain_type col_def) Hd)
            (plain_name name) Hn)
         (plain_name table) Ht |}.

(** * The vocabulary of the properties

    The notions the statements below are written in. *)

Definition vocabulary_keys : list string :=
  concat (map (map fst) vocabularies).

(** The number of category vocabularies a token is a key of. *)
Definition vocabularies_with (token : string) : nat :=
  length (filter (fun V : list (string * string) => token ∈ map fst V) vocabularies).

(** The tags that keep a form out. *)
Definition blocked_tags : list string :=
  ["romanization"; "inflection-template"; "table-tags"; "class"].

(** The nine metadata columns of [lemma]. *)
Inductive meta_field :=
| etymology_text
| etymology_templates
| etymology_number
| inflection_templates
| related
| synonyms
| antonyms
| categories
| entry_extra.

(** [metadata[f]]. *)
Definition incoming (f : meta_field) (md : entry_metadata) : json :=
  match f with
  | etymology_text => md_etymology_text md
  | etymology_templates => md_etymology_templates md
  | etymology_number => md_etymology_number md
  | inflection_templates => md_inflection_templates md
  | related => md_related md
  | synonyms => md_synonyms md
  | antonyms => md_antonyms md
  | categories => md_categories md
  | entry_extra => md_entry_extra md
  end.

(** The value a row holds in column [f]. *)
Definition stored (f : meta_field) (r : lemma_row) : option sqlval :=
  match f with
  | etymology_text => l_etymology_text r
  | etymology_templates => l_etymology_templates r
  | etymology_number => l_etymology_number r
  | inflection_templates => l_inflection_templates r
  | related => l_related r
  | synonyms => l_synonyms r
  | antonyms => l_antonyms r
  | categories => l_categories r
  | entry_extra => l_entry_extra r
  end.

Definition bound (f : meta_field) (p : lemma_params) : option sqlval :=
  match f with
  | etymology_text => b_etymology_text p
  | etymology_templates => b_etymology_templates p
  | etymology_number => b_etymology_number p
  | inflection_templates => b_inflection_templates p
  | related => b_related p
  | synonyms => b_synonyms p
  | antonyms => b_antonyms p
  | categories => b_categories p
  | entry_extra => b_entry_extra p
  end.

(** The canonical case name of a normalized token, in the spec's words:
    gen and genitive give genitive, dat and dative give dative, acc and
    accusative give accusative, anything else is dropped. *)
Definition spec_case_name (token : string) : option string :=
  if String.eqb token "gen" || String.eqb token "genitive" then Some "genitive"
  else if String.eqb token "dat" || String.eqb token "dative" then Some "dative"
  else if String.eqb token "acc" || String.eqb token "accusative" then Some "accusative"
  else None.

(** The elements of [l] not in [seen], each once, in the order in which
    they first occur. *)
Fixpoint first_seen (seen l : list string) : list string :=
  match l with
  | [] => []
  | x :: rest =>
      if bool_decide (x ∈ seen) then first_seen seen rest
      else x :: first_seen (seen ++ [x]) rest
  end.

(** [s] with the marker [with-] taken out wherever it stands, reading
    from the left. *)
Fixpoint without_marker (s : string) : string :=
  match s with
  | EmptyString => EmptyString
  | String c r =>
      if String.prefix "with-" s
      then match r with
           | String _ (String _ (String _ (String _ rest))) => without_marker rest
           | _ => EmptyString
           end
      else String c (without_marker r)
  end.

(** The parts of [s] between the separators [seps], an empty part
    between two separators and at either end. *)
Fixpoint split_any (seps : list ascii) (s : string) : list string :=
  match s with
  | EmptyString => [EmptyString]
  | String c r =>
      if existsb (Ascii.eqb c) seps then EmptyString :: split_any seps r
      else match split_any seps r with
           | part :: parts => String c part :: parts
           | [] => [String c EmptyString]
           end
  end.

Section CaseHints.
Context `{Host}.

(** The hints the tags of one sense give: the lowercased tags that begin
    with [with-], without that marker. *)
Fixpoint tag_hints (tags : list json) : list string :=
  match tags with
  | [] => []
  | tag :: rest =>
      let tag_lc := str_lower (py_str tag) in
      if String.prefix "with-" tag_lc
      then without_marker tag_lc :: tag_hints rest
      else tag_hints rest
  end.

(** The hints one head template gives: its argument [2], when a string,
    split on slash, comma and semicolon. *)
Definition head_hints (head : json) : result (list string) :=
  hd ← as_dict head;
  args ← as_dict (py_or (dict_get "args" hd) (JObj []));
  match dict_get "2" args with
  | JStr value => Ok (split_any ["/"%char; ","%char; ";"%char] value)
  | _ => Ok []
  end.

(** All the hints of an entry: those of the sense tags first, then those of
    the head templates. *)
Definition case_hints (entry : list (string * json)) : result (list string) :=
  senses ← py_iter (py_or (dict_get "senses" entry) (JArr []));
  from_tags ← mapM (fun sense => tags ← sense_tags sense; Ok (tag_hints tags)) senses;
  heads ← py_iter (py_or (dict_get "head_templates" entry) (JArr []));
  from_heads ← mapM head_hints heads;
  Ok (concat from_tags ++ concat from_heads).

(** The result in the spec's words: normalize every hint, drop the
    unrecognized ones, keep each case once in first-seen order, and join
    with slashes; absent when nothing is left. *)
Definition spec_governs_case (hints : list string) : option string :=
  match first_seen [] (omap (fun raw => spec_case_name (str_lower (str_strip raw))) hints) with
  | [] => None
  | cases => Some (String.concat "/" cases)
  end.

End CaseHints.

(** A table with the columns [cols] added at the end, NULL in every row. *)
Definition extend_table (t : sql_table) (cols : list (string * string)) : sql_table :=
  {| tbl_columns := tbl_columns t ++ map (fun c => plain_column c.1 c.2) cols;
     tbl_rows := map (fun r => r ++ replicate (length cols) None) (tbl_rows t) |}.

(** The body of the loop of [ensure_columns] on plain names, with the set
    [existing] read before it. *)
Definition ensure_step (existing : gset string) (table : string) (c : string * string)
    (cat : gmap string sql_table) : result (gmap string sql_table) :=
  if bool_decide (c.1 ∈ existing) then Ok cat else add_column table c.1 c.2 cat.

Definition total_skips (c : skip_counts) : nat :=
  json_decode_error c + non_grc c + missing_pos c + pos_not_allowed c
  + missing_headword c.

(** The five skip counters and the count of accepted entries. *)
Definition tallies (st : driver) : list nat :=
  [json_decode_error (skipped_reasons st); non_grc (skipped_reasons st);
   missing_pos (skipped_reasons st); pos_not_allowed (skipped_reasons st);
   missing_headword (skipped_reasons st); inserted st].

Definition non_blank (lines : list line) : nat :=
  length (List.filter (fun ln => negb (is_blank ln)) lines).

(** [POS_ALIASES.get(raw, raw)]. *)
Definition pos_alias (raw : string) : string := default raw (assoc raw POS_ALIASES).

Definition pos_codes (db : database) : list string := map pos_code (pos_table db).
Definition dialect_codes (db : database) : list string :=
  map dialect_code (dialect_table db).
Definition lemma_keys (db : database) : list (string * string) :=
  map lemma_key (lemma_table db).

(** [db'] holds every POS code, dialect code and lemma key of [db]. *)
Definition covers (db db' : database) : Prop :=
  (forall c, c ∈ pos_codes db -> c ∈ pos_codes db')
  /\ (forall c, c ∈ dialect_codes db -> c ∈ dialect_codes db')
  /\ (forall k, k ∈ lemma_keys db -> k ∈ lemma_keys db').

(** [db'] has the POS and dialect rows of [db] and lemmas under the same
    keys, in the same order. *)
Definition same_entities (db db' : database) : Prop :=
  pos_table db' = pos_table db
  /\ dialect_table db' = dialect_table db
  /\ lemma_keys db' = lemma_keys db.

(** From [db] to [db'] no entity was lost and no sense or form row removed. *)
Definition grows (db db' : database) : Prop :=
  covers db db'
  /\ length (sense_table db) <= length (sense_table db')
  /\ length (form_table db) <= length (form_table db').

(** The step from [a] to [a'] and the step from [b] to [b'] append the same
    number of sense rows and of form rows. *)
Definition same_growth (a a' b b' : database) : Prop :=
  length (sense_table b') + length (sense_table a)
  = length (sense_table b) + length (sense_table a')
  /\ length (form_table b') + length (form_table a)
     = length (form_table b) + length (form_table a').

(** Every key a cache holds is in the store. *)
Definition caches_sound (s : session) : Prop :=
  (forall c id, pos_cache s !! c = Some id -> c ∈ pos_codes (conn s))
  /\ (forall c id, dialect_cache s !! c = Some id -> c ∈ dialect_codes (conn s))
  /\ (forall k id, lemma_cache s !! k = Some id -> k ∈ lemma_keys (conn s)).

(** *** Entries of the documented shape

    The input format the importer is written for: [pos] and [word] strings,
    scalar etymology text and number, head templates with an [args] mapping,
    senses with a list of string glosses and a list of tags, forms with a
    string [form], a list of string tags and a scalar [source].  A field may
    be missing, and null where the code reads it with [or].  An integer
    that is bound as a parameter fits 64 bits. *)













Section Replays.
Context {S : Type} (view : S -> session).

(** [fb] replays [fa]: whenever [fa] succeeds from sound caches, its caches
    stay sound and the store grows, and on any store that covers the result
    [fb] succeeds, creates no entity, and appends as many sense and form rows
    as [fa] did. *)
Definition replays (fa fb : S -> result S) : Prop :=
  forall sa sa',
    caches_sound (view sa) -> fa sa = Ok sa' ->
    caches_sound (view sa')
    /\ grows (conn (view sa)) (conn (view sa'))
    /\ forall sb,
         covers (conn (view sa')) (conn (view sb)) ->
         exists sb',
           fb sb = Ok sb'
           /\ same_entities (conn (view sb)) (conn (view sb'))
           /\ same_growth (conn (view sa)) (conn (view sa'))
                          (conn (view sb)) (conn (view sb')).

End Replays.

(** *** Integrity of the store

    What the constraints of [SCHEMA_SQL] ask of the tables, and the ways in
    which the importer changes them. *)

Definition pos_ids (db : database) : list Z := map pos_id (pos_table db).
Definition dialect_ids (db : database) : list Z := map dialect_id (dialect_table db).
Definition lemma_ids (db : database) : list Z := map l_id (lemma_table db).

(** The key of [lemma_pos]: the pair. *)
Definition lemma_pos_key (r : lemma_pos_row) : Z * Z := (lp_lemma_id r, lp_pos_id r).

(** [UNIQUE] on [pos.code] and [dialect.code], and one lemma row per
    headword and normalized headword. *)
Definition unique_keys (db : database) : Prop :=
  NoDup (pos_codes db) /\ NoDup (dialect_codes db) /\ NoDup (lemma_keys db).

(** The [PRIMARY KEY] clauses. *)
Definition primary_keys (db : database) : Prop :=
  NoDup (pos_ids db) /\ NoDup (dialect_ids db) /\ NoDup (lemma_ids db)
  /\ NoDup (map lemma_pos_key (lemma_pos_table db))
  /\ NoDup (map s_id (sense_table db)) /\ NoDup (map f_id (form_table db)).

(** The [REFERENCES] clauses. *)
Definition references_hold (db : database) : Prop :=
  (forall r, r ∈ lemma_pos_table db ->
     lp_lemma_id r ∈ lemma_ids db /\ lp_pos_id r ∈ pos_ids db)
  /\ (forall r, r ∈ sense_table db ->
        s_lemma_id r ∈ lemma_ids db /\ s_pos_id r ∈ pos_ids db)
  /\ (forall r, r ∈ form_table db ->
        f_lemma_id r ∈ lemma_ids db /\ f_pos_id r ∈ pos_ids db
        /\ forall d, f_dialect_id r = Some d -> d ∈ dialect_ids db).

(** The code and id of every POS row, and likewise for the other entities. *)
Definition pos_entries (db : database) : list (string * Z) :=
  map (fun r => (pos_code r, pos_id r)) (pos_table db).
Definition dialect_entries (db : database) : list (string * Z) :=
  map (fun r => (dialect_code r, dialect_id r)) (dialect_table db).
Definition lemma_entries (db : database) : list ((string * string) * Z) :=
  map (fun r => (lemma_key r, l_id r)) (lemma_table db).

(** Every id a cache holds is the id of a row with that key. *)
Definition caches_coherent (s : session) : Prop :=
  (forall c id, pos_cache s !! c = Some id -> (c, id) ∈ pos_entries (conn s))
  /\ (forall c id, dialect_cache s !! c = Some id -> (c, id) ∈ dialect_entries (conn s))
  /\ (forall k id, lemma_cache s !! k = Some id -> (k, id) ∈ lemma_entries (conn s)).

(** What the metadata UPDATE leaves of a lemma row: the columns it does not
    name, and a value wherever there was one. *)
Definition keeps_lemma (r r' : lemma_row) : Prop :=
  l_id r' = l_id r /\ l_headword r' = l_headword r
  /\ l_headword_norm r' = l_headword_norm r
  /\ l_sort_key r' = l_sort_key r /\ l_notes r' = l_notes r
  /\ forall f, stored f r <> None -> stored f r' <> None.

(** [db'] is [db] with rows appended: every row of [db] is still there, in
    its place and as it was, a lemma row possibly with other metadata. *)
Definition extends (db db' : database) : Prop :=
  pos_table db `prefix_of` pos_table db'
  /\ dialect_table db `prefix_of` dialect_table db'
  /\ (exists kept added,
        lemma_table db' = kept ++ added /\ Forall2 keeps_lemma (lemma_table db) kept)
  /\ lemma_pos_table db `prefix_of` lemma_pos_table db'
  /\ sense_table db `prefix_of` sense_table db'
  /\ form_table db `prefix_of` form_table db'.

Definition insert_pos (row : pos_row) (db : database) : database :=
  {| pos_table := pos_table db ++ [row];
     dialect_table := dialect_table db;
     lemma_table := lemma_table db;
     lemma_pos_table := lemma_pos_table db;
     sense_table := sense_table db;
     form_table := form_table db |}.

Definition insert_dialect (row : dialect_row) (db : database) : database :=
  {| pos_table := pos_table db;
     dialect_table := dialect_table db ++ [row];
     lemma_table := lemma_table db;
     lemma_pos_table := lemma_pos_table db;
     sense_table := sense_table db;
     form_table := form_table db |}.

Definition insert_lemma (row : lemma_row) (db : database) : database :=
  {| pos_table := pos_table db;
     dialect_table := dialect_table db;
     lemma_table := lemma_table db ++ [row];
     lemma_pos_table := lemma_pos_table db;
     sense_table := sense_table db;
     form_table := form_table db |}.

Definition update_lemma (lemma_id : Z) (p : lemma_params) (db : database) : database :=
  {| pos_table := pos_table db;
     dialect_table := dialect_table db;
     lemma_table :=
       map (fun r => if (l_id r =? lemma_id)%Z then coalesce_row p r else r)
           (lemma_table db);
     lemma_pos_table := lemma_pos_table db;
     sense_table := sense_table db;
     form_table := form_table db |}.

Definition link_lemma_pos (lemma_id pos_id : Z) (db : database) : database :=
  {| pos_table := pos_table db;
     dialect_table := dialect_table db;
     lemma_table := lemma_table db;
     lemma_pos_table :=
       lemma_pos_table db
       ++ [{| lp_lemma_id := lemma_id; lp_pos_id := pos_id; lp_is_primary := 1 |}];
     sense_table := sense_table db;
     form_table := form_table db |}.

Section StoreSteps.
Context `{Host}.

(** The normalized columns hold the lowercased text of the column they
    are computed from. *)
Definition normalized (db : database) : Prop :=
  (forall r, r ∈ lemma_table db -> l_headword_norm r = normalize (l_headword r))
  /\ (forall r, r ∈ form_table db -> f_form_norm r = normalize (f_form r)).

(** No form row holds an empty text or the placeholder [-]. *)
Definition forms_admitted (db : database) : Prop :=
  forall r, r ∈ form_table db -> f_form r <> "" /\ f_form r <> "-".

(** One statement of the importer that changes the store: the inserts of
    the three ensure operations, the metadata UPDATE, and the inserts into
    [lemma_pos], [sense] and [form], each with what the importer has
    established when it runs it. *)
Inductive store_step : database -> database -> Prop :=
| step_pos db code :
    code ∉ pos_codes db ->
    store_step db (insert_pos {| pos_id := next_rowid (pos_ids db); pos_code := code |} db)
| step_dialect db code :
    code ∉ dialect_codes db ->
    store_step db (insert_dialect {| dialect_id := next_rowid (dialect_ids db);
                                     dialect_code := code |} db)
| step_lemma db headword :
    (headword, normalize headword) ∉ lemma_keys db ->
    store_step db (insert_lemma (new_lemma (next_rowid (lemma_ids db)) headword
                                           (normalize headword)) db)
| step_update db lemma_id p :
    store_step db (update_lemma lemma_id p db)
| step_lemma_pos db lemma_id pos_id :
    lemma_id ∈ lemma_ids db -> pos_id ∈ pos_ids db ->
    (lemma_id, pos_id) ∉ map lemma_pos_key (lemma_pos_table db) ->
    store_step db (link_lemma_pos lemma_id pos_id db)
| step_sense db row :
    s_id row = next_rowid (map s_id (sense_table db)) ->
    s_lemma_id row ∈ lemma_ids db -> s_pos_id row ∈ pos_ids db ->
    store_step db (insert_sense row db)
| step_form db row :
    f_id row = next_rowid (map f_id (form_table db)) ->
    f_lemma_id row ∈ lemma_ids db -> f_pos_id row ∈ pos_ids db ->
    (forall d, f_dialect_id row = Some d -> d ∈ dialect_ids db) ->
    f_form_norm row = normalize (f_form row) ->
    f_form row <> "" -> f_form row <> "-" ->
    store_step db (insert_form row db).

End StoreSteps.

(** *** The rows an entry adds *)

(** The ten slots of the dict [parse_tags] returns, each with the
    vocabulary it is filled from. *)
Definition slots : list ((parsed_tags -> option string) * list (string * string)) :=
  [(p_dialect, DIALECT_TAGS); (p_case, CASE_TAGS); (p_number, NUMBER_TAGS);
   (p_gender, GENDER_TAGS); (p_person, PERSON_TAGS); (p_tense, TENSE_TAGS);
   (p_mood, MOOD_TAGS); (p_voice, VOICE_TAGS); (p_degree, DEGREE_TAGS);
   (p_verb_form_type, VERB_FORM_TAGS)].

(** The nine feature columns of a form row, and the slots of [parse_tags]
    they are filled from. *)
Definition form_features (r : form_row) : list (option string) :=
  [f_tense r; f_mood r; f_voice r; f_person r; f_number r; f_grammatical_case r;
   f_gender r; f_degree r; f_verb_form_type r].

Definition parsed_features (p : parsed_tags) : list (option string) :=
  [p_tense p; p_mood p; p_voice p; p_person p; p_number p; p_case p;
   p_gender p; p_degree p; p_verb_form_type p].

Section EntryRows.
Context `{Host}.

(** The admission filter keeps the form entry. *)
Definition kept (form_entry : json) : bool :=
  match should_keep_form form_entry with
  | Ok true => true
  | _ => false
  end.

(** [row] is the sense row of [sense]: its gloss and definition are those
    [extract_gloss] gives, as bound. *)
Definition sense_row_of (lemma_id pos_id : Z) (sense : json) (row : sense_row) : Prop :=
  s_lemma_id row = lemma_id /\ s_pos_id row = pos_id
  /\ exists gloss definition,
       extract_gloss sense = Ok (gloss, definition)
       /\ bind_param gloss = Ok (Some (s_gloss row))
       /\ bind_param definition = Ok (s_definition row).

(** [row] is the form row of [form_entry] in the store [db]: the text as
    it came and lowercased, the features [parse_tags] reads off the tags, the
    dialect row of the dialect tag, and the ids and the two heuristics of the
    entry. *)
Definition form_row_of (db : database) (lemma_id pos_id : Z)
    (pronoun_type governs_case : option string) (form_entry : json) (row : form_row)
  : Prop :=
  exists fd raw,
    form_entry = JObj fd
    /\ dict_get "form" fd = JStr (f_form row)
    /\ f_form_norm row = normalize (f_form row)
    /\ str_items (py_or (dict_get "tags" fd) (JArr [])) = Ok raw
    /\ form_features row = parsed_features (parse_tags raw)
    /\ match p_dialect (parse_tags raw) with
       | Some code => exists id, f_dialect_id row = Some id /\ (code, id) ∈ dialect_entries db
       | None => f_dialect_id row = None
       end
    /\ f_lemma_id row = lemma_id /\ f_pos_id row = pos_id
    /\ f_pronoun_type row = pronoun_type /\ f_governs_case row = governs_case
    /\ f_is_principal_part row = 0%Z
    /\ f_tags row = json_dumps (py_or (dict_get "tags" fd) (JArr []))
    /\ bind_param (dict_get "source" fd) = Ok (f_source row).

End EntryRows.

(** [sum(skipped_pos_counts.values())]. *)
Definition total_skipped_pos (counts : gmap string nat) : nat :=
  map_fold (fun _ count total => count + total) 0 counts.

(** [a] comes strictly before [b] in the breakdown: a larger count, or the
    same count and a smaller code. *)
Definition report_precedes (a b : string * nat) : Prop :=
  b.2 < a.2 \/ (a.2 = b.2 /\ String.ltb a.1 b.1 = true).

(** *** The form lookup *)

(** The form rows with the text [form], in the order of the table. *)
Definition forms_with_text (db : database) (form : string) : list form_row :=
  List.filter (fun f => String.eqb (f_form f) form) (form_table db).

(** The joined row pairs the form with the rows its ids name. *)
Definition joined_by_ids (db : database) (j : joined) : Prop :=
  j_lemma j ∈ lemma_table db /\ l_id (j_lemma j) = f_lemma_id (j_form j)
  /\ j_pos j ∈ pos_table db /\ pos_id (j_pos j) = f_pos_id (j_form j)
  /\ match f_dialect_id (j_form j) with
     | Some id => exists d, j_dialect j = Some d /\ d ∈ dialect_table db /\ dialect_id d = id
     | None => j_dialect j = None
     end.

(** [a] comes strictly before [b] in the order of the SELECT. *)
Definition order_precedes (a b : joined) : Prop :=
  String.ltb (l_headword (j_lemma a)) (l_headword (j_lemma b)) = true
  \/ (l_headword (j_lemma a) = l_headword (j_lemma b)
      /\ (String.ltb (pos_code (j_pos a)) (pos_code (j_pos b)) = true
          \/ (pos_code (j_pos a) = pos_code (j_pos b)
              /\ (f_id (j_form a) < f_id (j_form b))%Z))).

(** *** The run of [main] *)

(** No accepted entry after those of [st], up to those of [st'], has a
    count that [commit_every] divides. *)
Definition no_commit_between (commit_every : Z) (st st' : driver) : Prop :=
  forall n, inserted st < n <= inserted st' -> (Z.of_nat n mod commit_every)%Z <> 0%Z.

(** *** Forms stored and shown *)

Section Stored.
Context `{Host}.

(** [r] is the form row of a form with the text [text] and the tags [raw],
    written as [tags], of an entry with the POS code [code] and the headword
    [headword]: its ids name the rows of the code, of the headword and of
    the dialect tag. *)
Definition form_stored (db : database) (code headword text : string)
    (raw : list string) (tags : json) (r : form_row) : Prop :=
  f_form r = text
  /\ form_features r = parsed_features (parse_tags raw)
  /\ f_tags r = json_dumps tags
  /\ (code, f_pos_id r) ∈ pos_entries db
  /\ ((headword, normalize headword), f_lemma_id r) ∈ lemma_entries db
  /\ match p_dialect (parse_tags raw) with
     | Some dialect => exists id, f_dialect_id r = Some id
                                  /\ (dialect, id) ∈ dialect_entries db
     | None => f_dialect_id r = None
     end.

(** [row] is what the lookup shows of such a form. *)
Definition form_shown (code headword text : string) (raw : list string) (tags : json)
    (row : selected) : Prop :=
  sel_headword row = headword /\ sel_pos_code row = code /\ sel_form row = text
  /\ [sel_tense row; sel_mood row; sel_voice row; sel_person row; sel_number row;
      sel_grammatical_case row; sel_gender row; sel_verb_form_type row]
     = [p_tense (parse_tags raw); p_mood (parse_tags raw); p_voice (parse_tags raw);
        p_person (parse_tags raw); p_number (parse_tags raw); p_case (parse_tags raw);
        p_gender (parse_tags raw); p_verb_form_type (parse_tags raw)]
  /\ sel_dialect row = p_dialect (parse_tags raw)
  /\ sel_tags row = Some (json_dumps tags).

End Stored.

(** ** Sample data

    ASCII text, on which [ascii_host] is Python. *)

Definition grc_entry (pos word : string) (more : list (string * json)) : json :=
  JObj ([("lang_code", JStr "grc"); ("pos", JStr pos); ("word", JStr word)] ++ more).

(** A noun with two senses, the second without glosses, one form that is
    kept and one the admission filter rejects. *)
Definition logos_entry : json :=
  grc_entry "noun" "Logos"
    [("etymology_text", JStr "from lego");
     ("senses", JArr [JObj [("glosses", JArr [JStr "word"; JStr "speech"])];
                      JObj [("tags", JArr [JStr "rare"])]]);
     ("forms", JArr [JObj [("form", JStr "logou");
                           ("tags", JArr [JStr "genitive"; JStr "Singular"; JStr "Attic"])];
                     JObj [("form", JStr "-"); ("tags", JArr [JStr "table-tags"])]])].

(** The same lemma with another etymology. *)
Definition logos_again : json :=
  grc_entry "noun" "Logos" [("etymology_text", JStr "of unknown origin")].

(** One sense, and a single form that the admission filter rejects. *)
Definition kai_entry : json :=
  grc_entry "conj" "kai"
    [("senses", JArr [JObj [("glosses", JArr [JStr "and"])]]);
     ("forms", JArr [JObj [("form", JStr "kai"); ("tags", JArr [JStr "romanization"])]])].

Definition adjective_entry : json := grc_entry "adjective" "kalos" [].

(** An entry without senses and forms. *)
Definition kalos_entry : json := grc_entry "adj" "kalos" [].

Definition demo_lines : list line :=
  [Parsed logos_entry; Blank; Garbled;
   Parsed (JObj [("lang_code", JStr "en"); ("pos", JStr "noun"); ("word", JStr "word")]);
   Parsed (JObj [("lang_code", JStr "grc"); ("word", JStr "anax")]);
   Parsed adjective_entry;
   Parsed (JObj [("lang_code", JStr "grc"); ("pos", JStr "noun")]);
   Blank; Parsed kai_entry].

Definition demo_allowed : gset string := parse_pos_list (H := ascii_host) "noun, Adjective,conjunction".

(** The state a run ends in ([d] when it raised). *)
Definition final_state (d : driver) (r : result driver) : driver :=
  match r with
  | Ok st => st
  | Raise _ => d
  end.

Definition fresh_driver : driver :=
  {| sess := {| conn := empty_db; pos_cache := ∅; dialect_cache := ∅; lemma_cache := ∅ |};
     inserted := 0; skipped_reasons := no_skips; skipped_pos_counts := ∅ |}.

Definition demo_state : driver :=
  final_state fresh_driver (import_jsonl (H := ascii_host) empty_db demo_lines demo_allowed 1000).

(** The row counts of a store: POS, dialect, lemma, sense, form. *)
Definition row_counts (db : database) : list nat :=
  [length (pos_table db); length (dialect_table db); length (lemma_table db);
   length (sense_table db); length (form_table db)].

Definition stored_lemma : lemma_row :=
  {| l_id := 1; l_headword := "Logos"; l_headword_norm := "logos";
     l_sort_key := None; l_notes := None;
     l_etymology_text := Some (VText "from lego");
     l_etymology_templates := None; l_etymology_number := None;
     l_inflection_templates := None; l_related := None; l_synonyms := None;
     l_antonyms := None; l_categories := None; l_entry_extra := None |}.

Definition stored_db : database :=
  {| pos_table := []; dialect_table := []; lemma_table := [stored_lemma];
     lemma_pos_table := []; sense_table := []; form_table := [] |}.

Definition related_only : entry_metadata :=
  extract_entry_metadata (H := ascii_host)
    [("word", JStr "Logos"); ("related", JStr "lego")].

Definition related_filled : database :=
  {| pos_table := []; dialect_table := [];
     lemma_table :=
       [{| l_id := 1; l_headword := "Logos"; l_headword_norm := "logos";
           l_sort_key := None; l_notes := None;
           l_etymology_text := Some (VText "from lego");
           l_etymology_templates := None; l_etymology_number := None;
           l_inflection_templates := None; l_related := Some (VText "lego");
           l_synonyms := None; l_antonyms := None; l_categories := None;
           l_entry_extra := None |}];
     lemma_pos_table := []; sense_table := []; form_table := [] |}.

(** A store from before the metadata columns: [lemma] with its first five
    columns and one row. *)
Definition legacy_lemma : sql_table :=
  {| tbl_columns :=
       [{| col_name := "id"; col_type := "INTEGER"; col_notnull := false;
           col_default := None; col_pk := true |};
        {| col_name := "headword"; col_type := "TEXT"; col_notnull := true;
           col_default := None; col_pk := false |};
        {| col_name := "headword_norm"; col_type := "TEXT"; col_notnull := true;
           col_default := None; col_pk := false |};
        plain_column "sort_key" "TEXT"; plain_column "notes" "TEXT";
        plain_column "related" "TEXT"];
     tbl_rows :=
       [[Some (VInt 1); Some (VText "Logos"); Some (VText "logos"); None; None;
         Some (VText "lego")]] |}.

Definition legacy_catalog : gmap string sql_table := {[ "lemma" := legacy_lemma ]}.

Definition evolved_catalog : gmap string sql_table :=
  {[ "lemma" :=
       extend_table legacy_lemma
         [("etymology_text", "TEXT"); ("etymology_templates", "TEXT");
          ("etymology_number", "INTEGER"); ("inflection_templates", "TEXT");
          ("synonyms", "TEXT"); ("antonyms", "TEXT"); ("categories", "TEXT");
          ("entry_extra", "TEXT")] ]}.

(** A store to look forms up in: two lemmas, two POS codes, one dialect
    and four forms, three of them with the same text. *)
Definition lookup_form (id lemma_id pos_id : Z) (form : string)
    (dialect_id : option Z) (mood : option string) : form_row :=
  {| f_id := id; f_lemma_id := lemma_id; f_pos_id := pos_id;
     f_form := form; f_form_norm := form; f_dialect_id := dialect_id;
     f_tense := None; f_mood := mood; f_voice := None; f_person := None;
     f_number := None; f_grammatical_case := None; f_gender := None;
     f_degree := None; f_verb_form_type := None; f_is_principal_part := 0;
     f_pronoun_type := None; f_governs_case := None; f_tags := "[]";
     f_source := None |}.

Definition lookup_db : database :=
  {| pos_table := [{| pos_id := 1; pos_code := "verb" |};
                   {| pos_id := 2; pos_code := "noun" |}];
     dialect_table := [{| dialect_id := 1; dialect_code := "attic" |}];
     lemma_table := [new_lemma 1 "legos" "legos"; new_lemma 2 "lego" "lego"];
     lemma_pos_table := [];
     sense_table := [];
     form_table := [lookup_form 1 1 2 "lege" None None;
                    lookup_form 2 2 1 "lege" (Some 1%Z) (Some "imperative");
                    lookup_form 3 2 1 "legei" None (Some "indicative");
                    lookup_form 4 2 2 "lege" None None] |}.

(** An entry whose forms are not a list. *)
Definition broken_entry : json := grc_entry "noun" "anax" [("forms", JNum 5)].

(** * Properties *)

(** ** Vocabulary tables *)

Lemma vocabulary_keys_NoDup : NoDup vocabulary_keys.
Proof. apply (bool_decide_unpack _). vm_compute. exact I. Qed.

Lemma elem_of_concat {A} (x : A) (l : list A) (ls : list (list A)) :
  x ∈ l -> l ∈ ls -> x ∈ concat ls.
Proof.
  intros Hx Hl. apply list_elem_of_In, in_concat.
  exists l. split; apply list_elem_of_In; assumption.
Qed.

Lemma NoDup_concat_disjoint {A} (ls : list (list A)) i j V W x :
  NoDup (concat ls) -> ls !! i = Some V -> ls !! j = Some W ->
  x ∈ V -> x ∈ W -> i = j.
Proof.
  revert i j. induction ls as [| L ls IH]; intros i j Hnd Hi Hj HV HW.
  - rewrite lookup_nil in Hi. discriminate.
  - cbn in Hnd. apply NoDup_app in Hnd as (_ & Hdisj & Hnd).
    destruct i as [| i], j as [| j]; cbn in Hi, Hj.
    + reflexivity.
    + injection Hi as ->. exfalso. apply (Hdisj x HV).
      eapply elem_of_concat; [exact HW |]. eapply list_elem_of_lookup_2; eauto.
    + injection Hj as ->. exfalso. apply (Hdisj x HW).
      eapply elem_of_concat; [exact HV |]. eapply list_elem_of_lookup_2; eauto.
    + f_equal. eapply IH; eauto.
Qed.

(** C7. No tag token is a key of more than one of the ten vocabularies
    [DIALECT_TAGS] .. [VERB_FORM_TAGS]: the key sets are pairwise disjoint. *)
Theorem vocabularies_pairwise_disjoint :
  (forall token, vocabularies_with token <= 1)
  /\ (forall i j V W token,
        vocabularies !! i = Some V -> vocabularies !! j = Some W ->
        token ∈ map fst V -> token ∈ map fst W -> i = j).
Proof.
  assert (Hdisj : forall i j V W token,
        vocabularies !! i = Some V -> vocabularies !! j = Some W ->
        token ∈ map fst V -> token ∈ map fst W -> i = j).
  { intros i j V W token Hi Hj HV HW.
    apply (NoDup_concat_disjoint (map (map fst) vocabularies) i j
             (map fst V) (map fst W) token); try assumption.
    - exact vocabulary_keys_NoDup.
    - change (map (map fst) vocabularies) with (map fst <$> vocabularies).
      rewrite list_lookup_fmap, Hi. reflexivity.
    - change (map (map fst) vocabularies) with (map fst <$> vocabularies).
      rewrite list_lookup_fmap, Hj. reflexivity. }
  split; [| exact Hdisj].
  intros token. unfold vocabularies_with.
  destruct (filter _ vocabularies) as [| V [| W rest]] eqn:Hf; cbn; try lia.
  exfalso.
  assert (HV : V ∈ filter (fun V : list (string * string) => token ∈ map fst V) vocabularies)
    by (rewrite Hf; left).
  assert (HW : W ∈ filter (fun V : list (string * string) => token ∈ map fst V) vocabularies)
    by (rewrite Hf; right; left).
  assert (Hnd : NoDup (filter (fun V : list (string * string) => token ∈ map fst V) vocabularies)).
  { apply NoDup_filter. apply (bool_decide_unpack _). vm_compute. exact I. }
  rewrite Hf in Hnd. apply NoDup_cons in Hnd as [Hne _].
  apply list_elem_of_filter in HV as [HtV HV], HW as [HtW HW].
  apply list_elem_of_lookup in HV as [i Hi], HW as [j Hj].
  assert (i = j) by (eapply Hdisj; eauto). subst j.
  rewrite Hi in Hj. injection Hj as ->. apply Hne. left.
Qed.

(** ** Tag classifier *)

Section Classifier.
Context `{Host}.

Lemma tags_lc_same_tokens (tags1 tags2 : list string) :
  (forall t, t ∈ tags1 <-> t ∈ tags2) -> tags_lc tags1 = tags_lc tags2.
Proof.
  intros Hsame. unfold tags_lc. apply set_eq. intros k.
  rewrite !elem_of_list_to_set, !list_elem_of_fmap.
  split; intros (t & -> & Ht); exists t; (split; [reflexivity | apply Hsame; exact Ht]).
Qed.

(** C4. Two tag lists with the same tokens, in any order and with any
    repetition, are classified alike in all ten slots; the two heuristics
    are functions of the entry alone, so a repeated run on the same entry
    gives the same output. *)
Theorem parse_tags_order_independent (tags1 tags2 : list string) :
  (forall t, t ∈ tags1 <-> t ∈ tags2) ->
  parse_tags tags1 = parse_tags tags2
  /\ (forall entry r1 r2,
        extract_pronoun_type entry = r1 -> extract_pronoun_type entry = r2 -> r1 = r2)
  /\ (forall entry r1 r2,
        extract_governs_case entry = r1 -> extract_governs_case entry = r2 -> r1 = r2).
Proof.
  intros Hsame. split; [| split].
  - unfold parse_tags. rewrite (tags_lc_same_tokens tags1 tags2 Hsame). reflexivity.
  - intros entry r1 r2 <- <-. reflexivity.
  - intros entry r1 r2 <- <-. reflexivity.
Qed.

(** ** Form admission filter *)

Lemma mapM_as_str_strings (tags : list string) :
  mapM as_str (map JStr tags) = Ok tags.
Proof.
  induction tags as [| t tags IH]; [reflexivity |].
  cbn. cbn in IH. rewrite IH. reflexivity.
Qed.

Lemma str_items_strings (tags : list string) : str_items (JArr (map JStr tags)) = Ok tags.
Proof. unfold str_items. cbn. apply mapM_as_str_strings. Qed.

Lemma truthy_str (s : string) : truthy (JStr s) = true <-> s <> "".
Proof.
  cbn. destruct (String.eqb_spec s ""); cbn; split; intros; congruence.
Qed.

Lemma blocked_tag_iff (tags : list string) :
  bool_decide ("romanization" ∈ tags)
  || (bool_decide ("inflection-template" ∈ tags)
      || bool_decide ("table-tags" ∈ tags)
      || bool_decide ("class" ∈ tags)) = true
  <-> exists b, b ∈ blocked_tags /\ b ∈ tags.
Proof.
  rewrite !orb_true_iff, !bool_decide_eq_true. unfold blocked_tags. split.
  - intros [? | [[? | ?] | ?]]; eexists; (split; [| eassumption]); set_solver.
  - intros (b & Hb & Hin).
    repeat (apply elem_of_cons in Hb as [-> | Hb]); [tauto .. |].
    by apply elem_of_nil in Hb.
Qed.

(** The decision of the admission filter on a form entry of the documented
    shape. *)
Lemma should_keep_form_decides (fields : list (string * json))
    (text : option string) (tags : list string) :
  dict_get "form" fields = from_option JStr JNull text ->
  dict_get_or "tags" (JArr []) fields = JArr (map JStr tags) ->
  exists keep, should_keep_form (JObj fields) = Ok keep
     /\ (keep = false <->
         text = None \/ text = Some "" \/ text = Some "-" \/ tags = []
         \/ exists b, b ∈ blocked_tags /\ b ∈ map str_lower tags).
Proof.
  intros Hform Htags.
  unfold should_keep_form. cbn [as_dict mbind result_bind].
  rewrite Hform, Htags.
  destruct text as [s |]; cbn [from_option]; [| exists false; cbn; tauto].
  destruct (truthy (JStr s)) eqn:Hs; cbn [negb].
  2:{ exists false. split; [reflexivity |]. split; [| reflexivity].
      intros _. right; left. f_equal.
      destruct (String.eqb_spec s ""); [assumption |].
      apply truthy_str in n. congruence. }
  apply truthy_str in Hs.
  cbn [is_str]. destruct (String.eqb_spec s "-") as [-> | Hdash].
  { exists false. tauto. }
  rewrite str_items_strings. cbn [mbind result_bind].
  destruct tags as [| t tags]; cbn [map]; [exists false; tauto |].
  set (lc := str_lower t :: map str_lower tags).
  destruct (bool_decide ("romanization" ∈ lc)
            || (bool_decide ("inflection-template" ∈ lc)
                || bool_decide ("table-tags" ∈ lc)
                || bool_decide ("class" ∈ lc))) eqn:Hb.
  - assert (Hex := proj1 (blocked_tag_iff lc) Hb).
    exists false. split; [| tauto].
    destruct (bool_decide ("romanization" ∈ lc)); [reflexivity |].
    cbn in Hb. rewrite Hb. reflexivity.
  - assert (Hno : ~ exists b, b ∈ blocked_tags /\ b ∈ lc).
    { intros Hex. apply blocked_tag_iff in Hex. congruence. }
    apply orb_false_iff in Hb as [-> ->]. exists true. split; [reflexivity |].
    split; [discriminate |].
    intros [? | [? | [? | [? | ?]]]]; congruence || contradiction.
Qed.

End Classifier.

(** ** Lemma metadata *)

Lemma Ok_inj {A} (a b : A) : Ok a = Ok b -> a = b.
Proof. intros [= ->]. reflexivity. Qed.

Ltac inv_bind H :=
  match type of H with
  | mbind _ ?m = Ok _ =>
      let E := fresh "E" in
      destruct m eqn:E; cbn [mbind result_bind] in H; [| discriminate H]
  | Ok _ = Ok _ => apply Ok_inj in H
  | Raise _ = Ok _ => discriminate H
  end.

Lemma bind_metadata_fields md p f :
  bind_metadata md = Ok p -> bind_param (incoming f md) = Ok (bound f p).
Proof.
  unfold bind_metadata. intros Hb. repeat inv_bind Hb. subst p.
  destruct f; cbn; assumption.
Qed.

Lemma bind_param_none v : is_none v = true -> bind_param v = Ok None.
Proof. destruct v; cbn; congruence. Qed.

Lemma bind_param_null v c : bind_param v = Ok c -> (c = None <-> v = JNull).
Proof.
  destruct v as [| b | n | s | l | d]; cbn; try destruct (int64 n); intros Hc;
    try discriminate; injection Hc as <-; split; congruence.
Qed.

Lemma coalesce_row_stored p r f :
  stored f (coalesce_row p r) = coalesce (bound f p) (stored f r).
Proof. destruct f; reflexivity. Qed.

Lemma metadata_all_none md f :
  existsb (fun value => negb (is_none value)) (metadata_values md) = false ->
  incoming f md = JNull.
Proof.
  intros Hall.
  assert (Hin : incoming f md ∈ metadata_values md).
  { apply list_elem_of_In. destruct f; cbn; tauto. }
  destruct (incoming f md) eqn:Hv; [reflexivity | exfalso ..];
    (assert (Hex : existsb (fun value => negb (is_none value)) (metadata_values md) = true);
     [apply existsb_exists; eexists; split;
      [apply list_elem_of_In; exact Hin | reflexivity] | congruence]).
Qed.

(** C1, as the code has it.  The UPDATE keeps the length and order of
    [lemma], every row's id, headword, sort key and notes, and every row of
    another lemma; in the addressed row each metadata column takes the
    incoming value when that is not null, whatever was stored, and keeps the
    stored value when the incoming one is null. *)
Theorem update_lemma_metadata_coalesces lemma_id md db db' :
  update_lemma_metadata lemma_id md db = Ok db' ->
  length (lemma_table db') = length (lemma_table db)
  /\ forall i r, lemma_table db !! i = Some r ->
       exists r', lemma_table db' !! i = Some r'
         /\ l_id r' = l_id r /\ lemma_key r' = lemma_key r
         /\ l_sort_key r' = l_sort_key r /\ l_notes r' = l_notes r
         /\ (l_id r <> lemma_id -> r' = r)
         /\ forall f,
              (incoming f md = JNull -> stored f r' = stored f r)
              /\ (l_id r = lemma_id -> incoming f md <> JNull ->
                  bind_param (incoming f md) = Ok (stored f r')).
Proof.
  unfold update_lemma_metadata. intros Hup.
  destruct (existsb _ (metadata_values md)) eqn:Hany; cbn [negb] in Hup.
  - inv_bind Hup. inv_bind Hup. subst db'. cbn [lemma_table]. split.
    + apply length_map.
    + intros i r Hi.
      change (map ?g ?l) with (g <$> l). rewrite list_lookup_fmap, Hi. cbn.
      eexists. split; [reflexivity |].
      destruct (Z.eqb_spec (l_id r) lemma_id) as [Heq | Hne].
      * repeat split; try reflexivity; try contradiction.
        -- intros Hnull. rewrite coalesce_row_stored.
           pose proof (bind_metadata_fields md a f E) as Hb.
           rewrite Hnull in Hb. cbn in Hb. injection Hb as <-. reflexivity.
        -- intros _ Hnn. rewrite coalesce_row_stored.
           pose proof (bind_metadata_fields md a f E) as Hb. rewrite Hb. f_equal.
           destruct (bound f a) eqn:Hbf; [reflexivity |].
           exfalso. apply Hnn. eapply bind_param_null; [exact Hb | reflexivity].
      * repeat split; try reflexivity; congruence.
  - injection Hup as <-. split; [reflexivity |].
    intros i r Hi. exists r. repeat split; try assumption.
    intros _ Hnn. exfalso. apply Hnn. apply metadata_all_none. exact Hany.
Qed.

(** ** Governed-case heuristic *)

Lemma elem_of_first_seen (seen l : list string) x :
  x ∈ first_seen seen l <-> x ∈ l /\ x ∉ seen.
Proof.
  revert seen. induction l as [| y l IH]; intros seen; cbn.
  - split; [intros Hx; by apply elem_of_nil in Hx | intros [Hx _]; by apply elem_of_nil in Hx].
  - case_bool_decide as Hy.
    + rewrite IH, elem_of_cons. split; [tauto |].
      intros [[-> | Hx] Hn]; [contradiction | tauto].
    + rewrite !elem_of_cons, IH, elem_of_app, list_elem_of_singleton.
      destruct (decide (x = y)) as [-> | Hne]; tauto.
Qed.

Lemma first_seen_NoDup (seen l : list string) : NoDup (first_seen seen l).
Proof.
  revert seen. induction l as [| y l IH]; intros seen; cbn; [constructor |].
  case_bool_decide as Hy; [apply IH |].
  apply NoDup_cons. split; [| apply IH].
  rewrite elem_of_first_seen, elem_of_app, list_elem_of_singleton. tauto.
Qed.

Example first_seen_sample :
  first_seen [] ["genitive"; "dative"; "genitive"; "accusative"; "dative"]
  = ["genitive"; "dative"; "accusative"].
Proof. reflexivity. Qed.

(** [str.replace] and [str.split] as the heuristic uses them. *)
Lemma prefix_app (a s : string) :
  String.prefix a s = true -> exists rest, s = (a ++ rest)%string.
Proof.
  revert s. induction a as [| c a IH]; intros s Hp.
  - exists s. reflexivity.
  - destruct s as [| c' s]; [discriminate |]. cbn in Hp.
    destruct (ascii_dec c c') as [<- |]; [| discriminate].
    destruct (IH s Hp) as [rest ->]. exists rest. reflexivity.
Qed.

Lemma replace_marker (s : string) : str_replace "with-" "" s = without_marker s.
Proof.
  unfold str_replace.
  assert (Hgen : forall n s, String.length s <= n ->
                   replace_from "with-" "" 0 s = without_marker s).
  { clear s. induction n as [| n IH]; intros s Hlen.
    - destruct s; [reflexivity | cbn in Hlen; lia].
    - destruct s as [| c r]; [reflexivity |].
      cbn [replace_from without_marker].
      destruct (String.prefix "with-" (String c r)) eqn:Hp.
      + apply prefix_app in Hp as [rest Hs]. injection Hs as -> ->.
        change ("ith-" ++ rest)%string
          with (String "i" (String "t" (String "h" (String "-" rest)))) in *.
        cbn in Hlen. cbn. apply IH. lia.
      + f_equal. apply IH. cbn in Hlen. lia. }
  apply (Hgen (String.length s)). lia.
Qed.

Lemma replace_char_step (a b c : ascii) (r : string) :
  replace_from (String a "") (String b "") 0 (String c r)
  = String (if ascii_dec a c then b else c)
           (replace_from (String a "") (String b "") 0 r).
Proof.
  cbn [replace_from String.prefix String.length Nat.sub].
  destruct (ascii_dec a c); [| reflexivity].
  destruct r; reflexivity.
Qed.

Lemma split_separators (s : string) :
  split_on "/" (str_replace "," "/" (str_replace ";" "/" s))
  = split_any ["/"%char; ","%char; ";"%char] s.
Proof.
  unfold str_replace. induction s as [| c s IH]; [reflexivity |].
  rewrite !replace_char_step. cbn [split_on split_any existsb].
  rewrite IH.
  destruct (ascii_dec ";" c) as [<- | Hsemi]; [reflexivity |].
  destruct (ascii_dec "," c) as [<- | Hcomma]; [reflexivity |].
  destruct (Ascii.eqb_spec c "/") as [-> | Hslash]; [reflexivity |].
  destruct (Ascii.eqb_spec c ",") as [-> | _]; [contradiction |].
  destruct (Ascii.eqb_spec c ";") as [-> | _]; [contradiction |].
  reflexivity.
Qed.

Section GovernedCase.
Context `{Host}.

Lemma case_hints_lookup token : assoc token CASE_HINTS = spec_case_name token.
Proof.
  unfold spec_case_name. cbn.
  repeat (destruct (String.eqb token _); [reflexivity |]). reflexivity.
Qed.

Lemma foldl_add_case (raws cases : list string) :
  foldl (fun acc raw => add_case raw acc) cases raws
  = cases ++ first_seen cases
               (omap (fun raw => spec_case_name (str_lower (str_strip raw))) raws).
Proof.
  revert cases. induction raws as [| raw raws IH]; intros cases; cbn.
  - rewrite app_nil_r. reflexivity.
  - rewrite IH. unfold add_case. rewrite case_hints_lookup.
    destruct (spec_case_name (str_lower (str_strip raw))) as [c |]; cbn; [| reflexivity].
    destruct (bool_decide (c ∈ cases)); [reflexivity |].
    rewrite <- app_assoc. reflexivity.
Qed.

Lemma foldl_add_tag_case (tags : list json) (cases : list string) :
  foldl (fun acc tag => add_tag_case tag acc) cases tags
  = foldl (fun acc raw => add_case raw acc) cases (tag_hints tags).
Proof.
  revert cases. induction tags as [| tag tags IH]; intros cases; cbn; [reflexivity |].
  rewrite IH. unfold add_tag_case. rewrite replace_marker.
  destruct (String.prefix "with-" (str_lower (py_str tag))); reflexivity.
Qed.

Lemma add_head_cases_hints (head : json) (cases : list string) :
  add_head_cases head cases
  = (hints ← head_hints head; Ok (foldl (fun acc raw => add_case raw acc) cases hints)).
Proof.
  unfold add_head_cases, head_hints.
  destruct (as_dict head) as [hd |]; cbn; [| reflexivity].
  destruct (as_dict (py_or (dict_get "args" hd) (JObj []))) as [args |]; cbn; [| reflexivity].
  destruct (dict_get "2" args); try reflexivity.
  rewrite split_separators. reflexivity.
Qed.

(** A loop that folds what each item yields is the fold over all that the
    items yield, collected first. *)
Lemma foldM_collect {A} (g : A -> result (list string)) (l : list A) (cases : list string) :
  foldM (fun x acc => hints ← g x; Ok (foldl (fun acc raw => add_case raw acc) acc hints))
        l cases
  = (collected ← mapM g l;
     Ok (foldl (fun acc raw => add_case raw acc) cases (concat collected))).
Proof.
  revert cases. induction l as [| x l IH]; intros cases; cbn; [reflexivity |].
  destruct (g x) as [hints |]; cbn; [| reflexivity].
  rewrite IH. destruct (mapM g l) as [collected |]; cbn; [| reflexivity].
  rewrite foldl_app. reflexivity.
Qed.

Lemma foldM_ext {A S} (f g : A -> S -> result S) (l : list A) (s : S) :
  (forall x s, f x s = g x s) -> foldM f l s = foldM g l s.
Proof.
  intros Hfg. revert s. induction l as [| x l IH]; intros s; cbn; [reflexivity |].
  rewrite Hfg. destruct (g x s); cbn; [apply IH | reflexivity].
Qed.

(** C8. [extract_governs_case] collects the hints of the sense tags that
    begin with [with-], with that marker taken out, and of the second
    head-template argument split on slash, comma and semicolon, maps each
    through the fixed table dropping what it does not know, keeps each case
    once in first-seen order, and returns the slash-joined list, or nothing
    when the list is empty. *)
Theorem extract_governs_case_spec (entry : list (string * json)) :
  extract_governs_case entry = (hints ← case_hints entry; Ok (spec_governs_case hints)).
Proof.
  unfold extract_governs_case, case_hints.
  destruct (py_iter (py_or (dict_get "senses" entry) (JArr []))) as [senses |];
    cbn [mbind result_bind]; [| reflexivity].
  rewrite (foldM_ext _
             (fun sense acc =>
                hints ← (tags ← sense_tags sense; Ok (tag_hints tags));
                Ok (foldl (fun acc raw => add_case raw acc) acc hints))).
  2:{ intros sense acc. destruct (sense_tags sense) as [tags |]; cbn; [| reflexivity].
      rewrite foldl_add_tag_case. reflexivity. }
  rewrite foldM_collect.
  destruct (mapM _ senses) as [from_tags |]; cbn [mbind result_bind]; [| reflexivity].
  destruct (py_iter (py_or (dict_get "head_templates" entry) (JArr []))) as [heads |];
    cbn [mbind result_bind]; [| reflexivity].
  rewrite (foldM_ext _ _ heads _ add_head_cases_hints), foldM_collect.
  destruct (mapM head_hints heads) as [from_heads |]; cbn [mbind result_bind];
    [| reflexivity].
  rewrite <- foldl_app, foldl_add_case. cbn [app]. unfold spec_governs_case.
  destruct (first_seen [] _); reflexivity.
Qed.

End GovernedCase.

(** ** Schema evolution *)

Lemma extend_table_nil t : extend_table t [] = t.
Proof.
  destruct t as [cols rows]. unfold extend_table. cbn. rewrite app_nil_r. f_equal.
  induction rows as [| r rows IH]; cbn; [reflexivity |].
  rewrite app_nil_r, IH. reflexivity.
Qed.

Lemma extend_table_cons t c cols :
  extend_table {| tbl_columns := tbl_columns t ++ [plain_column c.1 c.2];
                  tbl_rows := map (fun r => r ++ [None]) (tbl_rows t) |} cols
  = extend_table t (c :: cols).
Proof.
  unfold extend_table. cbn. rewrite <- app_assoc. f_equal.
  rewrite map_map. apply map_ext. intros r. rewrite <- app_assoc. reflexivity.
Qed.

Lemma ensure_loop_adds existing table columns cat cat' :
  foldM (ensure_step existing table) columns cat = Ok cat' ->
  match cat !! ascii_lower table with
  | Some t =>
      cat' = <[ascii_lower table :=
                 extend_table t (filter (fun c => c.1 ∉ existing) columns)]> cat
  | None => filter (fun c : string * string => c.1 ∉ existing) columns = [] /\ cat' = cat
  end.
Proof.
  revert cat. induction columns as [| c columns IH]; intros cat Hrun; cbn [foldM] in Hrun.
  - injection Hrun as <-. destruct (cat !! ascii_lower table) as [t |] eqn:Ht.
    + rewrite filter_nil, extend_table_nil, insert_id; auto.
    + auto.
  - destruct (ensure_step existing table c cat) as [cat1 |] eqn:Hstep;
      cbn [mbind result_bind] in Hrun; [| discriminate].
    apply IH in Hrun. unfold ensure_step in Hstep. rewrite filter_cons.
    case_bool_decide as Hc.
    + injection Hstep as <-.
      destruct (decide (c.1 ∉ existing)); [contradiction | exact Hrun].
    + destruct (decide (c.1 ∉ existing)); [| contradiction].
      unfold add_column in Hstep.
      destruct (cat !! ascii_lower table) as [t |] eqn:Ht; [| discriminate].
      destruct (existsb _ (tbl_columns t)); [discriminate |].
      injection Hstep as <-.
      rewrite lookup_insert_eq in Hrun. subst cat'.
      rewrite insert_insert_eq, extend_table_cons. reflexivity.
Qed.

Section EvolutionProofs.
Context `{Engine}.

(** On plain names a loop of [ensure_columns] that succeeds is the loop
    over [add_column]. *)
Lemma ensure_loop_plain existing table columns cat cat' :
  plain_name table = true ->
  Forall (fun c : string * string => plain_name c.1 = true /\ plain_type c.2 = true)
         columns ->
  foldM (fun (c : string * string) cat =>
           if bool_decide (c.1 ∈ existing) then Ok cat
           else alter_table_add_column table c.1 c.2 cat)
        columns cat = Ok cat' ->
  foldM (ensure_step existing table) columns cat = Ok cat'.
Proof.
  intros Htable Hplain. revert cat.
  induction Hplain as [| c columns [Hname Htype] _ IH]; intros cat Hrun;
    cbn [foldM] in *; [exact Hrun |].
  inv_bind Hrun. rename a into cat1.
  assert (Hstep : ensure_step existing table c cat = Ok cat1).
  { unfold ensure_step. case_bool_decide; [exact E |].
    by apply alter_table_add_column_plain. }
  rewrite Hstep. cbn [mbind result_bind]. by apply IH.
Qed.

(** C6. For a table and declared columns with plain names and plain type
    names: when [ensure_columns] succeeds, the table has its former
    columns, unchanged and in place, followed by exactly the declared columns
    whose name was not there, each with the declared type, nullable and with
    a NULL default; every row keeps its cells and gets NULL in each new
    column; other tables are untouched; and a second run on the result
    succeeds and changes nothing. *)
Theorem ensure_columns_additive_idempotent table columns cat cat' :
  plain_name table = true ->
  Forall (fun c : string * string => plain_name c.1 = true /\ plain_type c.2 = true)
         columns ->
  ensure_columns table columns cat = Ok cat' ->
  let missing :=
    filter (fun c : string * string => c.1 ∉ map col_name (table_info cat table)) columns in
  table_info cat' table
    = table_info cat table
      ++ map (fun c : string * string =>
                {| col_name := c.1; col_type := c.2; col_notnull := false;
                   col_default := None; col_pk := false |}) missing
  /\ (forall t, cat !! ascii_lower table = Some t ->
        exists t', cat' !! ascii_lower table = Some t'
          /\ tbl_rows t' = map (fun r => r ++ replicate (length missing) None) (tbl_rows t))
  /\ (forall k, k <> ascii_lower table -> cat' !! k = cat !! k)
  /\ ensure_columns table columns cat' = Ok cat'.
Proof.
  intros Htable Hplain Hrun missing.
  unfold ensure_columns in Hrun.
  rewrite (pragma_table_info_plain table cat Htable) in Hrun.
  cbn [mbind result_bind] in Hrun. cbv zeta in Hrun.
  set (existing := list_to_set (map col_name (table_info cat table)) : gset string) in *.
  apply (ensure_loop_plain existing table columns cat cat' Htable Hplain) in Hrun.
  assert (Hmissing : filter (fun c : string * string => c.1 ∉ existing) columns = missing).
  { apply list_filter_iff. intros c. unfold existing.
    rewrite elem_of_list_to_set. reflexivity. }
  apply ensure_loop_adds in Hrun. rewrite Hmissing in Hrun.
  assert (Hinfo : table_info cat' table
                  = table_info cat table ++ map (fun c => plain_column c.1 c.2) missing).
  { unfold table_info. destruct (cat !! ascii_lower table) as [t |] eqn:Ht.
    - subst cat'. rewrite lookup_insert_eq. reflexivity.
    - destruct Hrun as [-> ->]. rewrite Ht. reflexivity. }
  split; [exact Hinfo |]. split; [| split].
  - intros t Ht. rewrite Ht in Hrun. subst cat'. rewrite lookup_insert_eq.
    eexists. split; reflexivity.
  - intros k Hk. destruct (cat !! ascii_lower table) as [t |] eqn:Ht.
    + subst cat'. apply lookup_insert_ne. congruence.
    + destruct Hrun as [_ ->]. reflexivity.
  - unfold ensure_columns.
    rewrite (pragma_table_info_plain table cat' Htable).
    cbn [mbind result_bind]. cbv zeta.
    assert (Hall : forall c, c ∈ columns ->
                     c.1 ∈ (list_to_set (map col_name (table_info cat' table)) : gset string)).
    { intros c Hc.
      rewrite elem_of_list_to_set, Hinfo, map_app, elem_of_app.
      destruct (decide (c.1 ∈ map col_name (table_info cat table))) as [Hin | Hout];
        [left; exact Hin | right].
      rewrite map_map. cbn.
      change (map ?g ?l) with (g <$> l). apply list_elem_of_fmap. exists c.
      split; [reflexivity |]. apply list_elem_of_filter. split; assumption. }
    clear -Hall. revert Hall.
    generalize (list_to_set (map col_name (table_info cat' table)) : gset string).
    intros existing Hall.
    induction columns as [| c columns IH]; cbn [foldM]; [reflexivity |].
    rewrite bool_decide_eq_true_2 by (apply Hall; left).
    cbn [mbind result_bind]. apply IH. intros c' Hc'. apply Hall. by right.
Qed.

End EvolutionProofs.

(** ** The import driver *)

Ltac step_bind :=
  match goal with
  | |- context [mbind _ ?m] =>
      let E := fresh "E" in destruct m eqn:E; cbn [mbind result_bind]
  end.

Section Reimport.
Context `{Host}.







Lemma import_sense_inserts lemma_id pos_id idx sense db db' :
  import_sense lemma_id pos_id idx sense db = Ok db' ->
  exists row, db' = insert_sense row db.
Proof.
  unfold import_sense. intros Hrun. inv_bind Hrun. inv_bind Hrun. eauto.
Qed.

(** The loop over the senses appends one row per sense and touches no other
    table. *)
Lemma import_senses_appends lemma_id pos_id idx senses db db' :
  import_senses lemma_id pos_id idx senses db = Ok db' ->
  pos_table db' = pos_table db /\ dialect_table db' = dialect_table db
  /\ lemma_table db' = lemma_table db /\ lemma_pos_table db' = lemma_pos_table db
  /\ form_table db' = form_table db
  /\ length (sense_table db') = length (sense_table db) + length senses.
Proof.
  revert idx db. induction senses as [| sense senses IH]; intros idx db Hrun;
    cbn [import_senses] in Hrun.
  - injection Hrun as <-. cbn. repeat split; lia.
  - inv_bind Hrun. apply import_sense_inserts in E as [row ->].
    apply IH in Hrun as (-> & -> & -> & -> & -> & ->). cbn.
    rewrite length_app. cbn. repeat split; lia.
Qed.



(** *** Skip accounting *)

(** A blank line changes no tally; any other line that is processed adds one
    to exactly one of the six. *)
Lemma import_line_tallies allowed_pos commit_every ln st st' :
  import_line allowed_pos commit_every ln st = Ok st' ->
  if is_blank ln then tallies st' = tallies st
  else exists i, i < 6 /\ tallies st' = alter S i (tallies st).
Proof.
  unfold import_line. intros Hrun.
  destruct ln as [| | v]; cbn [is_blank].
  - injection Hrun as <-. reflexivity.
  - injection Hrun as <-. exists 0. split; [lia |]. unfold tallies. cbn.
    rewrite Nat.add_1_r. reflexivity.
  - inv_bind Hrun.
    destruct (negb (is_str "grc" _)).
    { injection Hrun as <-. exists 1. split; [lia |]. unfold tallies. cbn.
      rewrite Nat.add_1_r. reflexivity. }
    inv_bind Hrun.
    destruct (String.eqb _ "").
    { injection Hrun as <-. exists 2. split; [lia |]. unfold tallies. cbn.
      rewrite Nat.add_1_r. reflexivity. }
    destruct (negb (bool_decide _)).
    { injection Hrun as <-. exists 3. split; [lia |]. unfold tallies. cbn.
      rewrite Nat.add_1_r. reflexivity. }
    destruct (negb (truthy _)).
    { injection Hrun as <-. exists 4. split; [lia |]. unfold tallies. cbn.
      rewrite Nat.add_1_r. reflexivity. }
    inv_bind Hrun. destruct (commit_every =? 0)%Z; [discriminate |].
    injection Hrun as <-. exists 5. split; [lia |]. unfold tallies. cbn.
    rewrite Nat.add_1_r. reflexivity.
Qed.

Lemma tallies_sum st :
  sum_list (tallies st) = total_skips (skipped_reasons st) + inserted st.
Proof. unfold tallies, total_skips. cbn. lia. Qed.

Lemma sum_list_alter_S (l : list nat) i :
  i < length l -> sum_list (alter S i l) = sum_list l + 1.
Proof.
  revert i. induction l as [| x l IH]; intros i Hi; cbn in Hi; [lia |].
  destruct i as [| i]; cbn; [lia |]. rewrite IH by lia. lia.
Qed.

Lemma import_lines_tallies allowed_pos commit_every lines st st' :
  foldM (import_line allowed_pos commit_every) lines st = Ok st' ->
  sum_list (tallies st') = sum_list (tallies st) + non_blank lines.
Proof.
  revert st. induction lines as [| ln lines IH]; intros st Hrun; cbn [foldM] in Hrun.
  - injection Hrun as <-. unfold non_blank. cbn. lia.
  - inv_bind Hrun. apply IH in Hrun. rewrite Hrun.
    apply import_line_tallies in E. unfold non_blank. cbn [List.filter].
    destruct (is_blank ln); cbn [negb].
    + rewrite E. reflexivity.
    + destruct E as (i & Hi & ->). rewrite sum_list_alter_S by (cbn; lia).
      cbn [length]. fold (non_blank lines). lia.
Qed.

(** C3. When the run completes, the five skip counters and the count of
    accepted entries add up to the number of non-blank lines, and each
    non-blank line has added one to exactly one of them.  A line that no
    step of the loop completes on is in no tally: so a line whose JSON value
    is not an object, on which the loop raises [AttributeError]. *)
Theorem skip_accounting_complete db lines allowed_pos commit_every st :
  import_jsonl db lines allowed_pos commit_every = Ok st ->
  total_skips (skipped_reasons st) + inserted st = non_blank lines
  /\ (forall ln st0 st1,
        import_line allowed_pos commit_every ln st0 = Ok st1 ->
        if is_blank ln then tallies st1 = tallies st0
        else exists i, i < 6 /\ tallies st1 = alter S i (tallies st0))
  /\ (forall v st0,
        match v with
        | JObj _ => True
        | _ => import_line allowed_pos commit_every (Parsed v) st0 = Raise AttributeError
        end).
Proof.
  unfold import_jsonl. intros Hrun. split; [| split].
  - apply import_lines_tallies in Hrun. rewrite tallies_sum in Hrun.
    rewrite Hrun. reflexivity.
  - intros ln st0 st1. apply import_line_tallies.
  - intros v st0. by destruct v.
Qed.

(** *** The part-of-speech filter *)

Lemma elem_of_pos_fold (items : list string) (acc : gset string) code :
  code ∈ foldl (fun (result : gset string) item =>
                  let raw := str_lower (str_strip item) in
                  if String.eqb raw "" then result
                  else {[ default raw (assoc raw POS_ALIASES) ]} ∪ result)
               acc items
  <-> code ∈ acc
      \/ exists item, item ∈ items /\ str_lower (str_strip item) <> ""
           /\ code = pos_alias (str_lower (str_strip item)).
Proof.
  revert acc. induction items as [| item items IH]; intros acc; cbn [foldl].
  - split; [tauto |]. intros [? | (item & Hin & _)]; [assumption |].
    by apply elem_of_nil in Hin.
  - rewrite IH. cbn zeta.
    destruct (String.eqb_spec (str_lower (str_strip item)) "") as [Hraw | Hraw].
    + split.
      * intros [? | (it & Hin & ?)]; [tauto |]. right. exists it. split; [right |]; tauto.
      * intros [? | (it & Hin & Hne & ?)]; [tauto |].
        apply elem_of_cons in Hin as [-> | Hin]; [contradiction |].
        right. exists it. tauto.
    + rewrite elem_of_union, elem_of_singleton. split.
      * intros [[-> | ?] | (it & Hin & ?)]; [| tauto |].
        -- right. exists item. split; [left |]. split; [assumption | reflexivity].
        -- right. exists it. split; [right |]; tauto.
      * intros [? | (it & Hin & Hne & ->)]; [tauto |].
        apply elem_of_cons in Hin as [-> | Hin]; [left; left; reflexivity |].
        right. exists it. tauto.
Qed.

Lemma pos_raw_of_string entry p :
  dict_get "pos" entry = JStr p ->
  as_str (py_or (dict_get "pos" entry) (JStr "")) = Ok p.
Proof.
  intros ->. unfold py_or. destruct (truthy (JStr p)) eqn:Hp; [reflexivity |].
  cbn in Hp. destruct (String.eqb_spec p ""); [subst; reflexivity | discriminate].
Qed.

(** C9, as the code has it.  The allow-list holds the alias of each
    non-empty item of the configured list, stripped and lowercased.  An entry
    of the target language whose [pos] is a non-blank string is matched by
    the membership of that string, stripped and otherwise unchanged: outside
    the list the line is tallied as [pos_not_allowed] under that code, inside
    it this counter is left alone.  So under the list [adjective] the code
    [adj] is let through and the code [adjective] is not. *)
Theorem pos_filter_matches_verbatim :
  (forall config code,
     code ∈ parse_pos_list config <->
     exists item, item ∈ split_on "," config /\ str_lower (str_strip item) <> ""
       /\ code = pos_alias (str_lower (str_strip item)))
  /\ (forall allowed_pos commit_every entry p st,
        is_str "grc" (dict_get "lang_code" entry) = true ->
        dict_get "pos" entry = JStr p -> str_strip p <> "" ->
        if bool_decide (str_strip p ∈ allowed_pos)
        then forall st', import_line allowed_pos commit_every (Parsed (JObj entry)) st = Ok st' ->
               pos_not_allowed (skipped_reasons st') = pos_not_allowed (skipped_reasons st)
               /\ skipped_pos_counts st' = skipped_pos_counts st
        else import_line allowed_pos commit_every (Parsed (JObj entry)) st
             = Ok {| sess := sess st; inserted := inserted st;
                     skipped_reasons := bump_pos_not_allowed (skipped_reasons st);
                     skipped_pos_counts :=
                       <[str_strip p := default 0 (skipped_pos_counts st !! str_strip p) + 1]>
                         (skipped_pos_counts st) |})
  /\ "adj" ∈ parse_pos_list "adjective"
  /\ "adjective" ∉ parse_pos_list "adjective".
Proof.
  assert (Hparse : forall config code,
     code ∈ parse_pos_list config <->
     exists item, item ∈ split_on "," config /\ str_lower (str_strip item) <> ""
       /\ code = pos_alias (str_lower (str_strip item))).
  { intros config code. unfold parse_pos_list. rewrite elem_of_pos_fold.
    split; [intros [Hin | ?]; [by apply elem_of_empty in Hin | assumption] | tauto]. }
  assert (Hitem : forall item, item ∈ split_on "," "adjective" ->
                    pos_alias (str_lower (str_strip item)) = "adj").
  { intros item Hin. cbn in Hin. apply list_elem_of_singleton in Hin as ->.
    rewrite (str_strip_ascii "adjective") by reflexivity.
    rewrite (str_lower_ascii (ascii_strip "adjective")) by reflexivity.
    reflexivity. }
  split; [exact Hparse |]. split; [| split].
  - intros allowed_pos commit_every entry p st Hlang Hpos Hp.
    unfold import_line. cbn [as_dict mbind result_bind].
    rewrite Hlang. cbn [negb]. rewrite (pos_raw_of_string entry p Hpos).
    cbn [mbind result_bind].
    destruct (String.eqb_spec (str_strip p) ""); [contradiction |].
    case_bool_decide as Hin; cbn [negb]; [| reflexivity].
    intros st' Hrun.
    destruct (negb (truthy (dict_get "word" entry))); [injection Hrun as <-; cbn; tauto |].
    inv_bind Hrun. destruct (commit_every =? 0)%Z; [discriminate |].
    injection Hrun as <-. cbn. tauto.
  - apply Hparse. exists "adjective". split; [cbn; left |].
    rewrite (str_strip_ascii "adjective") by reflexivity.
    rewrite (str_lower_ascii (ascii_strip "adjective")) by reflexivity.
    split; [discriminate | reflexivity].
  - intros Hin. apply Hparse in Hin as (item & Hitem' & _ & Hcode).
    rewrite (Hitem item Hitem') in Hcode. discriminate.
Qed.

(** *** Importing a stream again *)

Lemma covers_refl db : covers db db.
Proof. unfold covers. tauto. Qed.

Lemma covers_trans db1 db2 db3 : covers db1 db2 -> covers db2 db3 -> covers db1 db3.
Proof. unfold covers. intros (? & ? & ?) (? & ? & ?). repeat split; auto. Qed.

Lemma same_entities_refl db : same_entities db db.
Proof. unfold same_entities. tauto. Qed.

Lemma same_entities_trans db1 db2 db3 :
  same_entities db1 db2 -> same_entities db2 db3 -> same_entities db1 db3.
Proof. unfold same_entities. intros (? & ? & ?) (? & ? & ?). repeat split; congruence. Qed.

Lemma same_entities_covers db db' : same_entities db db' -> covers db db'.
Proof.
  unfold same_entities, covers, pos_codes, dialect_codes.
  intros (-> & -> & ->). tauto.
Qed.

Lemma covers_same_entities db1 db2 db3 :
  covers db1 db2 -> same_entities db2 db3 -> covers db1 db3.
Proof. intros H12 H23. eapply covers_trans; [exact H12 | apply same_entities_covers, H23]. Qed.

Lemma grows_refl db : grows db db.
Proof. unfold grows. split; [apply covers_refl | lia]. Qed.

Lemma grows_trans db1 db2 db3 : grows db1 db2 -> grows db2 db3 -> grows db1 db3.
Proof.
  unfold grows. intros (? & ? & ?) (? & ? & ?).
  split; [eapply covers_trans; eassumption | lia].
Qed.

Lemma same_growth_refl a b : same_growth a a b b.
Proof. unfold same_growth. lia. Qed.

Lemma same_growth_trans a1 a2 a3 b1 b2 b3 :
  same_growth a1 a2 b1 b2 -> same_growth a2 a3 b2 b3 -> same_growth a1 a3 b1 b3.
Proof. unfold same_growth. lia. Qed.

(** A lookup by key finds a row exactly when the key is in the table. *)
Lemma find_key {R K} (key : R -> K) (test : R -> bool) (k : K) (rows : list R) :
  (forall r, test r = true <-> key r = k) ->
  match List.find test rows with
  | Some r => key r = k /\ r ∈ rows
  | None => k ∉ map key rows
  end.
Proof.
  intros Htest. induction rows as [| r rows IH]; cbn.
  - intros Hin. by apply elem_of_nil in Hin.
  - destruct (test r) eqn:Hr.
    + split; [apply Htest, Hr | left].
    + destruct (List.find test rows) as [r' |].
      * destruct IH. split; [assumption | right; assumption].
      * intros Hin. apply elem_of_cons in Hin as [Hk | Hin]; [| contradiction].
        symmetry in Hk. apply Htest in Hk. congruence.
Qed.

Lemma elem_of_map_key {R K} (key : R -> K) (r : R) (rows : list R) :
  r ∈ rows -> key r ∈ map key rows.
Proof.
  intros Hr. change (map key rows) with (key <$> rows).
  apply list_elem_of_fmap. exists r. tauto.
Qed.

Lemma elem_of_map_app_l {R K} (key : R -> K) (k : K) (rows extra : list R) :
  k ∈ map key rows -> k ∈ map key (rows ++ extra).
Proof. rewrite map_app, elem_of_app. tauto. Qed.

Lemma elem_of_map_snoc {R K} (key : R -> K) (k : K) (r : R) (rows : list R) :
  key r = k -> k ∈ map key (rows ++ [r]).
Proof. intros <-. rewrite map_app, elem_of_app. right. cbn. left. Qed.

Ltac replay_binds :=
  cbn [mbind result_bind];
  repeat match goal with
         | E : ?m = Ok _ |- context [mbind _ ?m] => rewrite E; cbn [mbind result_bind]
         end.

(** **** The ensure operations *)

Lemma ensure_pos_grows code s :
  caches_sound s ->
  caches_sound (ensure_pos code s).2
  /\ covers (conn s) (conn (ensure_pos code s).2)
  /\ code ∈ pos_codes (conn (ensure_pos code s).2)
  /\ sense_table (conn (ensure_pos code s).2) = sense_table (conn s)
  /\ form_table (conn (ensure_pos code s).2) = form_table (conn s).
Proof.
  intros (Hp & Hd & Hl). unfold ensure_pos.
  destruct (pos_cache s !! code) as [id |] eqn:Hc; cbn [snd].
  { repeat split; try assumption; try apply covers_refl. eapply Hp, Hc. }
  pose proof (find_key pos_code (fun r => String.eqb (pos_code r) code) code
                (pos_table (conn s)) (fun r => String.eqb_eq (pos_code r) code)) as Hf.
  destruct (List.find _ (pos_table (conn s))) as [row |]; cbn [snd conn pos_cache
    dialect_cache lemma_cache].
  - destruct Hf as [Hk Hin].
    assert (Hcode : code ∈ pos_codes (conn s))
      by (rewrite <- Hk; apply elem_of_map_key, Hin).
    repeat split; try assumption; try apply covers_refl.
    intros c id. cbn [conn pos_cache dialect_cache lemma_cache].
    rewrite lookup_insert. case_decide; [intros _; congruence | apply Hp].
  - unfold caches_sound, covers, pos_codes, dialect_codes, lemma_keys.
    cbn [conn pos_cache dialect_cache lemma_cache pos_table dialect_table lemma_table
         sense_table form_table].
    repeat split; try assumption; try tauto.
    + intros c id. rewrite lookup_insert. case_decide.
      * intros _. subst c. eapply (elem_of_map_snoc pos_code); reflexivity.
      * intros Hc'. apply elem_of_map_app_l. eapply Hp, Hc'.
    + intros c. apply elem_of_map_app_l.
    + eapply (elem_of_map_snoc pos_code); reflexivity.
Qed.

Lemma ensure_pos_present code s :
  code ∈ pos_codes (conn s) -> conn (ensure_pos code s).2 = conn s.
Proof.
  intros Hin. unfold ensure_pos.
  destruct (pos_cache s !! code); [reflexivity |].
  pose proof (find_key pos_code (fun r => String.eqb (pos_code r) code) code
                (pos_table (conn s)) (fun r => String.eqb_eq (pos_code r) code)) as Hf.
  destruct (List.find _ (pos_table (conn s))); [reflexivity | contradiction].
Qed.

Lemma ensure_dialect_grows code s :
  caches_sound s ->
  caches_sound (ensure_dialect code s).2
  /\ covers (conn s) (conn (ensure_dialect code s).2)
  /\ code ∈ dialect_codes (conn (ensure_dialect code s).2)
  /\ sense_table (conn (ensure_dialect code s).2) = sense_table (conn s)
  /\ form_table (conn (ensure_dialect code s).2) = form_table (conn s).
Proof.
  intros (Hp & Hd & Hl). unfold ensure_dialect.
  destruct (dialect_cache s !! code) as [id |] eqn:Hc; cbn [snd].
  { repeat split; try assumption; try apply covers_refl. eapply Hd, Hc. }
  pose proof (find_key dialect_code (fun r => String.eqb (dialect_code r) code) code
                (dialect_table (conn s))
                (fun r => String.eqb_eq (dialect_code r) code)) as Hf.
  destruct (List.find _ (dialect_table (conn s))) as [row |]; cbn [snd conn pos_cache
    dialect_cache lemma_cache].
  - destruct Hf as [Hk Hin].
    assert (Hcode : code ∈ dialect_codes (conn s))
      by (rewrite <- Hk; apply elem_of_map_key, Hin).
    repeat split; try assumption; try apply covers_refl.
    intros c id. cbn [conn pos_cache dialect_cache lemma_cache].
    rewrite lookup_insert. case_decide; [intros _; congruence | apply Hd].
  - unfold caches_sound, covers, pos_codes, dialect_codes, lemma_keys.
    cbn [conn pos_cache dialect_cache lemma_cache pos_table dialect_table lemma_table
         sense_table form_table].
    repeat split; try assumption; try tauto.
    + intros c id. rewrite lookup_insert. case_decide.
      * intros _. subst c. eapply (elem_of_map_snoc dialect_code); reflexivity.
      * intros Hc'. apply elem_of_map_app_l. eapply Hd, Hc'.
    + intros c. apply elem_of_map_app_l.
    + eapply (elem_of_map_snoc dialect_code); reflexivity.
Qed.

Lemma ensure_dialect_present code s :
  code ∈ dialect_codes (conn s) -> conn (ensure_dialect code s).2 = conn s.
Proof.
  intros Hin. unfold ensure_dialect.
  destruct (dialect_cache s !! code); [reflexivity |].
  pose proof (find_key dialect_code (fun r => String.eqb (dialect_code r) code) code
                (dialect_table (conn s))
                (fun r => String.eqb_eq (dialect_code r) code)) as Hf.
  destruct (List.find _ (dialect_table (conn s))); [reflexivity | contradiction].
Qed.

Lemma lemma_test_key headword headword_norm r :
  String.eqb (l_headword r) headword && String.eqb (l_headword_norm r) headword_norm = true
  <-> lemma_key r = (headword, headword_norm).
Proof.
  unfold lemma_key. rewrite andb_true_iff, !String.eqb_eq.
  split; [intros [-> ->]; reflexivity | intros [= -> ->]; tauto].
Qed.

Lemma ensure_lemma_grows headword s :
  caches_sound s ->
  caches_sound (ensure_lemma headword s).2
  /\ covers (conn s) (conn (ensure_lemma headword s).2)
  /\ (headword, normalize headword) ∈ lemma_keys (conn (ensure_lemma headword s).2)
  /\ sense_table (conn (ensure_lemma headword s).2) = sense_table (conn s)
  /\ form_table (conn (ensure_lemma headword s).2) = form_table (conn s).
Proof.
  intros (Hp & Hd & Hl). unfold ensure_lemma. cbn zeta.
  destruct (lemma_cache s !! (headword, normalize headword)) as [id |] eqn:Hc; cbn [snd].
  { repeat split; try assumption; try apply covers_refl. eapply Hl, Hc. }
  pose proof (find_key lemma_key _ (headword, normalize headword) (lemma_table (conn s))
                (lemma_test_key headword (normalize headword))) as Hf.
  destruct (List.find _ (lemma_table (conn s))) as [row |]; cbn [snd conn pos_cache
    dialect_cache lemma_cache].
  - destruct Hf as [Hk Hin].
    assert (Hkey : (headword, normalize headword) ∈ lemma_keys (conn s))
      by (rewrite <- Hk; apply elem_of_map_key, Hin).
    repeat split; try assumption; try apply covers_refl.
    intros k id. cbn [conn pos_cache dialect_cache lemma_cache].
    rewrite lookup_insert. case_decide; [intros _; congruence | apply Hl].
  - unfold caches_sound, covers, pos_codes, dialect_codes, lemma_keys.
    cbn [conn pos_cache dialect_cache lemma_cache pos_table dialect_table lemma_table
         sense_table form_table].
    repeat split; try assumption; try tauto.
    + intros k id. rewrite lookup_insert. case_decide.
      * intros _. subst k.
        eapply (elem_of_map_snoc lemma_key); reflexivity.
      * intros Hc'. apply elem_of_map_app_l. eapply Hl, Hc'.
    + intros k. apply elem_of_map_app_l.
    + eapply (elem_of_map_snoc lemma_key); reflexivity.
Qed.

Lemma ensure_lemma_present headword s :
  (headword, normalize headword) ∈ lemma_keys (conn s) ->
  conn (ensure_lemma headword s).2 = conn s.
Proof.
  intros Hin. unfold ensure_lemma. cbn zeta.
  destruct (lemma_cache s !! (headword, normalize headword)); [reflexivity |].
  pose proof (find_key lemma_key _ (headword, normalize headword) (lemma_table (conn s))
                (lemma_test_key headword (normalize headword))) as Hf.
  destruct (List.find _ (lemma_table (conn s))); [reflexivity | contradiction].
Qed.

(** **** Statements that do not depend on the store *)

Lemma update_lemma_metadata_frame lemma_id md db db' :
  update_lemma_metadata lemma_id md db = Ok db' ->
  same_entities db db'
  /\ sense_table db' = sense_table db /\ form_table db' = form_table db.
Proof.
  unfold update_lemma_metadata. intros Hup.
  destruct (negb _); [injection Hup as <-; split; [apply same_entities_refl | tauto] |].
  inv_bind Hup. inv_bind Hup. subst db'.
  unfold same_entities, lemma_keys. cbn. repeat split.
  rewrite map_map. apply map_ext. intros r.
  destruct (l_id r =? lemma_id)%Z; reflexivity.
Qed.

Lemma update_lemma_metadata_any_store lemma_id md db db' lemma_id2 db2 :
  update_lemma_metadata lemma_id md db = Ok db' ->
  exists db2', update_lemma_metadata lemma_id2 md db2 = Ok db2'.
Proof.
  unfold update_lemma_metadata. intros Hup.
  destruct (negb _); [eauto |].
  inv_bind Hup. cbn [mbind result_bind]. eauto.
Qed.

Lemma insert_lemma_pos_frame lemma_id pos_id db :
  same_entities db (insert_lemma_pos lemma_id pos_id db)
  /\ sense_table (insert_lemma_pos lemma_id pos_id db) = sense_table db
  /\ form_table (insert_lemma_pos lemma_id pos_id db) = form_table db.
Proof.
  unfold insert_lemma_pos. destruct (existsb _ _); cbn;
    (split; [apply same_entities_refl || (unfold same_entities, lemma_keys; cbn; tauto)
            | tauto]).
Qed.

Lemma sense_params_any_ids id lemma_id pos_id idx sense row id2 lemma_id2 pos_id2 :
  sense_params id lemma_id pos_id idx sense = Ok row ->
  exists row2, sense_params id2 lemma_id2 pos_id2 idx sense = Ok row2.
Proof.
  unfold sense_params. intros Hrow. repeat inv_bind Hrow.
  replay_binds. destruct a1; [eauto | discriminate].
Qed.

Lemma import_senses_any_store lemma_id pos_id idx senses db db' lemma_id2 pos_id2 db2 :
  import_senses lemma_id pos_id idx senses db = Ok db' ->
  exists db2', import_senses lemma_id2 pos_id2 idx senses db2 = Ok db2'.
Proof.
  revert idx db db2. induction senses as [| sense senses IH]; intros idx db db2 Hrun;
    cbn [import_senses] in *; [eauto |].
  inv_bind Hrun. unfold import_sense in E. inv_bind E.
  unfold import_sense at 1.
  destruct (sense_params_any_ids _ _ _ _ _ _
              (next_rowid (map s_id (sense_table db2))) lemma_id2 pos_id2 E0)
    as [row2 ->].
  cbn [mbind result_bind]. eapply IH. exact Hrun.
Qed.

Lemma import_senses_frame lemma_id pos_id idx senses db db' :
  import_senses lemma_id pos_id idx senses db = Ok db' ->
  same_entities db db'
  /\ length (sense_table db') = length (sense_table db) + length senses
  /\ form_table db' = form_table db.
Proof.
  intros Hrun. apply import_senses_appends in Hrun as (Hp & Hd & Hl & _ & Hf & Hs).
  unfold same_entities, lemma_keys. rewrite Hp, Hd, Hl. tauto.
Qed.

(** **** Replaying an operation on a store that covers its result *)

Section Replay.
Context {S : Type} (view : S -> session).

Lemma foldM_replays {A} (fa fb : A -> S -> result S) (l : list A) :
  (forall x, replays view (fa x) (fb x)) -> replays view (foldM fa l) (foldM fb l).
Proof.
  intros Hstep. induction l as [| x l IH]; intros sa sa' Hsound Hrun; cbn [foldM] in *.
  - injection Hrun as <-. split; [assumption |]. split; [apply grows_refl |].
    intros sb _. exists sb.
    split; [reflexivity |]. split; [apply same_entities_refl | apply same_growth_refl].
  - inv_bind Hrun.
    destruct (Hstep x sa a Hsound E) as (Hsound1 & Hgrows1 & Hb1).
    destruct (IH a sa' Hsound1 Hrun) as (Hsound2 & Hgrows2 & Hb2).
    split; [assumption |]. split; [eapply grows_trans; eassumption |].
    intros sb Hcov.
    destruct (Hb1 sb) as (sb1 & Hrun1 & Hsame1 & Hgrowth1).
    { eapply covers_trans; [apply Hgrows2 | exact Hcov]. }
    destruct (Hb2 sb1) as (sb' & Hrun2 & Hsame2 & Hgrowth2).
    { eapply covers_same_entities; eassumption. }
    exists sb'. rewrite Hrun1. cbn [mbind result_bind].
    split; [assumption |].
    split; [eapply same_entities_trans | eapply same_growth_trans]; eassumption.
Qed.

End Replay.

(** **** The loop over the forms *)

Lemma caches_sound_with_conn db s :
  caches_sound s -> same_entities (conn s) db -> caches_sound (with_conn db s).
Proof.
  unfold caches_sound, same_entities, with_conn, pos_codes, dialect_codes.
  cbn [conn pos_cache dialect_cache lemma_cache].
  intros (Hp & Hd & Hl) (-> & -> & ->). tauto.
Qed.

Lemma insert_form_frame row db :
  same_entities db (insert_form row db)
  /\ sense_table (insert_form row db) = sense_table db
  /\ length (form_table (insert_form row db)) = length (form_table db) + 1.
Proof.
  unfold insert_form, same_entities, lemma_keys. cbn. rewrite length_app. cbn. tauto.
Qed.

Lemma resolve_dialect_grows parsed s :
  caches_sound s ->
  caches_sound (resolve_dialect parsed s).2
  /\ covers (conn s) (conn (resolve_dialect parsed s).2)
  /\ sense_table (conn (resolve_dialect parsed s).2) = sense_table (conn s)
  /\ form_table (conn (resolve_dialect parsed s).2) = form_table (conn s)
  /\ forall sb, covers (conn (resolve_dialect parsed s).2) (conn sb) ->
        conn (resolve_dialect parsed sb).2 = conn sb.
Proof.
  intros Hsound. unfold resolve_dialect.
  destruct (p_dialect parsed) as [code |];
    [destruct (String.eqb code "") |]; cbn [snd];
    try (refine (conj Hsound (conj (covers_refl _) (conj eq_refl (conj eq_refl _))));
         reflexivity).
  destruct (ensure_dialect_grows code s Hsound) as (Hs' & Hc' & Hin & Hse & Hfo).
  refine (conj Hs' (conj Hc' (conj Hse (conj Hfo _)))).
  intros sb Hcov. apply ensure_dialect_present. apply Hcov, Hin.
Qed.

Lemma import_form_replays lemma_id pos_id pronoun_type governs_case
    lemma_id2 pos_id2 pronoun_type2 governs_case2 form_entry :
  replays (fun s => s)
    (import_form lemma_id pos_id pronoun_type governs_case form_entry)
    (import_form lemma_id2 pos_id2 pronoun_type2 governs_case2 form_entry).
Proof.
  intros sa sa' Hsound Hrun. unfold import_form in Hrun. inv_bind Hrun.
  destruct a; cbn [negb] in Hrun.
  2:{ inv_bind Hrun. subst sa'. split; [assumption |]. split; [apply grows_refl |].
      intros sb _. exists sb. unfold import_form. rewrite E.
      split; [reflexivity |]. split; [apply same_entities_refl | apply same_growth_refl]. }
  repeat inv_bind Hrun. subst sa'. cbn zeta.
  destruct (resolve_dialect_grows (parse_tags a1) sa Hsound)
    as (Hsound1 & Hcov1 & Hs1 & Hf1 & Hb1).
  set (ra := resolve_dialect (parse_tags a1) sa) in *.
  match goal with
  | |- context [insert_form ?row (conn ra.2)] =>
      destruct (insert_form_frame row (conn ra.2)) as (Hsame & Hs2 & Hf2)
  end.
  split; [apply caches_sound_with_conn; assumption |].
  split.
  { cbn [conn with_conn]. split; [eapply covers_same_entities; eassumption |].
    rewrite Hs2, Hs1, Hf2, Hf1. lia. }
  intros sb Hcov. cbn [conn with_conn] in Hcov.
  assert (Hconn : conn (resolve_dialect (parse_tags a1) sb).2 = conn sb).
  { apply Hb1. apply (covers_trans _ _ _ (same_entities_covers _ _ Hsame) Hcov). }
  unfold import_form. replay_binds. cbn [negb]. replay_binds. cbn zeta.
  eexists. split; [reflexivity |]. cbn [conn with_conn]. rewrite Hconn.
  match goal with
  | |- context [insert_form ?row (conn sb)] =>
      destruct (insert_form_frame row (conn sb)) as (Hsameb & Hsb & Hfb)
  end.
  split; [assumption |].
  unfold same_growth. rewrite Hs2, Hs1, Hf2, Hf1, Hsb, Hfb. lia.
Qed.

Lemma resolve_dialect_forms parsed s :
  form_table (conn (resolve_dialect parsed s).2) = form_table (conn s).
Proof.
  unfold resolve_dialect. destruct (p_dialect parsed) as [code |]; [| reflexivity].
  destruct (String.eqb code ""); [reflexivity |]. cbn [snd]. unfold ensure_dialect.
  destruct (dialect_cache s !! code); [reflexivity |].
  destruct (List.find _ (dialect_table (conn s))); reflexivity.
Qed.

(** A form entry adds one form row when the filter keeps it and none when
    it does not. *)
Lemma import_form_rows lemma_id pos_id pronoun_type governs_case form_entry keep s s' :
  should_keep_form form_entry = Ok keep ->
  import_form lemma_id pos_id pronoun_type governs_case form_entry s = Ok s' ->
  (keep = false -> s' = s)
  /\ length (form_table (conn s'))
     = length (form_table (conn s)) + (if keep then 1 else 0).
Proof.
  intros Hkeep Hrun. unfold import_form in Hrun. rewrite Hkeep in Hrun.
  cbn [mbind result_bind] in Hrun. destruct keep; cbn [negb] in Hrun.
  - repeat inv_bind Hrun. subst s'. split; [discriminate |].
    cbn [conn with_conn].
    match goal with
    | |- context [insert_form ?row ?db] =>
        destruct (insert_form_frame row db) as (_ & _ & ->)
    end.
    rewrite resolve_dialect_forms. reflexivity.
  - inv_bind Hrun. subst s'. split; [reflexivity | lia].
Qed.

(** C5. A form entry whose [form] is a string or missing and whose [tags]
    is a list of strings or missing is rejected exactly when the text is
    missing, empty or the placeholder, or there is no tag, or a lowercased tag
    is one of the four blocked ones.  A rejected entry leaves the store as it
    is, a kept one adds one form row.  The entry with text [-] and the tag
    [table-tags] is rejected, as is every entry with that text whatever its
    tags, and every entry with that tag whatever its text. *)
Theorem should_keep_form_rejects (fields : list (string * json))
    (text : option string) (tags : list string) :
  dict_get "form" fields = from_option JStr JNull text ->
  dict_get_or "tags" (JArr []) fields = JArr (map JStr tags) ->
  (exists keep, should_keep_form (JObj fields) = Ok keep
     /\ (keep = false <->
         text = None \/ text = Some "" \/ text = Some "-" \/ tags = []
         \/ exists b, b ∈ blocked_tags /\ b ∈ map str_lower tags)
     /\ (forall lemma_id pos_id pronoun_type governs_case s s',
           import_form lemma_id pos_id pronoun_type governs_case (JObj fields) s = Ok s' ->
           (keep = false -> s' = s)
           /\ length (form_table (conn s'))
              = length (form_table (conn s)) + (if keep then 1 else 0)))
  /\ should_keep_form (JObj [("form", JStr "-"); ("tags", JArr [JStr "table-tags"])]) = Ok false
  /\ (text = Some "-" -> should_keep_form (JObj fields) = Ok false)
  /\ ("table-tags" ∈ tags -> should_keep_form (JObj fields) = Ok false).
Proof.
  intros Hform Htags.
  destruct (should_keep_form_decides fields text tags Hform Htags) as (keep & Hkeep & Hiff).
  split.
  { exists keep. split; [exact Hkeep |]. split; [exact Hiff |].
    intros lemma_id pos_id pronoun_type governs_case s s'.
    apply import_form_rows. exact Hkeep. }
  split; [reflexivity |]. split.
  - intros Htext. rewrite Hkeep. f_equal. apply (proj2 Hiff). tauto.
  - intros Hin. rewrite Hkeep. f_equal. apply (proj2 Hiff). do 4 right.
    exists "table-tags". split; [unfold blocked_tags; do 2 right; left |].
    apply list_elem_of_fmap. exists "table-tags". split; [| exact Hin].
    rewrite str_lower_ascii by reflexivity. reflexivity.
Qed.

(** **** One entry, one line, the stream *)

Lemma import_entry_replays pos_code headword entry :
  replays (fun s => s) (import_entry pos_code headword entry)
          (import_entry pos_code headword entry).
Proof.
  intros sa sa' Hsound Hrun. unfold import_entry in Hrun. cbn zeta in Hrun.
  inv_bind Hrun. rename a into hw. inv_bind Hrun. rename a into dba1.
  inv_bind Hrun. rename a into pronoun_type. inv_bind Hrun. rename a into governs_case.
  inv_bind Hrun. rename a into senses. inv_bind Hrun. rename a into dba3.
  inv_bind Hrun. rename a into forms.
  destruct (ensure_pos_grows pos_code sa Hsound) as (Hsound1 & Hcov1 & Hpos & Hs1 & Hf1).
  set (psa := ensure_pos pos_code sa) in *.
  destruct (ensure_lemma_grows hw psa.2 Hsound1) as (Hsound2 & Hcov2 & Hkey & Hs2 & Hf2).
  set (lsa := ensure_lemma hw psa.2) in *.
  destruct (update_lemma_metadata_frame _ _ _ _ E0) as (Hsame3 & Hs3 & Hf3).
  destruct (insert_lemma_pos_frame lsa.1 psa.1 dba1) as (Hsame4 & Hs4 & Hf4).
  destruct (import_senses_frame _ _ _ _ _ _ E4) as (Hsame5 & Hs5 & Hf5).
  assert (Hsame35 : same_entities (conn lsa.2) dba3).
  { eapply same_entities_trans; [exact Hsame3 |].
    eapply same_entities_trans; [exact Hsame4 | exact Hsame5]. }
  assert (Hsound3 : caches_sound (with_conn dba3 lsa.2))
    by (apply caches_sound_with_conn; assumption).
  destruct (foldM_replays (fun s => s) _ _ forms
              (fun fe => import_form_replays lsa.1 psa.1 pronoun_type governs_case
                           lsa.1 psa.1 pronoun_type governs_case fe)
              _ _ Hsound3 Hrun) as (Hsound6 & (Hcov6 & Hs6 & Hf6) & _).
  cbn [conn with_conn] in Hcov6, Hs6, Hf6.
  assert (Hcov_a3 : covers (conn sa) dba3).
  { eapply covers_trans; [exact Hcov1 |]. eapply covers_trans; [exact Hcov2 |].
    apply same_entities_covers, Hsame35. }
  split; [assumption |]. split.
  { split; [eapply covers_trans; eassumption |].
    rewrite Hs4, Hs3, Hs2, Hs1 in Hs5. rewrite Hf5, Hf4, Hf3, Hf2, Hf1 in Hf6. lia. }
  intros sb Hcov.
  assert (Hcov3 : covers dba3 (conn sb)) by (eapply covers_trans; eassumption).
  assert (Hcov2' : covers (conn lsa.2) (conn sb)).
  { eapply covers_trans; [apply same_entities_covers, Hsame35 | exact Hcov3]. }
  assert (Hcov1' : covers (conn psa.2) (conn sb))
    by (eapply covers_trans; eassumption).
  unfold import_entry. cbn zeta. replay_binds.
  assert (Hpb : conn (ensure_pos pos_code sb).2 = conn sb).
  { apply ensure_pos_present. apply Hcov1', Hpos. }
  set (psb := ensure_pos pos_code sb) in *.
  assert (Hlb : conn (ensure_lemma hw psb.2).2 = conn sb).
  { rewrite <- Hpb. apply ensure_lemma_present. rewrite Hpb. apply Hcov2', Hkey. }
  set (lsb := ensure_lemma hw psb.2) in *.
  destruct (update_lemma_metadata_any_store _ _ _ _ lsb.1 (conn lsb.2) E0) as [dbb1 Eb1].
  rewrite Eb1. replay_binds.
  destruct (update_lemma_metadata_frame _ _ _ _ Eb1) as (Hsameb3 & Hsb3 & Hfb3).
  destruct (insert_lemma_pos_frame lsb.1 psb.1 dbb1) as (Hsameb4 & Hsb4 & Hfb4).
  destruct (import_senses_any_store _ _ _ _ _ _ lsb.1 psb.1
              (insert_lemma_pos lsb.1 psb.1 dbb1) E4) as [dbb3 Eb3].
  rewrite Eb3. replay_binds.
  destruct (import_senses_frame _ _ _ _ _ _ Eb3) as (Hsameb5 & Hsb5 & Hfb5).
  assert (Hsameb35 : same_entities (conn sb) dbb3).
  { rewrite <- Hlb. eapply same_entities_trans; [exact Hsameb3 |].
    eapply same_entities_trans; [exact Hsameb4 | exact Hsameb5]. }
  destruct (foldM_replays (fun s => s) _ _ forms
              (fun fe => import_form_replays lsa.1 psa.1 pronoun_type governs_case
                           lsb.1 psb.1 pronoun_type governs_case fe)
              _ _ Hsound3 Hrun) as (_ & _ & Hreplay).
  destruct (Hreplay (with_conn dbb3 lsb.2)) as (sb' & Hrunb & Hsameb6 & Hgs & Hgf).
  { cbn [conn with_conn]. eapply covers_same_entities; eassumption. }
  cbn [conn with_conn] in Hsameb6, Hgs, Hgf.
  exists sb'. split; [exact Hrunb |].
  split; [eapply same_entities_trans; eassumption |].
  unfold same_growth.
  rewrite Hs4, Hs3, Hs2, Hs1 in Hs5. rewrite Hf5, Hf4, Hf3, Hf2, Hf1 in Hgf.
  rewrite Hsb4, Hsb3, Hlb in Hsb5. rewrite Hfb5, Hfb4, Hfb3, Hlb in Hgf.
  lia.
Qed.

Lemma import_line_replays allowed_pos commit_every ln :
  replays sess (import_line allowed_pos commit_every ln)
          (import_line allowed_pos commit_every ln).
Proof.
  assert (Hskip : forall f sa sa', caches_sound (sess sa) -> sa' = skip f sa ->
            caches_sound (sess sa')
            /\ grows (conn (sess sa)) (conn (sess sa'))
            /\ forall sb, covers (conn (sess sa')) (conn (sess sb)) ->
                 same_entities (conn (sess sb)) (conn (sess (skip f sb)))
                 /\ same_growth (conn (sess sa)) (conn (sess sa'))
                                (conn (sess sb)) (conn (sess (skip f sb)))).
  { intros f sa sa' Hsound ->. cbn [sess skip].
    split; [assumption |]. split; [apply grows_refl |]. intros sb _.
    split; [apply same_entities_refl | apply same_growth_refl]. }
  intros sa sa' Hsound Hrun. unfold import_line in *.
  destruct ln as [| | v].
  - apply Ok_inj in Hrun as <-. split; [assumption |]. split; [apply grows_refl |].
    intros sb _. exists sb.
    split; [reflexivity |]. split; [apply same_entities_refl | apply same_growth_refl].
  - apply Ok_inj in Hrun. symmetry in Hrun.
    destruct (Hskip _ _ _ Hsound Hrun) as (? & ? & Hb).
    split; [assumption |]. split; [assumption |].
    intros sb Hcov. eexists. split; [reflexivity |]. apply Hb, Hcov.
  - inv_bind Hrun. rename a into entry. cbn [mbind result_bind].
    destruct (negb (is_str "grc" _)).
    { apply Ok_inj in Hrun. symmetry in Hrun.
      destruct (Hskip _ _ _ Hsound Hrun) as (? & ? & Hb).
      split; [assumption |]. split; [assumption |].
      intros sb Hcov. eexists. split; [reflexivity |]. apply Hb, Hcov. }
    inv_bind Hrun. rename a into pos_raw. cbn [mbind result_bind].
    destruct (String.eqb _ "").
    { apply Ok_inj in Hrun. symmetry in Hrun.
      destruct (Hskip _ _ _ Hsound Hrun) as (? & ? & Hb).
      split; [assumption |]. split; [assumption |].
      intros sb Hcov. eexists. split; [reflexivity |]. apply Hb, Hcov. }
    destruct (negb (bool_decide _)).
    { apply Ok_inj in Hrun as <-. cbn [sess].
      split; [assumption |]. split; [apply grows_refl |]. intros sb _.
      eexists. split; [reflexivity |]. cbn [sess].
      split; [apply same_entities_refl | apply same_growth_refl]. }
    destruct (negb (truthy _)).
    { apply Ok_inj in Hrun. symmetry in Hrun.
      destruct (Hskip _ _ _ Hsound Hrun) as (? & ? & Hb).
      split; [assumption |]. split; [assumption |].
      intros sb Hcov. eexists. split; [reflexivity |]. apply Hb, Hcov. }
    inv_bind Hrun. rename a into s1.
    destruct (commit_every =? 0)%Z; [discriminate |].
    apply Ok_inj in Hrun as <-. cbn [sess].
    destruct (import_entry_replays _ _ _ _ _ Hsound E1) as (Hsound1 & Hgrows1 & Hb).
    split; [assumption |]. split; [assumption |].
    intros sb Hcov. destruct (Hb (sess sb) Hcov) as (sb1 & Hrunb & Hsameb & Hgb).
    rewrite Hrunb. cbn [mbind result_bind].
    eexists. split; [reflexivity |]. cbn [sess]. tauto.
Qed.

Lemma empty_caches_sound db :
  caches_sound {| conn := db; pos_cache := ∅; dialect_cache := ∅; lemma_cache := ∅ |}.
Proof.
  unfold caches_sound. cbn [pos_cache dialect_cache lemma_cache].
  repeat split; intros k id Hk; rewrite lookup_empty in Hk; discriminate.
Qed.

(** C2, as the code has it.  A second import of the same stream into the
    store the first one left succeeds and creates no POS, dialect or lemma
    row, and appends exactly as many sense rows and form rows as the first
    import did; so it leaves strictly more of them exactly when the first
    import appended at least one. *)
Theorem reimport_entities_stable_rows_repeated db0 lines allowed_pos commit_every st1 :
  import_jsonl db0 lines allowed_pos commit_every = Ok st1 ->
  exists st2,
    import_jsonl (conn (sess st1)) lines allowed_pos commit_every = Ok st2
    /\ length (pos_table (conn (sess st2))) = length (pos_table (conn (sess st1)))
    /\ length (dialect_table (conn (sess st2))) = length (dialect_table (conn (sess st1)))
    /\ length (lemma_table (conn (sess st2))) = length (lemma_table (conn (sess st1)))
    /\ length (sense_table (conn (sess st2))) + length (sense_table db0)
       = 2 * length (sense_table (conn (sess st1)))
    /\ length (form_table (conn (sess st2))) + length (form_table db0)
       = 2 * length (form_table (conn (sess st1)))
    /\ (length (sense_table (conn (sess st1))) < length (sense_table (conn (sess st2)))
        <-> length (sense_table db0) < length (sense_table (conn (sess st1))))
    /\ (length (form_table (conn (sess st1))) < length (form_table (conn (sess st2)))
        <-> length (form_table db0) < length (form_table (conn (sess st1)))).
Proof.
  unfold import_jsonl. intros Hrun.
  destruct (foldM_replays sess _ _ lines
              (fun ln => import_line_replays allowed_pos commit_every ln)
              {| sess := {| conn := db0; pos_cache := ∅; dialect_cache := ∅;
                            lemma_cache := ∅ |};
                 inserted := 0; skipped_reasons := no_skips; skipped_pos_counts := ∅ |}
              st1 (empty_caches_sound db0) Hrun)
    as (_ & (_ & Hs & Hf) & Hreplay).
  cbn [sess conn] in Hs, Hf, Hreplay.
  destruct (Hreplay {| sess := {| conn := conn (sess st1); pos_cache := ∅;
                                  dialect_cache := ∅; lemma_cache := ∅ |};
                       inserted := 0; skipped_reasons := no_skips;
                       skipped_pos_counts := ∅ |})
    as (st2 & Hrun2 & (Hp & Hd & Hl) & Hgs & Hgf).
  { cbn [sess conn]. apply covers_refl. }
  cbn [sess conn] in Hp, Hd, Hl, Hgs, Hgf.
  exists st2. split; [exact Hrun2 |].
  rewrite Hp, Hd.
  assert (Hlen : length (lemma_table (conn (sess st2)))
                 = length (lemma_table (conn (sess st1)))).
  { unfold lemma_keys in Hl. apply (f_equal length) in Hl.
    rewrite !length_map in Hl. exact Hl. }
  repeat split; try assumption; lia.
Qed.

(** *** Streams of the documented shape *)



















End Reimport.

(** ** Integrity of the store *)

Lemma foldl_max_bounds (ids : list Z) (a : Z) :
  (a <= foldl Z.max a ids)%Z /\ forall x, x ∈ ids -> (x <= foldl Z.max a ids)%Z.
Proof.
  revert a. induction ids as [| i ids IH]; intros a; cbn [foldl].
  - split; [lia |]. intros x Hx. by apply elem_of_nil in Hx.
  - destruct (IH (Z.max a i)) as [Hle Hall]. split; [lia |].
    intros x Hx. apply elem_of_cons in Hx as [-> | Hx]; [lia | by apply Hall].
Qed.

(** The rowid of a new row is above every rowid in use. *)
Lemma next_rowid_above (ids : list Z) (x : Z) : x ∈ ids -> (x < next_rowid ids)%Z.
Proof.
  destruct ids as [| i ids]; [intros Hx; by apply elem_of_nil in Hx |].
  cbn [next_rowid]. destruct (foldl_max_bounds ids i) as [Hle Hall].
  intros Hx. apply elem_of_cons in Hx as [-> | Hx]; [lia |].
  specialize (Hall x Hx). lia.
Qed.

Lemma next_rowid_fresh (ids : list Z) : next_rowid ids ∉ ids.
Proof. intros Hin. apply next_rowid_above in Hin. lia. Qed.

Lemma keeps_lemma_refl r : keeps_lemma r r.
Proof. unfold keeps_lemma. tauto. Qed.

Lemma keeps_lemma_trans r1 r2 r3 :
  keeps_lemma r1 r2 -> keeps_lemma r2 r3 -> keeps_lemma r1 r3.
Proof.
  unfold keeps_lemma. intros (-> & -> & -> & -> & -> & H1) (-> & -> & -> & -> & -> & H2).
  repeat split; try reflexivity. intros f Hf. apply H2, H1, Hf.
Qed.

Lemma Forall2_keeps_refl rows : Forall2 keeps_lemma rows rows.
Proof. induction rows; constructor; [apply keeps_lemma_refl | assumption]. Qed.

Lemma extends_refl db : extends db db.
Proof.
  unfold extends. repeat split; try reflexivity.
  exists (lemma_table db), []. rewrite app_nil_r. split; [reflexivity |].
  apply Forall2_keeps_refl.
Qed.

Lemma extends_trans db1 db2 db3 : extends db1 db2 -> extends db2 db3 -> extends db1 db3.
Proof.
  intros (Hp1 & Hd1 & (k1 & a1 & Hl1 & Hk1) & Hlp1 & Hs1 & Hf1)
         (Hp2 & Hd2 & (k2 & a2 & Hl2 & Hk2) & Hlp2 & Hs2 & Hf2).
  unfold extends. repeat split; try (etrans; eassumption).
  rewrite Hl1 in Hk2. apply Forall2_app_inv_l in Hk2 as (k21 & k22 & Hk21 & Hk22 & ->).
  exists k21, (k22 ++ a2). split; [rewrite Hl2, <- app_assoc; reflexivity |].
  eapply Forall2_trans; [apply keeps_lemma_trans | exact Hk1 | exact Hk21].
Qed.

Lemma coalesce_keeps p r : keeps_lemma r (coalesce_row p r).
Proof.
  unfold keeps_lemma. repeat split; try reflexivity.
  intros f Hf. rewrite coalesce_row_stored. unfold coalesce.
  destruct (bound f p); [discriminate | assumption].
Qed.

Lemma Forall2_keeps_update lemma_id p rows :
  Forall2 keeps_lemma rows
    (map (fun r => if (l_id r =? lemma_id)%Z then coalesce_row p r else r) rows).
Proof.
  induction rows as [| r rows IH]; cbn [map]; constructor; [| assumption].
  destruct (l_id r =? lemma_id)%Z; [apply coalesce_keeps | apply keeps_lemma_refl].
Qed.

Lemma prefix_snoc {A} (l : list A) (x : A) : l `prefix_of` l ++ [x].
Proof. by apply prefix_app_r. Qed.

Section Integrity.
Context `{Host}.

(** Every statement appends rows or updates lemma metadata in place. *)
Lemma store_step_extends db db' : store_step db db' -> extends db db'.
Proof.
  intros Hstep. destruct Hstep; unfold extends; cbn;
    repeat split; try reflexivity; try apply prefix_snoc;
    try (exists (lemma_table db), []; rewrite app_nil_r; split;
         [reflexivity | apply Forall2_keeps_refl]).
  - exists (lemma_table db), [new_lemma (next_rowid (lemma_ids db)) headword
                                         (normalize headword)].
    split; [reflexivity | apply Forall2_keeps_refl].
  - eexists _, []. rewrite app_nil_r. split; [reflexivity |].
    apply Forall2_keeps_update.
Qed.

Lemma store_steps_extends db db' : rtc store_step db db' -> extends db db'.
Proof.
  induction 1 as [| db1 db2 db3 Hstep _ IH]; [apply extends_refl |].
  eapply extends_trans; [apply store_step_extends, Hstep | exact IH].
Qed.

Lemma keeps_lemma_map {K} (key : lemma_row -> K) (rows kept : list lemma_row) :
  (forall r r', keeps_lemma r r' -> key r' = key r) ->
  Forall2 keeps_lemma rows kept -> map key kept = map key rows.
Proof.
  intros Hkey. induction 1 as [| r r' rows kept Hr _ IH]; cbn [map]; [reflexivity |].
  rewrite (Hkey r r' Hr), IH. reflexivity.
Qed.

Lemma extends_lemma_map {K} (key : lemma_row -> K) db db' :
  (forall r r', keeps_lemma r r' -> key r' = key r) ->
  extends db db' -> map key (lemma_table db) `prefix_of` map key (lemma_table db').
Proof.
  intros Hkey (_ & _ & (kept & added & -> & Hkept) & _).
  rewrite map_app, (keeps_lemma_map key _ _ Hkey Hkept). by apply prefix_app_r.
Qed.

Lemma prefix_map {A B} (f : A -> B) (l k : list A) :
  l `prefix_of` k -> map f l `prefix_of` map f k.
Proof. intros [rest ->]. rewrite map_app. by apply prefix_app_r. Qed.

Lemma elem_of_prefix {A} (l k : list A) (x : A) : l `prefix_of` k -> x ∈ l -> x ∈ k.
Proof. intros [rest ->] Hx. apply elem_of_app. by left. Qed.

(** No entity is lost or renumbered when rows are appended. *)
Lemma extends_entries db db' :
  extends db db' ->
  (forall e, e ∈ pos_entries db -> e ∈ pos_entries db')
  /\ (forall e, e ∈ dialect_entries db -> e ∈ dialect_entries db')
  /\ (forall e, e ∈ lemma_entries db -> e ∈ lemma_entries db').
Proof.
  intros Hext. pose proof Hext as (Hp & Hd & _).
  split; [| split]; intros e; apply elem_of_prefix.
  - apply prefix_map, Hp.
  - apply prefix_map, Hd.
  - apply extends_lemma_map; [| exact Hext].
    intros r r' (Hid & Hhw & Hnorm & _). unfold lemma_key. congruence.
Qed.

Lemma extends_ids db db' :
  extends db db' ->
  (forall i, i ∈ pos_ids db -> i ∈ pos_ids db')
  /\ (forall i, i ∈ dialect_ids db -> i ∈ dialect_ids db')
  /\ (forall i, i ∈ lemma_ids db -> i ∈ lemma_ids db').
Proof.
  intros Hext. pose proof Hext as (Hp & Hd & _).
  split; [| split]; intros e; apply elem_of_prefix.
  - apply prefix_map, Hp.
  - apply prefix_map, Hd.
  - apply extends_lemma_map; [| exact Hext]. intros r r' (Hid & _). exact Hid.
Qed.

Lemma caches_coherent_extends db' s :
  caches_coherent s -> extends (conn s) db' -> caches_coherent (with_conn db' s).
Proof.
  intros (Hp & Hd & Hl) Hext. apply extends_entries in Hext as (Hp' & Hd' & Hl').
  unfold caches_coherent. cbn [with_conn conn pos_cache dialect_cache lemma_cache].
  split; [| split]; intros k id Hk; [apply Hp', Hp | apply Hd', Hd | apply Hl', Hl];
    exact Hk.
Qed.

Lemma entry_id {R K} (key : R -> K) (id : R -> Z) (k : K) (i : Z) (rows : list R) :
  (k, i) ∈ map (fun r => (key r, id r)) rows -> i ∈ map id rows.
Proof.
  intros Hin. change (map (fun r => (key r, id r)) rows)
    with ((fun r => (key r, id r)) <$> rows) in Hin.
  apply list_elem_of_fmap in Hin as (r & [= -> ->] & Hr). by apply elem_of_map_key.
Qed.

Lemma ensure_pos_steps code s :
  caches_coherent s ->
  rtc store_step (conn s) (conn (ensure_pos code s).2)
  /\ caches_coherent (ensure_pos code s).2
  /\ (code, (ensure_pos code s).1) ∈ pos_entries (conn (ensure_pos code s).2).
Proof.
  intros Hcoh. pose proof Hcoh as (Hp & Hd & Hl). unfold ensure_pos.
  destruct (pos_cache s !! code) as [id |] eqn:Hc; cbn [fst snd].
  { split; [reflexivity |]. split; [assumption | apply Hp, Hc]. }
  pose proof (find_key pos_code (fun r => String.eqb (pos_code r) code) code
                (pos_table (conn s)) (fun r => String.eqb_eq (pos_code r) code)) as Hf.
  destruct (List.find _ (pos_table (conn s))) as [row |]; cbn [fst snd conn].
  - destruct Hf as [Hk Hin].
    assert (Hrow : (code, pos_id row) ∈ pos_entries (conn s)).
    { rewrite <- Hk. apply (elem_of_map_key (fun r => (pos_code r, pos_id r))), Hin. }
    split; [reflexivity |]. split; [| exact Hrow].
    unfold caches_coherent. cbn [conn pos_cache dialect_cache lemma_cache].
    split; [| tauto]. intros c id. rewrite lookup_insert.
    case_decide; [intros [= <-]; subst c; exact Hrow | apply Hp].
  - pose proof (step_pos (conn s) code Hf) as Hstep.
    pose proof (extends_entries _ _ (store_step_extends _ _ Hstep)) as (Hp' & Hd' & Hl').
    assert (Hnew : (code, next_rowid (pos_ids (conn s)))
                   ∈ pos_entries (insert_pos {| pos_id := next_rowid (pos_ids (conn s));
                                                pos_code := code |} (conn s))).
    { unfold pos_entries. cbn [insert_pos pos_table].
      eapply (elem_of_map_snoc (fun r => (pos_code r, pos_id r))). reflexivity. }
    split; [apply rtc_once, Hstep |]. split; [| exact Hnew].
    unfold caches_coherent. cbn [conn pos_cache dialect_cache lemma_cache].
    split; [| split].
    + intros c id. rewrite lookup_insert.
      case_decide; [intros [= <-]; subst c; exact Hnew | intros Hc'; apply Hp', Hp, Hc'].
    + intros c id Hc'. apply Hd', Hd, Hc'.
    + intros k id Hc'. apply Hl', Hl, Hc'.
Qed.

Lemma ensure_dialect_steps code s :
  caches_coherent s ->
  rtc store_step (conn s) (conn (ensure_dialect code s).2)
  /\ caches_coherent (ensure_dialect code s).2
  /\ (code, (ensure_dialect code s).1) ∈ dialect_entries (conn (ensure_dialect code s).2).
Proof.
  intros Hcoh. pose proof Hcoh as (Hp & Hd & Hl). unfold ensure_dialect.
  destruct (dialect_cache s !! code) as [id |] eqn:Hc; cbn [fst snd].
  { split; [reflexivity |]. split; [assumption | apply Hd, Hc]. }
  pose proof (find_key dialect_code (fun r => String.eqb (dialect_code r) code) code
                (dialect_table (conn s))
                (fun r => String.eqb_eq (dialect_code r) code)) as Hf.
  destruct (List.find _ (dialect_table (conn s))) as [row |]; cbn [fst snd conn].
  - destruct Hf as [Hk Hin].
    assert (Hrow : (code, dialect_id row) ∈ dialect_entries (conn s)).
    { rewrite <- Hk.
      apply (elem_of_map_key (fun r => (dialect_code r, dialect_id r))), Hin. }
    split; [reflexivity |]. split; [| exact Hrow].
    unfold caches_coherent. cbn [conn pos_cache dialect_cache lemma_cache].
    split; [tauto |]. split; [| tauto]. intros c id. rewrite lookup_insert.
    case_decide; [intros [= <-]; subst c; exact Hrow | apply Hd].
  - pose proof (step_dialect (conn s) code Hf) as Hstep.
    pose proof (extends_entries _ _ (store_step_extends _ _ Hstep)) as (Hp' & Hd' & Hl').
    assert (Hnew : (code, next_rowid (dialect_ids (conn s)))
                   ∈ dialect_entries
                       (insert_dialect {| dialect_id := next_rowid (dialect_ids (conn s));
                                          dialect_code := code |} (conn s))).
    { unfold dialect_entries. cbn [insert_dialect dialect_table].
      eapply (elem_of_map_snoc (fun r => (dialect_code r, dialect_id r))). reflexivity. }
    split; [apply rtc_once, Hstep |]. split; [| exact Hnew].
    unfold caches_coherent. cbn [conn pos_cache dialect_cache lemma_cache].
    split; [| split].
    + intros c id Hc'. apply Hp', Hp, Hc'.
    + intros c id. rewrite lookup_insert.
      case_decide; [intros [= <-]; subst c; exact Hnew | intros Hc'; apply Hd', Hd, Hc'].
    + intros k id Hc'. apply Hl', Hl, Hc'.
Qed.

Lemma ensure_lemma_steps headword s :
  caches_coherent s ->
  rtc store_step (conn s) (conn (ensure_lemma headword s).2)
  /\ caches_coherent (ensure_lemma headword s).2
  /\ ((headword, normalize headword), (ensure_lemma headword s).1)
     ∈ lemma_entries (conn (ensure_lemma headword s).2).
Proof.
  intros Hcoh. pose proof Hcoh as (Hp & Hd & Hl). unfold ensure_lemma. cbn zeta.
  destruct (lemma_cache s !! (headword, normalize headword)) as [id |] eqn:Hc;
    cbn [fst snd].
  { split; [reflexivity |]. split; [assumption | apply Hl, Hc]. }
  pose proof (find_key lemma_key
                (fun r => String.eqb (l_headword r) headword
                          && String.eqb (l_headword_norm r) (normalize headword))
                (headword, normalize headword) (lemma_table (conn s))
                (lemma_test_key headword (normalize headword))) as Hf.
  destruct (List.find _ (lemma_table (conn s))) as [row |]; cbn [fst snd conn].
  - destruct Hf as [Hk Hin].
    assert (Hrow : ((headword, normalize headword), l_id row) ∈ lemma_entries (conn s)).
    { rewrite <- Hk. apply (elem_of_map_key (fun r => (lemma_key r, l_id r))), Hin. }
    split; [reflexivity |]. split; [| exact Hrow].
    unfold caches_coherent. cbn [conn pos_cache dialect_cache lemma_cache].
    split; [tauto |]. split; [tauto |]. intros k id. rewrite lookup_insert.
    case_decide; [intros [= <-]; subst k; exact Hrow | apply Hl].
  - pose proof (step_lemma (conn s) headword Hf) as Hstep.
    pose proof (extends_entries _ _ (store_step_extends _ _ Hstep)) as (Hp' & Hd' & Hl').
    assert (Hnew : ((headword, normalize headword), next_rowid (lemma_ids (conn s)))
                   ∈ lemma_entries
                       (insert_lemma (new_lemma (next_rowid (lemma_ids (conn s))) headword
                                                (normalize headword)) (conn s))).
    { unfold lemma_entries. cbn [insert_lemma lemma_table].
      eapply (elem_of_map_snoc (fun r => (lemma_key r, l_id r))). reflexivity. }
    split; [apply rtc_once, Hstep |]. split; [| exact Hnew].
    unfold caches_coherent. cbn [conn pos_cache dialect_cache lemma_cache].
    split; [| split].
    + intros c id Hc'. apply Hp', Hp, Hc'.
    + intros c id Hc'. apply Hd', Hd, Hc'.
    + intros k id. rewrite lookup_insert.
      case_decide; [intros [= <-]; subst k; exact Hnew | intros Hc'; apply Hl', Hl, Hc'].
Qed.

Lemma update_lemma_metadata_steps lemma_id md db db' :
  update_lemma_metadata lemma_id md db = Ok db' -> rtc store_step db db'.
Proof.
  unfold update_lemma_metadata. intros Hup.
  destruct (negb _); [injection Hup as <-; reflexivity |].
  inv_bind Hup. inv_bind Hup. subst db'. apply rtc_once.
  exact (step_update db lemma_id a).
Qed.

Lemma insert_lemma_pos_steps lemma_id pos_id db :
  lemma_id ∈ lemma_ids db -> pos_id ∈ pos_ids db ->
  rtc store_step db (insert_lemma_pos lemma_id pos_id db).
Proof.
  intros Hl Hp. unfold insert_lemma_pos.
  destruct (existsb _ (lemma_pos_table db)) eqn:Hex; [reflexivity |].
  apply rtc_once. apply (step_lemma_pos db lemma_id pos_id Hl Hp).
  intros Hin. change (map lemma_pos_key (lemma_pos_table db))
    with (lemma_pos_key <$> lemma_pos_table db) in Hin.
  apply list_elem_of_fmap in Hin as (r & Hkey & Hr).
  assert (Htrue : existsb (fun r => (lp_lemma_id r =? lemma_id)%Z
                                    && (lp_pos_id r =? pos_id)%Z)
                          (lemma_pos_table db) = true); [| congruence].
  apply existsb_exists. exists r. split; [apply list_elem_of_In, Hr |].
  injection Hkey as -> ->. rewrite !Z.eqb_refl. reflexivity.
Qed.

Lemma sense_params_ids id lemma_id pos_id idx sense row :
  sense_params id lemma_id pos_id idx sense = Ok row ->
  s_id row = id /\ s_lemma_id row = lemma_id /\ s_pos_id row = pos_id
  /\ s_sense_order row = Z.of_nat idx.
Proof.
  unfold sense_params. intros Hrun. repeat inv_bind Hrun.
  destruct a1; [| discriminate]. injection Hrun as <-. cbn. tauto.
Qed.

Lemma import_senses_steps lemma_id pos_id idx senses db db' :
  lemma_id ∈ lemma_ids db -> pos_id ∈ pos_ids db ->
  import_senses lemma_id pos_id idx senses db = Ok db' -> rtc store_step db db'.
Proof.
  revert idx db. induction senses as [| sense senses IH]; intros idx db Hl Hp Hrun;
    cbn [import_senses] in Hrun.
  - injection Hrun as <-. reflexivity.
  - inv_bind Hrun. unfold import_sense in E. inv_bind E. inv_bind E. subst a.
    apply sense_params_ids in E0 as (Hid & Hlid & Hpid & _).
    eapply rtc_l.
    + apply (step_sense db a0); [exact Hid | rewrite Hlid; exact Hl | rewrite Hpid; exact Hp].
    + eapply IH; [| | exact Hrun]; assumption.
Qed.

Lemma resolve_dialect_steps parsed s :
  caches_coherent s ->
  rtc store_step (conn s) (conn (resolve_dialect parsed s).2)
  /\ caches_coherent (resolve_dialect parsed s).2
  /\ forall d, (resolve_dialect parsed s).1 = Some d ->
               d ∈ dialect_ids (conn (resolve_dialect parsed s).2).
Proof.
  intros Hcoh. unfold resolve_dialect.
  destruct (p_dialect parsed) as [code |]; [| cbn; split; [reflexivity | split; [assumption | discriminate]]].
  destruct (String.eqb code ""); [cbn; split; [reflexivity | split; [assumption | discriminate]] |].
  cbn [fst snd]. destruct (ensure_dialect_steps code s Hcoh) as (Hsteps & Hcoh' & Hin).
  split; [exact Hsteps |]. split; [exact Hcoh' |].
  intros d [= <-]. eapply entry_id, Hin.
Qed.

(** A form the admission filter keeps has a text, and not the placeholder. *)
Lemma should_keep_form_text fd text :
  should_keep_form (JObj fd) = Ok true -> as_str (dict_get "form" fd) = Ok text ->
  text <> "" /\ text <> "-".
Proof.
  unfold should_keep_form. cbn [as_dict mbind result_bind]. intros Hkeep Htext.
  destruct (dict_get "form" fd) as [| | | s | |]; try discriminate Htext.
  injection Htext as ->. cbn [truthy is_str] in Hkeep.
  destruct (String.eqb_spec text ""); [discriminate Hkeep |]. cbn [negb] in Hkeep.
  destruct (String.eqb_spec text "-"); [discriminate Hkeep |]. tauto.
Qed.

Lemma import_form_steps lemma_id pos_id pronoun_type governs_case form_entry s s' :
  caches_coherent s -> lemma_id ∈ lemma_ids (conn s) -> pos_id ∈ pos_ids (conn s) ->
  import_form lemma_id pos_id pronoun_type governs_case form_entry s = Ok s' ->
  rtc store_step (conn s) (conn s') /\ caches_coherent s'.
Proof.
  intros Hcoh Hl Hp Hrun. unfold import_form in Hrun. inv_bind Hrun.
  destruct a; cbn [negb] in Hrun; [| injection Hrun as <-; split; [reflexivity | assumption]].
  inv_bind Hrun. rename a into fd. inv_bind Hrun. rename a into text.
  inv_bind Hrun. rename a into raw. cbn zeta in Hrun. inv_bind Hrun. rename a into source.
  inv_bind Hrun. subst s'.
  destruct form_entry; try discriminate E0. injection E0 as ->.
  destruct (should_keep_form_text _ _ E E1) as [Hne Hdash].
  destruct (resolve_dialect_steps (parse_tags raw) s Hcoh) as (Hsteps & Hcoh' & Hd).
  set (ds := resolve_dialect (parse_tags raw) s) in *.
  pose proof (extends_ids _ _ (store_steps_extends _ _ Hsteps)) as (Hp' & _ & Hl').
  match goal with
  | |- context [insert_form ?row (conn ds.2)] =>
      assert (Hstep : store_step (conn ds.2) (insert_form row (conn ds.2)))
  end.
  { apply step_form; cbn [f_id f_lemma_id f_pos_id f_dialect_id f_form_norm f_form];
      auto. }
  cbn [conn with_conn]. split.
  - eapply rtc_r; [exact Hsteps | exact Hstep].
  - apply caches_coherent_extends; [exact Hcoh' | apply store_step_extends, Hstep].
Qed.

Lemma import_forms_steps lemma_id pos_id pronoun_type governs_case forms s s' :
  caches_coherent s -> lemma_id ∈ lemma_ids (conn s) -> pos_id ∈ pos_ids (conn s) ->
  foldM (import_form lemma_id pos_id pronoun_type governs_case) forms s = Ok s' ->
  rtc store_step (conn s) (conn s') /\ caches_coherent s'.
Proof.
  revert s. induction forms as [| fe forms IH]; intros s Hcoh Hl Hp Hrun;
    cbn [foldM] in Hrun.
  - injection Hrun as <-. split; [reflexivity | assumption].
  - inv_bind Hrun. rename a into s1.
    destruct (import_form_steps _ _ _ _ _ _ _ Hcoh Hl Hp E) as [Hsteps Hcoh1].
    pose proof (extends_ids _ _ (store_steps_extends _ _ Hsteps)) as (Hp' & _ & Hl').
    destruct (IH s1 Hcoh1 (Hl' _ Hl) (Hp' _ Hp) Hrun) as [Hsteps' Hcoh'].
    split; [etrans; eassumption | assumption].
Qed.

Lemma import_entry_steps pos_code headword entry s s' :
  caches_coherent s -> import_entry pos_code headword entry s = Ok s' ->
  rtc store_step (conn s) (conn s') /\ caches_coherent s'.
Proof.
  intros Hcoh Hrun. unfold import_entry in Hrun. cbn zeta in Hrun.
  inv_bind Hrun. rename a into hw. inv_bind Hrun. rename a into db1.
  inv_bind Hrun. rename a into pronoun_type. inv_bind Hrun. rename a into governs_case.
  inv_bind Hrun. rename a into senses. inv_bind Hrun. rename a into db3.
  inv_bind Hrun. rename a into forms.
  destruct (ensure_pos_steps pos_code s Hcoh) as (Hsteps1 & Hcoh1 & Hpos).
  set (ps := ensure_pos pos_code s) in *.
  destruct (ensure_lemma_steps hw ps.2 Hcoh1) as (Hsteps2 & Hcoh2 & Hlem).
  set (ls := ensure_lemma hw ps.2) in *.
  apply entry_id in Hpos. apply entry_id in Hlem.
  fold (pos_ids (conn ps.2)) in Hpos. fold (lemma_ids (conn ls.2)) in Hlem.
  pose proof (update_lemma_metadata_steps _ _ _ _ E0) as Hsteps3.
  assert (Hl3 : ls.1 ∈ lemma_ids db1).
  { apply (extends_ids _ _ (store_steps_extends _ _ Hsteps3)), Hlem. }
  assert (Hp3 : ps.1 ∈ pos_ids db1).
  { apply (extends_ids _ _ (store_steps_extends _ _ Hsteps3)).
    apply (extends_ids _ _ (store_steps_extends _ _ Hsteps2)), Hpos. }
  pose proof (insert_lemma_pos_steps _ _ _ Hl3 Hp3) as Hsteps4.
  assert (Hl4 : ls.1 ∈ lemma_ids (insert_lemma_pos ls.1 ps.1 db1)).
  { apply (extends_ids _ _ (store_steps_extends _ _ Hsteps4)), Hl3. }
  assert (Hp4 : ps.1 ∈ pos_ids (insert_lemma_pos ls.1 ps.1 db1)).
  { apply (extends_ids _ _ (store_steps_extends _ _ Hsteps4)), Hp3. }
  pose proof (import_senses_steps _ _ _ _ _ _ Hl4 Hp4 E4) as Hsteps5.
  assert (Hsteps25 : rtc store_step (conn ls.2) db3).
  { etrans; [exact Hsteps3 |]. etrans; [exact Hsteps4 | exact Hsteps5]. }
  assert (Hcoh5 : caches_coherent (with_conn db3 ls.2)).
  { apply caches_coherent_extends; [exact Hcoh2 | apply store_steps_extends, Hsteps25]. }
  destruct (import_forms_steps ls.1 ps.1 pronoun_type governs_case forms
              (with_conn db3 ls.2) s' Hcoh5) as [Hsteps6 Hcoh6].
  { apply (extends_ids _ _ (store_steps_extends _ _ Hsteps5)), Hl4. }
  { apply (extends_ids _ _ (store_steps_extends _ _ Hsteps5)), Hp4. }
  { exact Hrun. }
  split; [| exact Hcoh6].
  etrans; [exact Hsteps1 |]. etrans; [exact Hsteps2 |]. etrans; [exact Hsteps25 |].
  exact Hsteps6.
Qed.

Lemma import_line_steps allowed_pos commit_every ln st st' :
  caches_coherent (sess st) -> import_line allowed_pos commit_every ln st = Ok st' ->
  rtc store_step (conn (sess st)) (conn (sess st')) /\ caches_coherent (sess st').
Proof.
  intros Hcoh Hrun. unfold import_line in Hrun.
  destruct ln as [| | v];
    [injection Hrun as <-; split; [reflexivity | assumption] ..|].
  inv_bind Hrun.
  destruct (negb (is_str "grc" _));
    [injection Hrun as <-; split; [reflexivity | assumption] |].
  inv_bind Hrun.
  destruct (String.eqb _ "");
    [injection Hrun as <-; split; [reflexivity | assumption] |].
  destruct (negb (bool_decide _));
    [injection Hrun as <-; split; [reflexivity | assumption] |].
  destruct (negb (truthy _));
    [injection Hrun as <-; split; [reflexivity | assumption] |].
  inv_bind Hrun. destruct (commit_every =? 0)%Z; [discriminate |].
  injection Hrun as <-. cbn [sess]. eapply import_entry_steps; eassumption.
Qed.

Lemma empty_caches_coherent db :
  caches_coherent {| conn := db; pos_cache := ∅; dialect_cache := ∅; lemma_cache := ∅ |}.
Proof.
  unfold caches_coherent. cbn. repeat split; intros k id Hk; rewrite lookup_empty in Hk; discriminate.
Qed.

(** A run of the importer is a sequence of such statements. *)
Lemma import_jsonl_steps db lines allowed_pos commit_every st :
  import_jsonl db lines allowed_pos commit_every = Ok st ->
  rtc store_step db (conn (sess st)).
Proof.
  unfold import_jsonl.
  assert (Hgen : forall st0, caches_coherent (sess st0) ->
            foldM (import_line allowed_pos commit_every) lines st0 = Ok st ->
            rtc store_step (conn (sess st0)) (conn (sess st))).
  { induction lines as [| ln lines IH]; intros st0 Hcoh Hrun; cbn [foldM] in Hrun.
    - injection Hrun as <-. reflexivity.
    - inv_bind Hrun. destruct (import_line_steps _ _ _ _ _ Hcoh E) as [Hsteps Hcoh'].
      etrans; [exact Hsteps | apply IH; assumption]. }
  intros Hrun. apply Hgen in Hrun; [exact Hrun | apply empty_caches_coherent].
Qed.

Lemma NoDup_snoc {A} (l : list A) (x : A) : NoDup l -> x ∉ l -> NoDup (l ++ [x]).
Proof.
  intros Hl Hx. apply NoDup_app. split; [exact Hl |]. split; [| apply NoDup_singleton].
  intros y Hy Hin. apply list_elem_of_singleton in Hin. congruence.
Qed.

Lemma update_lemma_map {K} (key : lemma_row -> K) lemma_id p rows :
  (forall r, key (coalesce_row p r) = key r) ->
  map key (map (fun r => if (l_id r =? lemma_id)%Z then coalesce_row p r else r) rows)
  = map key rows.
Proof.
  intros Hkey. rewrite map_map. apply map_ext. intros r.
  destruct (l_id r =? lemma_id)%Z; [apply Hkey | reflexivity].
Qed.

Lemma unique_keys_step db db' : store_step db db' -> unique_keys db -> unique_keys db'.
Proof.
  intros Hstep (Hp & Hd & Hl).
  destruct Hstep; unfold unique_keys, pos_codes, dialect_codes, lemma_keys; cbn;
    rewrite ?map_app; cbn [map]; repeat split; try assumption;
    try (apply NoDup_snoc; assumption).
  unfold lemma_keys in Hl. rewrite update_lemma_map; [exact Hl | reflexivity].
Qed.

Lemma primary_keys_step db db' : store_step db db' -> primary_keys db -> primary_keys db'.
Proof.
  intros Hstep (Hp & Hd & Hl & Hlp & Hs & Hf).
  destruct Hstep; unfold primary_keys, pos_ids, dialect_ids, lemma_ids; cbn;
    rewrite ?map_app; cbn [map]; repeat split; try assumption;
    try (apply NoDup_snoc; [assumption | apply next_rowid_fresh]).
  - unfold lemma_ids in Hl. rewrite update_lemma_map; [exact Hl | reflexivity].
  - apply NoDup_snoc; assumption.
  - apply NoDup_snoc; [assumption |].
    match goal with Hid : s_id _ = _ |- _ => rewrite Hid end. apply next_rowid_fresh.
  - apply NoDup_snoc; [assumption |].
    match goal with Hid : f_id _ = _ |- _ => rewrite Hid end. apply next_rowid_fresh.
Qed.

Lemma references_step db db' :
  store_step db db' -> references_hold db -> references_hold db'.
Proof.
  intros Hstep (Hlp & Hs & Hf).
  pose proof (extends_ids _ _ (store_step_extends _ _ Hstep)) as (Hp' & Hd' & Hl').
  assert (Hold : (forall r, r ∈ lemma_pos_table db ->
                    lp_lemma_id r ∈ lemma_ids db' /\ lp_pos_id r ∈ pos_ids db')
                 /\ (forall r, r ∈ sense_table db ->
                       s_lemma_id r ∈ lemma_ids db' /\ s_pos_id r ∈ pos_ids db')
                 /\ (forall r, r ∈ form_table db ->
                       f_lemma_id r ∈ lemma_ids db' /\ f_pos_id r ∈ pos_ids db'
                       /\ forall d, f_dialect_id r = Some d -> d ∈ dialect_ids db')).
  { split; [| split]; intros r Hr.
    - destruct (Hlp r Hr). auto.
    - destruct (Hs r Hr). auto.
    - destruct (Hf r Hr) as (? & ? & Hdia). repeat split; auto. }
  clear Hlp Hs Hf. destruct Hold as (Hlp & Hs & Hf).
  destruct Hstep; unfold references_hold;
    cbn [insert_pos insert_dialect insert_lemma update_lemma link_lemma_pos insert_sense
         insert_form lemma_pos_table sense_table form_table] in *;
    (split; [| split]); try assumption; intros r Hr;
    apply elem_of_app in Hr as [Hr | Hr]; auto;
    apply list_elem_of_singleton in Hr; subst r; cbn; auto.
Qed.

Lemma normalized_step db db' : store_step db db' -> normalized db -> normalized db'.
Proof.
  intros Hstep (Hl & Hf).
  destruct Hstep; unfold normalized; cbn; (split; [| try assumption]); try assumption.
  - intros r Hr. apply elem_of_app in Hr as [Hr | Hr]; [auto |].
    apply list_elem_of_singleton in Hr. subst r. reflexivity.
  - intros r Hr. change (map ?f ?l) with (f <$> l) in Hr.
    apply list_elem_of_fmap in Hr as (r0 & -> & Hr0).
    destruct (l_id r0 =? lemma_id)%Z; cbn; auto.
  - intros r Hr. apply elem_of_app in Hr as [Hr | Hr]; [auto |].
    apply list_elem_of_singleton in Hr. subst r. assumption.
Qed.

Lemma forms_admitted_step db db' :
  store_step db db' -> forms_admitted db -> forms_admitted db'.
Proof.
  intros Hstep Hf. destruct Hstep; unfold forms_admitted; cbn; try assumption.
  intros r Hr. apply elem_of_app in Hr as [Hr | Hr]; [auto |].
  apply list_elem_of_singleton in Hr. subst r. tauto.
Qed.

Lemma store_steps_invariant (P : database -> Prop) :
  (forall db db', store_step db db' -> P db -> P db') ->
  forall db db', rtc store_step db db' -> P db -> P db'.
Proof. intros Hstep db db'. induction 1; eauto. Qed.

(** X3. The importer never stores a key twice: when POS codes, dialect
    codes and lemma keys (headword with normalized headword) are each held
    by at most one row before a run, they are so after it. *)
Theorem import_jsonl_keeps_unique_keys db lines allowed_pos commit_every st :
  unique_keys db ->
  import_jsonl db lines allowed_pos commit_every = Ok st ->
  unique_keys (conn (sess st)).
Proof.
  intros Hinv Hrun.
  eapply (store_steps_invariant unique_keys unique_keys_step);
    [eapply import_jsonl_steps, Hrun | exact Hinv].
Qed.

(** X4. The importer never reuses a primary key: when the ids of the POS,
    dialect, lemma, sense and form rows and the pairs of [lemma_pos] are
    distinct before a run, they are so after it. *)
Theorem import_jsonl_keeps_primary_keys db lines allowed_pos commit_every st :
  primary_keys db ->
  import_jsonl db lines allowed_pos commit_every = Ok st ->
  primary_keys (conn (sess st)).
Proof.
  intros Hinv Hrun.
  eapply (store_steps_invariant primary_keys primary_keys_step);
    [eapply import_jsonl_steps, Hrun | exact Hinv].
Qed.

(** X5. Referential integrity: when every [lemma_pos], sense and form row
    refers to a lemma, a POS and (where it names one) a dialect of the store
    before a run, every row does so after it, the new ones included. *)
Theorem import_jsonl_keeps_references db lines allowed_pos commit_every st :
  references_hold db ->
  import_jsonl db lines allowed_pos commit_every = Ok st ->
  references_hold (conn (sess st)).
Proof.
  intros Hinv Hrun.
  eapply (store_steps_invariant references_hold references_step);
    [eapply import_jsonl_steps, Hrun | exact Hinv].
Qed.

(** X6. The normalized columns stay in step with the text: when
    [headword_norm] of every lemma and [form_norm] of every form is the
    lowercased headword or form before a run, it is so after it. *)
Theorem import_jsonl_keeps_normalized db lines allowed_pos commit_every st :
  normalized db ->
  import_jsonl db lines allowed_pos commit_every = Ok st ->
  normalized (conn (sess st)).
Proof.
  intros Hinv Hrun.
  eapply (store_steps_invariant normalized normalized_step);
    [eapply import_jsonl_steps, Hrun | exact Hinv].
Qed.

(** X7. No run stores a form with an empty text or with the placeholder
    [-]: when no form row of the store has one before a run, none has
    after it. *)
Theorem import_jsonl_admits_forms db lines allowed_pos commit_every st :
  forms_admitted db ->
  import_jsonl db lines allowed_pos commit_every = Ok st ->
  forms_admitted (conn (sess st)).
Proof.
  intros Hinv Hrun.
  eapply (store_steps_invariant forms_admitted forms_admitted_step);
    [eapply import_jsonl_steps, Hrun | exact Hinv].
Qed.

(** X8. A run only appends: every POS, dialect, [lemma_pos], sense and
    form row of the store is still there afterwards, in its place and
    unchanged, and every lemma row keeps its place, id, headword, normalized
    headword, sort key and notes, and a value in every metadata column that
    had one. *)
Theorem import_jsonl_appends db lines allowed_pos commit_every st :
  import_jsonl db lines allowed_pos commit_every = Ok st ->
  extends db (conn (sess st)).
Proof. intros Hrun. eapply store_steps_extends, import_jsonl_steps, Hrun. Qed.

Lemma entries_functional {R K} (key : R -> K) (id : R -> Z) (rows : list R) k i j :
  NoDup (map key rows) ->
  (k, i) ∈ map (fun r => (key r, id r)) rows ->
  (k, j) ∈ map (fun r => (key r, id r)) rows -> i = j.
Proof.
  induction rows as [| r rows IH]; cbn [map]; intros Hnd Hi Hj.
  - by apply elem_of_nil in Hi.
  - apply NoDup_cons in Hnd as [Hr Hnd].
    assert (Hkey : forall x, (key r, x) ∈ map (fun r => (key r, id r)) rows -> False).
    { intros x Hx. apply Hr.
      change (map (fun r => (key r, id r)) rows) with ((fun r => (key r, id r)) <$> rows) in Hx.
      apply list_elem_of_fmap in Hx as (r' & Heq & Hr'). cbn beta in Heq.
      injection Heq as Hk _. rewrite Hk. by apply elem_of_map_key. }
    apply elem_of_cons in Hi as [Hi | Hi]; apply elem_of_cons in Hj as [Hj | Hj].
    + congruence.
    + injection Hi as -> _. exfalso. eapply Hkey, Hj.
    + injection Hj as -> _. exfalso. eapply Hkey, Hi.
    + apply IH; assumption.
Qed.

Lemma entry_key {R K} (key : R -> K) (id : R -> Z) (k : K) (i : Z) (rows : list R) :
  (k, i) ∈ map (fun r => (key r, id r)) rows -> k ∈ map key rows.
Proof.
  intros Hin. change (map (fun r => (key r, id r)) rows)
    with ((fun r => (key r, id r)) <$> rows) in Hin.
  apply list_elem_of_fmap in Hin as (r & [= -> ->] & Hr). by apply elem_of_map_key.
Qed.

(** X9. [ensure_pos] resolves a code to the id of its row: from caches
    that agree with the store, the id returned is the id of a row with the
    code; a code the store holds leaves the store as it is and, codes being
    unique, gets the id of its row; a code it does not hold gets one new row,
    with an id not in use; and asking again returns the same id and changes
    nothing. *)
Theorem ensure_pos_resolves code s :
  caches_coherent s ->
  (code, (ensure_pos code s).1) ∈ pos_entries (conn (ensure_pos code s).2)
  /\ caches_coherent (ensure_pos code s).2
  /\ (code ∈ pos_codes (conn s) -> conn (ensure_pos code s).2 = conn s)
  /\ (forall id, NoDup (pos_codes (conn s)) -> (code, id) ∈ pos_entries (conn s) ->
                 (ensure_pos code s).1 = id)
  /\ (code ∉ pos_codes (conn s) ->
      conn (ensure_pos code s).2
      = insert_pos {| pos_id := (ensure_pos code s).1; pos_code := code |} (conn s)
      /\ (ensure_pos code s).1 ∉ pos_ids (conn s))
  /\ ensure_pos code (ensure_pos code s).2 = ensure_pos code s.
Proof.
  intros Hcoh. destruct (ensure_pos_steps code s Hcoh) as (_ & Hcoh' & Hin).
  split; [exact Hin |]. split; [exact Hcoh' |]. split; [apply ensure_pos_present |].
  split; [| split].
  - intros id Hnd Hid.
    assert (Hcode : code ∈ pos_codes (conn s)) by (eapply entry_key, Hid).
    rewrite (ensure_pos_present code s Hcode) in Hin.
    eapply (entries_functional pos_code pos_id); eassumption.
  - intros Hnew. destruct Hcoh as (Hp & _). unfold ensure_pos.
    destruct (pos_cache s !! code) as [id |] eqn:Hc.
    { exfalso. apply Hnew. eapply entry_key, Hp, Hc. }
    pose proof (find_key pos_code (fun r => String.eqb (pos_code r) code) code
                  (pos_table (conn s)) (fun r => String.eqb_eq (pos_code r) code)) as Hf.
    destruct (List.find _ (pos_table (conn s))) as [row |]; cbn [fst snd conn].
    { exfalso. destruct Hf as [<- Hrow]. apply Hnew. by apply elem_of_map_key. }
    split; [reflexivity | apply next_rowid_fresh].
  - unfold ensure_pos at 2 3.
    destruct (pos_cache s !! code) as [id |] eqn:Hc.
    { cbn [snd]. unfold ensure_pos. rewrite Hc. reflexivity. }
    destruct (List.find _ (pos_table (conn s))) as [row |]; cbn [snd];
      unfold ensure_pos; cbn [pos_cache]; rewrite lookup_insert;
      (case_decide; [reflexivity | congruence]).
Qed.

(** X10. [ensure_dialect] resolves a code to the id of its row, as
    [ensure_pos] does: the id returned is the id of a row with the code; a
    code the store holds leaves the store as it is and, codes being unique,
    gets the id of its row; a code it does not hold gets one new row, with an
    id not in use; and asking again returns the same id and changes
    nothing. *)
Theorem ensure_dialect_resolves code s :
  caches_coherent s ->
  (code, (ensure_dialect code s).1) ∈ dialect_entries (conn (ensure_dialect code s).2)
  /\ caches_coherent (ensure_dialect code s).2
  /\ (code ∈ dialect_codes (conn s) -> conn (ensure_dialect code s).2 = conn s)
  /\ (forall id, NoDup (dialect_codes (conn s)) ->
                 (code, id) ∈ dialect_entries (conn s) -> (ensure_dialect code s).1 = id)
  /\ (code ∉ dialect_codes (conn s) ->
      conn (ensure_dialect code s).2
      = insert_dialect {| dialect_id := (ensure_dialect code s).1; dialect_code := code |}
                       (conn s)
      /\ (ensure_dialect code s).1 ∉ dialect_ids (conn s))
  /\ ensure_dialect code (ensure_dialect code s).2 = ensure_dialect code s.
Proof.
  intros Hcoh. destruct (ensure_dialect_steps code s Hcoh) as (_ & Hcoh' & Hin).
  split; [exact Hin |]. split; [exact Hcoh' |]. split; [apply ensure_dialect_present |].
  split; [| split].
  - intros id Hnd Hid.
    assert (Hcode : code ∈ dialect_codes (conn s)) by (eapply entry_key, Hid).
    rewrite (ensure_dialect_present code s Hcode) in Hin.
    eapply (entries_functional dialect_code dialect_id); eassumption.
  - intros Hnew. destruct Hcoh as (_ & Hd & _). unfold ensure_dialect.
    destruct (dialect_cache s !! code) as [id |] eqn:Hc.
    { exfalso. apply Hnew. eapply entry_key, Hd, Hc. }
    pose proof (find_key dialect_code (fun r => String.eqb (dialect_code r) code) code
                  (dialect_table (conn s))
                  (fun r => String.eqb_eq (dialect_code r) code)) as Hf.
    destruct (List.find _ (dialect_table (conn s))) as [row |]; cbn [fst snd conn].
    { exfalso. destruct Hf as [<- Hrow]. apply Hnew. by apply elem_of_map_key. }
    split; [reflexivity | apply next_rowid_fresh].
  - unfold ensure_dialect at 2 3.
    destruct (dialect_cache s !! code) as [id |] eqn:Hc.
    { cbn [snd]. unfold ensure_dialect. rewrite Hc. reflexivity. }
    destruct (List.find _ (dialect_table (conn s))) as [row |]; cbn [snd];
      unfold ensure_dialect; cbn [dialect_cache]; rewrite lookup_insert;
      (case_decide; [reflexivity | congruence]).
Qed.

(** X11. [ensure_lemma] resolves a headword to the id of the lemma row
    with that headword and its lowercased form: the id returned is the id of
    such a row; a key the store holds leaves the store as it is and, keys
    being unique, gets the id of its row; a key it does not hold gets one new
    row without metadata, with an id not in use; and asking again returns the
    same id and changes nothing. *)
Theorem ensure_lemma_resolves headword s :
  caches_coherent s ->
  ((headword, normalize headword), (ensure_lemma headword s).1)
    ∈ lemma_entries (conn (ensure_lemma headword s).2)
  /\ caches_coherent (ensure_lemma headword s).2
  /\ ((headword, normalize headword) ∈ lemma_keys (conn s) ->
      conn (ensure_lemma headword s).2 = conn s)
  /\ (forall id, NoDup (lemma_keys (conn s)) ->
                 ((headword, normalize headword), id) ∈ lemma_entries (conn s) ->
                 (ensure_lemma headword s).1 = id)
  /\ ((headword, normalize headword) ∉ lemma_keys (conn s) ->
      conn (ensure_lemma headword s).2
      = insert_lemma (new_lemma (ensure_lemma headword s).1 headword (normalize headword))
                     (conn s)
      /\ (ensure_lemma headword s).1 ∉ lemma_ids (conn s))
  /\ ensure_lemma headword (ensure_lemma headword s).2 = ensure_lemma headword s.
Proof.
  intros Hcoh. destruct (ensure_lemma_steps headword s Hcoh) as (_ & Hcoh' & Hin).
  split; [exact Hin |]. split; [exact Hcoh' |]. split; [apply ensure_lemma_present |].
  split; [| split].
  - intros id Hnd Hid.
    assert (Hkey : (headword, normalize headword) ∈ lemma_keys (conn s))
      by (eapply entry_key, Hid).
    rewrite (ensure_lemma_present headword s Hkey) in Hin.
    eapply (entries_functional lemma_key l_id); eassumption.
  - intros Hnew. destruct Hcoh as (_ & _ & Hl). unfold ensure_lemma. cbn zeta.
    destruct (lemma_cache s !! (headword, normalize headword)) as [id |] eqn:Hc.
    { exfalso. apply Hnew. eapply entry_key, Hl, Hc. }
    pose proof (find_key lemma_key
                  (fun r => String.eqb (l_headword r) headword
                            && String.eqb (l_headword_norm r) (normalize headword))
                  (headword, normalize headword) (lemma_table (conn s))
                  (lemma_test_key headword (normalize headword))) as Hf.
    destruct (List.find _ (lemma_table (conn s))) as [row |]; cbn [fst snd conn].
    { exfalso. destruct Hf as [Hk Hrow]. apply Hnew. rewrite <- Hk.
      by apply elem_of_map_key. }
    split; [reflexivity | apply next_rowid_fresh].
  - unfold ensure_lemma at 2 3. cbv zeta.
    destruct (lemma_cache s !! (headword, normalize headword)) as [id |] eqn:Hc.
    { cbn [snd]. unfold ensure_lemma. cbv zeta. rewrite Hc. reflexivity. }
    destruct (List.find _ (lemma_table (conn s))) as [row |]; cbn [snd];
      unfold ensure_lemma; cbv zeta; cbn [lemma_cache]; rewrite lookup_insert;
      (case_decide; [reflexivity | congruence]).
Qed.

End Integrity.

(** ** The classifier, slot by slot *)

Section Slots.
Context `{Host}.

Lemma elem_of_tags_lc (tags : list string) (k : string) :
  k ∈ tags_lc tags <-> exists t, t ∈ tags /\ str_lower t = k.
Proof.
  unfold tags_lc. rewrite elem_of_list_to_set, list_elem_of_fmap.
  split; intros (t & Ht & Hin); exists t; split; congruence.
Qed.

(** [pick] returns the value of the first key that is a tag. *)
Lemma pick_first lc V :
  match pick lc V with
  | Some v => exists pre k post,
                V = pre ++ (k, v) :: post /\ k ∈ lc /\ forall k', k' ∈ map fst pre -> k' ∉ lc
  | None => forall k, k ∈ map fst V -> k ∉ lc
  end.
Proof.
  induction V as [| [k v] V IH]; cbn [pick].
  - intros k Hk. by apply elem_of_nil in Hk.
  - case_bool_decide as Hin.
    + exists [], k, V. split; [reflexivity |]. split; [exact Hin |].
      intros k' Hk'. by apply elem_of_nil in Hk'.
    + destruct (pick lc V) as [v' |].
      * destruct IH as (pre & k0 & post & -> & Hk0 & Hpre).
        exists ((k, v) :: pre), k0, post. split; [reflexivity |]. split; [exact Hk0 |].
        intros k' Hk'. cbn in Hk'. apply elem_of_cons in Hk' as [-> | Hk']; auto.
      * intros k' Hk'. cbn in Hk'. apply elem_of_cons in Hk' as [-> | Hk']; auto.
Qed.

Lemma slot_is_pick tags slot V :
  (slot, V) ∈ slots -> slot (parse_tags tags) = pick (tags_lc tags) V.
Proof.
  unfold slots. intros Hin.
  repeat (apply elem_of_cons in Hin as [[= -> ->] | Hin]; [reflexivity |]).
  by apply elem_of_nil in Hin.
Qed.

Lemma slot_keys_are_values slot V k v :
  (slot, V) ∈ slots -> (k, v) ∈ V -> k = v.
Proof.
  unfold slots. intros Hin Hkv.
  repeat (apply elem_of_cons in Hin as [[= -> ->] | Hin];
          [repeat (apply elem_of_cons in Hkv as [[= -> ->] | Hkv]; [reflexivity |]);
           by apply elem_of_nil in Hkv |]).
  by apply elem_of_nil in Hin.
Qed.

(** X12. What [parse_tags] puts in a slot: nothing exactly when no tag
    lowercases to a key of the slot's vocabulary; otherwise a value of that
    vocabulary that is the lowercased form of one of the tags, namely that of
    the first key, in declaration order, that some tag lowercases to. *)
Theorem parse_tags_fills_slots tags slot V :
  (slot, V) ∈ slots ->
  (slot (parse_tags tags) = None
   <-> forall t, t ∈ tags -> str_lower t ∉ map fst V)
  /\ (forall v, slot (parse_tags tags) = Some v ->
        v ∈ map snd V /\ exists t, t ∈ tags /\ str_lower t = v)
  /\ (forall pre k v post,
        V = pre ++ (k, v) :: post ->
        (exists t, t ∈ tags /\ str_lower t = k) ->
        (forall k' t, k' ∈ map fst pre -> t ∈ tags -> str_lower t <> k') ->
        slot (parse_tags tags) = Some v).
Proof.
  intros Hslot. rewrite (slot_is_pick tags slot V Hslot).
  pose proof (pick_first (tags_lc tags) V) as Hpick.
  split; [| split].
  - destruct (pick (tags_lc tags) V) as [v |].
    + destruct Hpick as (pre & k & post & -> & Hk & _). split; [discriminate |].
      intros Hno. exfalso. apply elem_of_tags_lc in Hk as (t & Ht & Hlc).
      apply (Hno t Ht). rewrite Hlc, map_app, elem_of_app. right. cbn. left.
    + split; [| reflexivity]. intros _ t Ht Hin. apply (Hpick _ Hin).
      apply elem_of_tags_lc. eauto.
  - intros v Hv. rewrite Hv in Hpick. destruct Hpick as (pre & k & post & HV & Hk & _).
    assert (Hkv : (k, v) ∈ V) by (rewrite HV, elem_of_app; right; left).
    pose proof (slot_keys_are_values slot V k v Hslot Hkv) as ->.
    split; [| by apply elem_of_tags_lc].
    change v with (snd (v, v)). by apply elem_of_map_key.
  - intros pre k v post HV Hk Hpre. subst V. clear Hpick Hslot.
    induction pre as [| [k0 v0] pre IH]; cbn [app pick].
    + rewrite bool_decide_eq_true_2; [reflexivity | by apply elem_of_tags_lc].
    + rewrite bool_decide_eq_false_2.
      * apply IH. intros k' t Hk'. apply Hpre. cbn. by right.
      * intros Hin. apply elem_of_tags_lc in Hin as (t & Ht & Hlc).
        apply (Hpre k0 t); [cbn; left | exact Ht | exact Hlc].
Qed.

End Slots.

(** ** The rows of an entry *)

Section EntryRowsProofs.
Context `{Host}.

Lemma sense_params_row id lemma_id pos_id idx sense row :
  sense_params id lemma_id pos_id idx sense = Ok row ->
  s_id row = id /\ s_sense_order row = Z.of_nat idx
  /\ sense_row_of lemma_id pos_id sense row.
Proof.
  unfold sense_params, sense_row_of. intros Hrun.
  destruct (as_dict sense) as [sd |]; cbn [mbind result_bind] in Hrun; [| discriminate].
  destruct (extract_gloss sense) as [[g d] |]; cbn [mbind result_bind fst snd] in Hrun;
    [| discriminate].
  destruct (bind_param g) as [og |] eqn:Hg; cbn [mbind result_bind] in Hrun;
    [| discriminate].
  destruct (bind_param d) as [od |] eqn:Hd; cbn [mbind result_bind] in Hrun;
    [| discriminate].
  repeat inv_bind Hrun. destruct og as [gv |]; [| discriminate].
  injection Hrun as <-. cbn. repeat split. exists g, d. tauto.
Qed.

(** The loop over the senses appends one row per sense, in order, numbered
    from [idx]. *)
Lemma import_senses_rows lemma_id pos_id idx senses db db' :
  import_senses lemma_id pos_id idx senses db = Ok db' ->
  exists rows,
    sense_table db' = sense_table db ++ rows
    /\ Forall2 (sense_row_of lemma_id pos_id) senses rows
    /\ map s_sense_order rows = map Z.of_nat (seq idx (length senses)).
Proof.
  revert idx db. induction senses as [| sense senses IH]; intros idx db Hrun;
    cbn [import_senses] in Hrun.
  - injection Hrun as <-. exists []. rewrite app_nil_r. repeat split. constructor.
  - inv_bind Hrun. unfold import_sense in E. inv_bind E. inv_bind E. subst a.
    apply sense_params_row in E0 as (_ & Hord & Hrow).
    apply IH in Hrun as (rows & Htab & Hrows & Hords).
    exists (a0 :: rows). split; [| split].
    + rewrite Htab. cbn [insert_sense sense_table]. rewrite <- app_assoc. reflexivity.
    + constructor; assumption.
    + cbn [map length seq]. rewrite Hord, Hords. reflexivity.
Qed.

Lemma caches_coherent_sound s : caches_coherent s -> caches_sound s.
Proof.
  intros (Hp & Hd & Hl). split; [| split]; intros k id Hk.
  - eapply entry_key, Hp, Hk.
  - eapply entry_key, Hd, Hk.
  - eapply entry_key, Hl, Hk.
Qed.

Lemma pick_value lc V v : pick lc V = Some v -> v ∈ map snd V.
Proof.
  induction V as [| [k v'] V IH]; cbn [pick map snd]; [discriminate |].
  case_bool_decide; [intros [= ->]; left | intros Hv; right; auto].
Qed.

Lemma dialect_value_named tags code : p_dialect (parse_tags tags) = Some code -> code <> "".
Proof.
  cbn [parse_tags p_dialect]. intros Hpick. apply pick_value in Hpick.
  cbn in Hpick. intros ->.
  repeat (apply elem_of_cons in Hpick as [Hpick | Hpick]; [discriminate Hpick |]).
  by apply elem_of_nil in Hpick.
Qed.

Lemma resolve_dialect_senses parsed s :
  sense_table (conn (resolve_dialect parsed s).2) = sense_table (conn s).
Proof.
  unfold resolve_dialect. destruct (p_dialect parsed) as [code |]; [| reflexivity].
  destruct (String.eqb code ""); [reflexivity |]. cbn [snd]. unfold ensure_dialect.
  destruct (dialect_cache s !! code); [reflexivity |].
  destruct (List.find _ (dialect_table (conn s))); reflexivity.
Qed.

Lemma form_row_of_extends db db' lemma_id pos_id pronoun_type governs_case fe row :
  extends db db' ->
  form_row_of db lemma_id pos_id pronoun_type governs_case fe row ->
  form_row_of db' lemma_id pos_id pronoun_type governs_case fe row.
Proof.
  intros Hext (fd & raw & Hfe & Hform & Hnorm & Hraw & Hfeat & Hdia & Hrest).
  exists fd, raw. repeat (split; [assumption |]).
  split; [| exact Hrest].
  destruct (p_dialect (parse_tags raw)) as [code |]; [| exact Hdia].
  destruct Hdia as (id & Hid & Hin). exists id. split; [exact Hid |].
  apply (extends_entries _ _ Hext), Hin.
Qed.

(** One pass of the loop over the forms: nothing for a form the filter
    rejects, one row for a form it keeps. *)
Lemma import_form_row lemma_id pos_id pronoun_type governs_case fe s s' :
  caches_coherent s ->
  import_form lemma_id pos_id pronoun_type governs_case fe s = Ok s' ->
  sense_table (conn s') = sense_table (conn s)
  /\ exists rows,
       form_table (conn s') = form_table (conn s) ++ rows
       /\ Forall2 (form_row_of (conn s') lemma_id pos_id pronoun_type governs_case)
                  (List.filter kept [fe]) rows.
Proof.
  intros Hcoh Hrun. unfold import_form in Hrun. cbn [List.filter]. unfold kept.
  destruct (should_keep_form fe) as [keep |] eqn:Hkeep; cbn [mbind result_bind] in Hrun;
    [| discriminate].
  destruct keep; cbn [negb] in Hrun.
  2:{ injection Hrun as <-. split; [reflexivity |]. exists []. rewrite app_nil_r.
      split; [reflexivity | constructor]. }
  inv_bind Hrun. rename a into fd. inv_bind Hrun. rename a into text.
  inv_bind Hrun. rename a into raw. cbn zeta in Hrun. inv_bind Hrun. rename a into source.
  inv_bind Hrun. subst s'.
  destruct fe; try discriminate E. injection E as ->.
  destruct (dict_get "form" fd) as [| | | text' | |] eqn:Hform; try discriminate E0.
  injection E0 as ->.
  destruct (resolve_dialect_steps (parse_tags raw) s Hcoh) as (_ & Hcoh' & _).
  cbn [conn with_conn insert_form sense_table form_table].
  split; [apply resolve_dialect_senses |].
  eexists [_]. split; [rewrite resolve_dialect_forms; reflexivity |].
  constructor; [| constructor].
  exists fd, raw. cbn [f_form f_form_norm f_dialect_id f_lemma_id f_pos_id f_pronoun_type
                       f_governs_case f_is_principal_part f_tags f_source form_features
                       f_tense f_mood f_voice f_person f_number f_grammatical_case
                       f_gender f_degree f_verb_form_type].
  repeat (split; [reflexivity || assumption |]).
  split; [| repeat split; assumption].
  unfold resolve_dialect.
  destruct (p_dialect (parse_tags raw)) as [code |] eqn:Hcode; [| reflexivity].
  apply dialect_value_named in Hcode.
  destruct (String.eqb_spec code ""); [contradiction |]. cbn [fst snd].
  destruct (ensure_dialect_steps code s Hcoh) as (_ & _ & Hin).
  exists (ensure_dialect code s).1. split; [reflexivity |]. exact Hin.
Qed.

Lemma filter_cons_app {A} (f : A -> bool) (x : A) (l : list A) :
  List.filter f (x :: l) = List.filter f [x] ++ List.filter f l.
Proof. cbn. destruct (f x); reflexivity. Qed.

(** The loop over the forms appends one row per form the filter keeps, in
    order. *)
Lemma import_forms_rows lemma_id pos_id pronoun_type governs_case forms s s' :
  caches_coherent s -> lemma_id ∈ lemma_ids (conn s) -> pos_id ∈ pos_ids (conn s) ->
  foldM (import_form lemma_id pos_id pronoun_type governs_case) forms s = Ok s' ->
  sense_table (conn s') = sense_table (conn s)
  /\ exists rows,
       form_table (conn s') = form_table (conn s) ++ rows
       /\ Forall2 (form_row_of (conn s') lemma_id pos_id pronoun_type governs_case)
                  (List.filter kept forms) rows.
Proof.
  revert s. induction forms as [| fe forms IH]; intros s Hcoh Hl Hp Hrun;
    cbn [foldM] in Hrun.
  - injection Hrun as <-. split; [reflexivity |]. exists []. rewrite app_nil_r.
    split; [reflexivity | constructor].
  - inv_bind Hrun. rename a into s1.
    destruct (import_form_steps _ _ _ _ _ _ _ Hcoh Hl Hp E) as [Hsteps Hcoh1].
    pose proof (extends_ids _ _ (store_steps_extends _ _ Hsteps)) as (Hp' & _ & Hl').
    destruct (import_form_row _ _ _ _ _ _ _ Hcoh E) as (Hs1 & rows1 & Hf1 & Hrows1).
    destruct (import_forms_steps _ _ _ _ _ _ _ Hcoh1 (Hl' _ Hl) (Hp' _ Hp) Hrun)
      as [Hsteps' _].
    destruct (IH s1 Hcoh1 (Hl' _ Hl) (Hp' _ Hp) Hrun) as (Hs2 & rows2 & Hf2 & Hrows2).
    split; [congruence |]. exists (rows1 ++ rows2).
    split; [rewrite Hf2, Hf1, <- app_assoc; reflexivity |].
    rewrite filter_cons_app. apply Forall2_app; [| exact Hrows2].
    eapply Forall2_impl; [exact Hrows1 |]. intros fe' row.
    apply form_row_of_extends, store_steps_extends, Hsteps'.
Qed.

(** The rows [import_entry] adds, with the ids they carry. *)
Lemma import_entry_adds pos_code headword entry s s' :
  caches_coherent s ->
  import_entry pos_code (JStr headword) entry s = Ok s' ->
  exists lemma_id pos_id senses forms sense_rows form_rows pronoun_type governs_case,
    (pos_code, pos_id) ∈ pos_entries (conn s')
    /\ ((headword, normalize headword), lemma_id) ∈ lemma_entries (conn s')
    /\ (lemma_id, pos_id) ∈ map lemma_pos_key (lemma_pos_table (conn s'))
    /\ py_iter (py_or (dict_get "senses" entry) (JArr [])) = Ok senses
    /\ py_iter (py_or (dict_get "forms" entry) (JArr [])) = Ok forms
    /\ sense_table (conn s') = sense_table (conn s) ++ sense_rows
    /\ Forall2 (sense_row_of lemma_id pos_id) senses sense_rows
    /\ map s_sense_order sense_rows = map Z.of_nat (seq 0 (length senses))
    /\ form_table (conn s') = form_table (conn s) ++ form_rows
    /\ Forall2 (form_row_of (conn s') lemma_id pos_id pronoun_type governs_case)
               (List.filter kept forms) form_rows
    /\ (pos_code <> "pron" -> pronoun_type = None)
    /\ (pos_code <> "prep" -> governs_case = None).
Proof.
  intros Hcoh Hrun. unfold import_entry in Hrun. cbn zeta in Hrun.
  cbn [as_str mbind result_bind] in Hrun.
  inv_bind Hrun. rename a into db1.
  inv_bind Hrun. rename a into pronoun_type. inv_bind Hrun. rename a into governs_case.
  inv_bind Hrun. rename a into senses. inv_bind Hrun. rename a into db3.
  inv_bind Hrun. rename a into forms.
  pose proof (caches_coherent_sound _ Hcoh) as Hsound.
  destruct (ensure_pos_steps pos_code s Hcoh) as (Hsteps1 & Hcoh1 & Hpos).
  destruct (ensure_pos_grows pos_code s Hsound) as (Hsound1 & _ & _ & Hs1 & Hf1).
  set (ps := ensure_pos pos_code s) in *.
  destruct (ensure_lemma_steps headword ps.2 Hcoh1) as (Hsteps2 & Hcoh2 & Hlem).
  destruct (ensure_lemma_grows headword ps.2 Hsound1) as (_ & _ & _ & Hs2 & Hf2).
  set (ls := ensure_lemma headword ps.2) in *.
  pose proof (entry_id _ _ _ _ _ Hpos) as Hpid. pose proof (entry_id _ _ _ _ _ Hlem) as Hlid.
  fold (pos_ids (conn ps.2)) in Hpid. fold (lemma_ids (conn ls.2)) in Hlid.
  pose proof (update_lemma_metadata_steps _ _ _ _ E) as Hsteps3.
  destruct (update_lemma_metadata_frame _ _ _ _ E) as (_ & Hs3 & Hf3).
  assert (Hl3 : ls.1 ∈ lemma_ids db1).
  { apply (extends_ids _ _ (store_steps_extends _ _ Hsteps3)), Hlid. }
  assert (Hp3 : ps.1 ∈ pos_ids db1).
  { apply (extends_ids _ _ (store_steps_extends _ _ Hsteps3)).
    apply (extends_ids _ _ (store_steps_extends _ _ Hsteps2)), Hpid. }
  pose proof (insert_lemma_pos_steps _ _ _ Hl3 Hp3) as Hsteps4.
  destruct (insert_lemma_pos_frame ls.1 ps.1 db1) as (_ & Hs4 & Hf4).
  set (db2 := insert_lemma_pos ls.1 ps.1 db1) in *.
  assert (Hlink : (ls.1, ps.1) ∈ map lemma_pos_key (lemma_pos_table db2)).
  { subst db2. unfold insert_lemma_pos.
    destruct (existsb _ (lemma_pos_table db1)) eqn:Hex.
    - apply existsb_exists in Hex as (r & Hr & Hkey).
      apply andb_true_iff in Hkey as [Hk1 Hk2].
      apply Z.eqb_eq in Hk1, Hk2. rewrite <- Hk1, <- Hk2.
      apply (elem_of_map_key lemma_pos_key), list_elem_of_In, Hr.
    - cbn [lemma_pos_table]. eapply (elem_of_map_snoc lemma_pos_key). reflexivity. }
  assert (Hl4 : ls.1 ∈ lemma_ids db2).
  { apply (extends_ids _ _ (store_steps_extends _ _ Hsteps4)), Hl3. }
  assert (Hp4 : ps.1 ∈ pos_ids db2).
  { apply (extends_ids _ _ (store_steps_extends _ _ Hsteps4)), Hp3. }
  pose proof (import_senses_steps _ _ _ _ _ _ Hl4 Hp4 E3) as Hsteps5.
  destruct (import_senses_rows _ _ _ _ _ _ E3) as (sense_rows & Hsense & Hsrows & Hord).
  destruct (import_senses_frame _ _ _ _ _ _ E3) as (_ & _ & Hf5).
  assert (Hsteps25 : rtc store_step (conn ls.2) db3).
  { etrans; [exact Hsteps3 |]. etrans; [exact Hsteps4 | exact Hsteps5]. }
  assert (Hcoh5 : caches_coherent (with_conn db3 ls.2)).
  { apply caches_coherent_extends; [exact Hcoh2 | apply store_steps_extends, Hsteps25]. }
  assert (Hl5 : ls.1 ∈ lemma_ids (conn (with_conn db3 ls.2))).
  { apply (extends_ids _ _ (store_steps_extends _ _ Hsteps5)), Hl4. }
  assert (Hp5 : ps.1 ∈ pos_ids (conn (with_conn db3 ls.2))).
  { apply (extends_ids _ _ (store_steps_extends _ _ Hsteps5)), Hp4. }
  destruct (import_forms_steps _ _ _ _ _ _ _ Hcoh5 Hl5 Hp5 Hrun) as [Hsteps6 _].
  destruct (import_forms_rows _ _ _ _ _ _ _ Hcoh5 Hl5 Hp5 Hrun)
    as (Hs6 & form_rows & Hform & Hfrows).
  cbn [conn with_conn] in Hsteps6, Hs6, Hform.
  pose proof (store_steps_extends _ _ Hsteps6) as Hext6.
  pose proof (store_steps_extends _ _ Hsteps25) as Hext25.
  exists ls.1, ps.1, senses, forms, sense_rows, form_rows, pronoun_type, governs_case.
  split.
  { apply (extends_entries _ _ Hext6), (extends_entries _ _ Hext25).
    apply (extends_entries _ _ (store_steps_extends _ _ Hsteps2)), Hpos. }
  split.
  { apply (extends_entries _ _ Hext6), (extends_entries _ _ Hext25), Hlem. }
  split.
  { eapply elem_of_prefix; [| exact Hlink]. apply prefix_map.
    transitivity (lemma_pos_table db3).
    - apply (store_steps_extends _ _ Hsteps5).
    - apply Hext6. }
  split; [reflexivity |]. split; [reflexivity |].
  split; [rewrite Hs6, Hsense, Hs4, Hs3, Hs2, Hs1; reflexivity |].
  split; [exact Hsrows |]. split; [exact Hord |].
  split; [rewrite Hform, Hf5, Hf4, Hf3, Hf2, Hf1; reflexivity |].
  split; [exact Hfrows |].
  split.
  - intros Hpron. destruct (String.eqb_spec pos_code "pron"); [contradiction |].
    by injection E0.
  - intros Hprep. destruct (String.eqb_spec pos_code "prep"); [contradiction |].
    by injection E1.
Qed.

(** X13. What an accepted entry adds.  [import_entry] resolves the POS
    code and the headword to rows of the store and links them in
    [lemma_pos]; it appends one sense row per sense, in the order of the
    entry and numbered from 0, with the gloss and definition of
    [extract_gloss]; it appends one form row per form the admission filter
    keeps, in order, with the text as it came and lowercased, the features
    [parse_tags] reads off its tags and the row of its dialect; every new row
    carries the lemma and POS ids of the entry; and a form row has a pronoun
    type only when the POS is [pron], a governed case only when it is
    [prep]. *)
Theorem import_entry_rows pos_code headword entry s s' :
  caches_coherent s ->
  import_entry pos_code (JStr headword) entry s = Ok s' ->
  exists lemma_id pos_id senses forms sense_rows form_rows pronoun_type governs_case,
    (pos_code, pos_id) ∈ pos_entries (conn s')
    /\ ((headword, normalize headword), lemma_id) ∈ lemma_entries (conn s')
    /\ (lemma_id, pos_id) ∈ map lemma_pos_key (lemma_pos_table (conn s'))
    /\ py_iter (py_or (dict_get "senses" entry) (JArr [])) = Ok senses
    /\ py_iter (py_or (dict_get "forms" entry) (JArr [])) = Ok forms
    /\ sense_table (conn s') = sense_table (conn s) ++ sense_rows
    /\ Forall2 (sense_row_of lemma_id pos_id) senses sense_rows
    /\ map s_sense_order sense_rows = map Z.of_nat (seq 0 (length senses))
    /\ form_table (conn s') = form_table (conn s) ++ form_rows
    /\ Forall2 (form_row_of (conn s') lemma_id pos_id pronoun_type governs_case)
               (List.filter kept forms) form_rows
    /\ (pos_code <> "pron" -> pronoun_type = None)
    /\ (pos_code <> "prep" -> governs_case = None).
Proof. apply import_entry_adds. Qed.

End EntryRowsProofs.

(** ** The skip report *)

Lemma ascii_compare_lt (a b : ascii) :
  Ascii.compare a b = Lt <-> (N_of_ascii a < N_of_ascii b)%N.
Proof. unfold Ascii.compare. apply N.compare_lt_iff. Qed.

Lemma ascii_compare_eq (a b : ascii) : Ascii.compare a b = Eq <-> a = b.
Proof.
  split; [apply Ascii.compare_eq_iff |]. intros ->. unfold Ascii.compare.
  apply N.compare_refl.
Qed.

Lemma string_compare_refl (s : string) : String.compare s s = Eq.
Proof.
  induction s as [| c s IH]; cbn; [reflexivity |].
  rewrite (proj2 (ascii_compare_eq c c) eq_refl). exact IH.
Qed.

Lemma string_compare_lt_trans (a b c : string) :
  String.compare a b = Lt -> String.compare b c = Lt -> String.compare a c = Lt.
Proof.
  revert b c. induction a as [| x a IH]; intros [| y b] [| z c]; cbn;
    try congruence.
  intros Hab Hbc.
  destruct (Ascii.compare x y) eqn:Hxy; try discriminate Hab;
    destruct (Ascii.compare y z) eqn:Hyz; try discriminate Hbc.
  - apply ascii_compare_eq in Hxy, Hyz. subst y z.
    rewrite (proj2 (ascii_compare_eq x x) eq_refl). eapply IH; eassumption.
  - apply ascii_compare_eq in Hxy. subst y. rewrite Hyz. reflexivity.
  - apply ascii_compare_eq in Hyz. subst z. rewrite Hxy. reflexivity.
  - apply (proj1 (ascii_compare_lt _ _)) in Hxy. apply (proj1 (ascii_compare_lt _ _)) in Hyz.
    rewrite (proj2 (ascii_compare_lt x z)) by lia. reflexivity.
Qed.

Lemma string_leb_cases (a b : string) :
  String.leb a b = true <-> a = b \/ String.ltb a b = true.
Proof.
  unfold String.leb, String.ltb. destruct (String.compare a b) eqn:Hc.
  - apply String.compare_eq_iff in Hc. tauto.
  - tauto.
  - split; [discriminate |]. intros [-> | ?]; [| discriminate].
    rewrite string_compare_refl in Hc. discriminate.
Qed.

Lemma string_ltb_trans (a b c : string) :
  String.ltb a b = true -> String.ltb b c = true -> String.ltb a c = true.
Proof.
  unfold String.ltb. destruct (String.compare a b) eqn:Hab; try discriminate.
  destruct (String.compare b c) eqn:Hbc; try discriminate.
  rewrite (string_compare_lt_trans a b c Hab Hbc). reflexivity.
Qed.

Lemma string_leb_trans (a b c : string) :
  String.leb a b = true -> String.leb b c = true -> String.leb a c = true.
Proof.
  rewrite !string_leb_cases. intros [-> | Hab] [-> | Hbc]; auto.
  right. eapply string_ltb_trans; eassumption.
Qed.

Lemma report_before_cases (a b : string * nat) :
  report_before a b = true <-> a = b \/ report_precedes a b.
Proof.
  unfold report_before, report_precedes. destruct a as [ka ca], b as [kb cb]. cbn [fst snd].
  rewrite orb_true_iff, andb_true_iff, Nat.ltb_lt, Nat.eqb_eq, string_leb_cases.
  split.
  - intros [Hlt | [-> [-> | Hk]]]; auto.
  - intros [[= -> ->] | [Hlt | [-> Hk]]]; auto.
Qed.

#[local] Instance report_before_total : Total (fun a b => Is_true (report_before a b)).
Proof.
  intros [ka ca] [kb cb]. unfold report_before. cbn [fst snd].
  rewrite !Is_true_true, !orb_true_iff, !andb_true_iff, !Nat.ltb_lt, !Nat.eqb_eq.
  destruct (lt_eq_lt_dec ca cb) as [[Hlt | ->] | Hgt]; [tauto | | tauto].
  destruct (String.leb_total ka kb); tauto.
Qed.

#[local] Instance report_before_trans :
  Transitive (fun a b => Is_true (report_before a b)).
Proof.
  intros [ka ca] [kb cb] [kc cc]. unfold report_before. cbn [fst snd].
  rewrite !Is_true_true, !orb_true_iff, !andb_true_iff, !Nat.ltb_lt, !Nat.eqb_eq.
  intros [H1 | [-> H1]] [H2 | [-> H2]]; try (left; lia).
  right. split; [reflexivity |]. eapply string_leb_trans; eassumption.
Qed.

#[local] Instance report_before_antisym :
  AntiSymm (=) (fun a b => Is_true (report_before a b)).
Proof.
  intros [ka ca] [kb cb]. unfold report_before. cbn [fst snd].
  rewrite !Is_true_true, !orb_true_iff, !andb_true_iff, !Nat.ltb_lt, !Nat.eqb_eq.
  intros [H1 | [-> H1]] [H2 | [H2 H3]]; try lia.
  f_equal. apply String.leb_antisym; assumption.
Qed.

Lemma strictly_sorted (l : list (string * nat)) :
  NoDup (map fst l) ->
  StronglySorted (fun a b => Is_true (report_before a b)) l ->
  StronglySorted report_precedes l.
Proof.
  intros Hnd Hsorted. induction Hsorted as [| a l Hl IH Hall]; constructor.
  - apply IH. cbn in Hnd. by apply NoDup_cons in Hnd as [_ ?].
  - cbn in Hnd. apply NoDup_cons in Hnd as [Ha _].
    rewrite Forall_forall in Hall |- *. intros b Hb.
    specialize (Hall b Hb). apply Is_true_true, report_before_cases in Hall.
    destruct Hall as [-> | Hall]; [| exact Hall].
    exfalso. apply Ha. by apply elem_of_map_key.
Qed.

(** X14. The POS breakdown of the skip report lists every skipped code
    once with its count, larger counts first and equal counts by code; it is
    the only such listing, whatever the order in which the codes were first
    met. *)
Theorem pos_breakdown_sorted (counts : gmap string nat) :
  (forall code n, (code, n) ∈ pos_breakdown counts <-> counts !! code = Some n)
  /\ NoDup (map fst (pos_breakdown counts))
  /\ StronglySorted report_precedes (pos_breakdown counts)
  /\ (forall items,
        items ≡ₚ map_to_list counts ->
        Sorted (fun a b => report_before a b = true) items ->
        items = pos_breakdown counts).
Proof.
  assert (Hperm : pos_breakdown counts ≡ₚ map_to_list counts)
    by apply merge_sort_Permutation.
  assert (Hnd : NoDup (map fst (pos_breakdown counts))).
  { change (NoDup ((pos_breakdown counts).*1)). rewrite Hperm.
    apply NoDup_fst_map_to_list. }
  split; [| split; [exact Hnd | split]].
  - intros code n. rewrite Hperm. apply elem_of_map_to_list.
  - apply strictly_sorted; [exact Hnd |].
    apply (StronglySorted_merge_sort (fun a b => Is_true (report_before a b))).
  - intros items Hitems Hsorted.
    apply (Sorted_unique (fun a b => Is_true (report_before a b))).
    + clear Hitems. induction Hsorted as [| a l Hl IH Hhd]; constructor; [exact IH |].
      destruct Hhd; constructor. by apply Is_true_true.
    + apply Sorted_merge_sort. apply _.
    + rewrite Hitems, Hperm. reflexivity.
Qed.

Lemma total_skipped_pos_insert (counts : gmap string nat) code n :
  counts !! code = None ->
  total_skipped_pos (<[code := n]> counts) = n + total_skipped_pos counts.
Proof.
  intros Hnone. unfold total_skipped_pos.
  apply (map_fold_insert_L (fun _ count total => count + total)); [| exact Hnone].
  intros. lia.
Qed.

Lemma total_skipped_pos_bump (counts : gmap string nat) code :
  total_skipped_pos (<[code := default 0 (counts !! code) + 1]> counts)
  = total_skipped_pos counts + 1.
Proof.
  destruct (counts !! code) as [n |] eqn:Hc; cbn [default].
  - rewrite <- (insert_delete_eq counts code).
    rewrite total_skipped_pos_insert by apply lookup_delete_eq.
    assert (Htotal : total_skipped_pos counts = n + total_skipped_pos (delete code counts)).
    { unfold total_skipped_pos.
      apply (map_fold_delete_L (fun _ count total => count + total)); [| exact Hc].
      intros. lia. }
    unfold id. lia.
  - rewrite total_skipped_pos_insert by exact Hc. lia.
Qed.

Section SkipReport.
Context `{Host}.

(** What the loop keeps true of the two skip tallies. *)
Lemma import_line_pos_counts allowed_pos commit_every ln st st' :
  import_line allowed_pos commit_every ln st = Ok st' ->
  pos_not_allowed (skipped_reasons st) = total_skipped_pos (skipped_pos_counts st)
  /\ (forall code n, skipped_pos_counts st !! code = Some n ->
                     0 < n /\ code <> "" /\ code ∉ allowed_pos) ->
  pos_not_allowed (skipped_reasons st') = total_skipped_pos (skipped_pos_counts st')
  /\ (forall code n, skipped_pos_counts st' !! code = Some n ->
                     0 < n /\ code <> "" /\ code ∉ allowed_pos).
Proof.
  unfold import_line. intros Hrun Hinv.
  destruct ln as [| | v]; [injection Hrun as <-; exact Hinv ..|].
  inv_bind Hrun.
  destruct (negb (is_str "grc" _)); [injection Hrun as <-; exact Hinv |].
  inv_bind Hrun.
  destruct (String.eqb_spec (str_strip a0) "") as [| Hcode];
    [injection Hrun as <-; exact Hinv |].
  destruct (bool_decide (str_strip a0 ∈ allowed_pos)) eqn:Hallowed; cbn [negb] in Hrun.
  - destruct (negb (truthy _)); [injection Hrun as <-; exact Hinv |].
    inv_bind Hrun. destruct (commit_every =? 0)%Z; [discriminate |].
    injection Hrun as <-. exact Hinv.
  - injection Hrun as <-. destruct Hinv as [Htotal Hcodes].
    cbn [skipped_reasons skipped_pos_counts bump_pos_not_allowed pos_not_allowed].
    rewrite total_skipped_pos_bump, Htotal. split; [reflexivity |].
    intros code n. rewrite lookup_insert.
    destruct (decide (str_strip a0 = code)) as [Heq | Hne].
    + intros Hn. apply (inj Some) in Hn. subst code. split; [lia |].
      split; [exact Hcode |].
      by apply bool_decide_eq_false in Hallowed.
    + apply Hcodes.
Qed.

(** X15. The POS breakdown accounts for the [pos_not_allowed] tally: when
    a run completes, that tally is the sum of the counts kept per code; every
    code with a count has a positive one, is not empty and is not in the
    allow-list; and the report ends with the breakdown exactly when the tally
    is not zero. *)
Theorem skipped_pos_counts_account db lines allowed_pos commit_every st :
  import_jsonl db lines allowed_pos commit_every = Ok st ->
  pos_not_allowed (skipped_reasons st) = total_skipped_pos (skipped_pos_counts st)
  /\ (forall code n, skipped_pos_counts st !! code = Some n ->
                     0 < n /\ code <> "" /\ code ∉ allowed_pos)
  /\ report_skip_summary (skipped_pos_counts st) (skipped_reasons st)
     = [(newline ++ "Skip report")%string;
        String.concat "" (replicate 40 "-");
        report_line "json_decode_error" (json_decode_error (skipped_reasons st));
        report_line "non_grc" (non_grc (skipped_reasons st));
        report_line "missing_pos" (missing_pos (skipped_reasons st));
        report_line "pos_not_allowed" (pos_not_allowed (skipped_reasons st));
        report_line "missing_headword" (missing_headword (skipped_reasons st))]
       ++ (if Nat.eqb (pos_not_allowed (skipped_reasons st)) 0 then []
           else (newline ++ "Skipped POS breakdown")%string
                :: map (fun kv : string * nat => report_line kv.1 kv.2)
                       (pos_breakdown (skipped_pos_counts st))).
Proof.
  unfold import_jsonl. intros Hrun.
  assert (Hgen : forall st0,
            foldM (import_line allowed_pos commit_every) lines st0 = Ok st ->
            pos_not_allowed (skipped_reasons st0) = total_skipped_pos (skipped_pos_counts st0)
            /\ (forall code n, skipped_pos_counts st0 !! code = Some n ->
                               0 < n /\ code <> "" /\ code ∉ allowed_pos) ->
            pos_not_allowed (skipped_reasons st) = total_skipped_pos (skipped_pos_counts st)
            /\ (forall code n, skipped_pos_counts st !! code = Some n ->
                               0 < n /\ code <> "" /\ code ∉ allowed_pos)).
  { clear Hrun. induction lines as [| ln lines IH]; intros st0 Hrun Hinv;
      cbn [foldM] in Hrun.
    - injection Hrun as <-. exact Hinv.
    - inv_bind Hrun. eapply IH; [exact Hrun |].
      eapply import_line_pos_counts; eassumption. }
  destruct (Hgen _ Hrun) as [Htotal Hcodes].
  { cbn [skipped_reasons skipped_pos_counts no_skips pos_not_allowed]. split.
    - unfold total_skipped_pos. rewrite map_fold_empty. reflexivity.
    - intros code n Hc. rewrite lookup_empty in Hc. discriminate. }
  split; [exact Htotal |]. split; [exact Hcodes |].
  unfold report_skip_summary. cbv zeta. fold (total_skipped_pos (skipped_pos_counts st)).
  rewrite <- Htotal. reflexivity.
Qed.

End SkipReport.

(** ** Repeated metadata updates *)

Lemma lemma_row_ext (r r' : lemma_row) :
  l_id r = l_id r' -> l_headword r = l_headword r' ->
  l_headword_norm r = l_headword_norm r' -> l_sort_key r = l_sort_key r' ->
  l_notes r = l_notes r' -> (forall f, stored f r = stored f r') -> r = r'.
Proof.
  destruct r, r'. cbn. intros -> -> -> -> -> Hf.
  pose proof (Hf etymology_text). pose proof (Hf etymology_templates).
  pose proof (Hf etymology_number). pose proof (Hf inflection_templates).
  pose proof (Hf related). pose proof (Hf synonyms). pose proof (Hf antonyms).
  pose proof (Hf categories). pose proof (Hf entry_extra). cbn in *. congruence.
Qed.

Lemma database_eta (db : database) :
  db = {| pos_table := pos_table db; dialect_table := dialect_table db;
          lemma_table := lemma_table db; lemma_pos_table := lemma_pos_table db;
          sense_table := sense_table db; form_table := form_table db |}.
Proof. destruct db. reflexivity. Qed.

Lemma coalesce_row_none p r : (forall f, bound f p = None) -> coalesce_row p r = r.
Proof.
  intros Hp. apply lemma_row_ext; try reflexivity.
  intros f. rewrite coalesce_row_stored, Hp. reflexivity.
Qed.

Lemma update_lemma_none lemma_id p db :
  (forall f, bound f p = None) -> update_lemma lemma_id p db = db.
Proof.
  intros Hp. rewrite (database_eta db) at 2. unfold update_lemma. f_equal.
  rewrite <- (map_id (lemma_table db)) at 2. apply map_ext. intros r.
  destruct (l_id r =? lemma_id)%Z; [apply coalesce_row_none, Hp | reflexivity].
Qed.

(** The UPDATE in terms of the values it binds. *)
Lemma update_lemma_metadata_binds lemma_id md db db' :
  update_lemma_metadata lemma_id md db = Ok db' ->
  exists p, (forall f, bind_param (incoming f md) = Ok (bound f p))
            /\ db' = update_lemma lemma_id p db.
Proof.
  unfold update_lemma_metadata. intros Hup.
  destruct (negb _) eqn:Hall.
  - injection Hup as <-. apply negb_true_iff in Hall.
    exists {| b_etymology_text := None; b_etymology_templates := None;
              b_etymology_number := None; b_inflection_templates := None;
              b_related := None; b_synonyms := None; b_antonyms := None;
              b_categories := None; b_entry_extra := None |}.
    split.
    + intros f. rewrite (metadata_all_none md f Hall). destruct f; reflexivity.
    + symmetry. apply update_lemma_none. intros f. destruct f; reflexivity.
  - inv_bind Hup. inv_bind Hup. exists a. split; [| subst db'; reflexivity].
    intros f. apply bind_metadata_fields, E.
Qed.

Lemma update_lemma_metadata_applies lemma_id md db p :
  (forall f, bind_param (incoming f md) = Ok (bound f p)) ->
  update_lemma_metadata lemma_id md db = Ok (update_lemma lemma_id p db).
Proof.
  intros Hp. unfold update_lemma_metadata. destruct (negb _) eqn:Hall.
  - apply negb_true_iff in Hall. f_equal. symmetry. apply update_lemma_none.
    intros f. pose proof (Hp f) as Hf. rewrite (metadata_all_none md f Hall) in Hf.
    cbn in Hf. congruence.
  - assert (Hbind : bind_metadata md = Ok p).
    { unfold bind_metadata.
      pose proof (Hp etymology_text) as H1. pose proof (Hp etymology_templates) as H2.
      pose proof (Hp etymology_number) as H3. pose proof (Hp inflection_templates) as H4.
      pose proof (Hp related) as H5. pose proof (Hp synonyms) as H6.
      pose proof (Hp antonyms) as H7. pose proof (Hp categories) as H8.
      pose proof (Hp entry_extra) as H9. cbn [incoming bound] in H1, H2, H3, H4, H5, H6, H7, H8, H9.
      rewrite H1, H2, H3, H4, H5, H6, H7, H8, H9. cbn [mbind result_bind].
      destruct p. reflexivity. }
    rewrite Hbind. reflexivity.
Qed.

Lemma update_lemma_twice lemma_id p q db :
  update_lemma lemma_id q (update_lemma lemma_id p db)
  = {| pos_table := pos_table db; dialect_table := dialect_table db;
       lemma_table :=
         map (fun r => if (l_id r =? lemma_id)%Z then coalesce_row q (coalesce_row p r)
                       else r) (lemma_table db);
       lemma_pos_table := lemma_pos_table db; sense_table := sense_table db;
       form_table := form_table db |}.
Proof.
  unfold update_lemma. cbn. f_equal. rewrite map_map. apply map_ext. intros r.
  destruct (l_id r =? lemma_id)%Z eqn:Hid; cbn [l_id coalesce_row]; rewrite Hid;
    reflexivity.
Qed.

(** X16. Repeating and combining metadata updates.  Applying the same
    metadata a second time changes nothing; an update for an id no lemma row
    has succeeds and changes nothing; and two updates of the same lemma whose
    metadata have no column in common that is non-null in both give the same
    store in either order. *)
Theorem update_lemma_metadata_repeats lemma_id md db db' :
  update_lemma_metadata lemma_id md db = Ok db' ->
  update_lemma_metadata lemma_id md db' = Ok db'
  /\ (lemma_id ∉ lemma_ids db -> db' = db)
  /\ (forall md2 db2 db12 db21,
        (forall f, incoming f md = JNull \/ incoming f md2 = JNull) ->
        update_lemma_metadata lemma_id md2 db = Ok db2 ->
        update_lemma_metadata lemma_id md2 db' = Ok db12 ->
        update_lemma_metadata lemma_id md db2 = Ok db21 ->
        db12 = db21).
Proof.
  intros Hup. destruct (update_lemma_metadata_binds _ _ _ _ Hup) as (p & Hp & ->).
  split; [| split].
  - rewrite (update_lemma_metadata_applies lemma_id md _ p Hp). f_equal.
    rewrite update_lemma_twice. unfold update_lemma. f_equal.
    apply map_ext. intros r. destruct (l_id r =? lemma_id)%Z; [| reflexivity].
    apply lemma_row_ext; try reflexivity. intros f.
    rewrite !coalesce_row_stored. destruct (bound f p); reflexivity.
  - intros Hid. rewrite (database_eta db) at 2. unfold update_lemma. f_equal.
    rewrite <- (map_id (lemma_table db)) at 2. apply map_ext_in. intros r Hr.
    destruct (Z.eqb_spec (l_id r) lemma_id) as [Heq |]; [| reflexivity].
    exfalso. apply Hid. rewrite <- Heq. apply elem_of_map_key, list_elem_of_In, Hr.
  - intros md2 db2 db12 db21 Hdisj Hup2 Hup12 Hup21.
    destruct (update_lemma_metadata_binds _ _ _ _ Hup2) as (q & Hq & ->).
    rewrite (update_lemma_metadata_applies lemma_id md2 _ q Hq) in Hup12.
    rewrite (update_lemma_metadata_applies lemma_id md _ p Hp) in Hup21.
    injection Hup12 as <-. injection Hup21 as <-.
    rewrite !update_lemma_twice. f_equal.
    apply map_ext. intros r. destruct (l_id r =? lemma_id)%Z; [| reflexivity].
    apply lemma_row_ext; try reflexivity. intros f.
    rewrite !coalesce_row_stored.
    destruct (Hdisj f) as [Hnull | Hnull].
    + pose proof (Hp f) as Hf. rewrite Hnull in Hf. injection Hf as <-.
      destruct (bound f q); reflexivity.
    + pose proof (Hq f) as Hf. rewrite Hnull in Hf. injection Hf as <-.
      destruct (bound f p); reflexivity.
Qed.

(** ** The allow-list *)

Lemma assoc_elem_of {A} (k : string) (kv : list (string * A)) (v : A) :
  assoc k kv = Some v -> (k, v) ∈ kv.
Proof.
  induction kv as [| [k' v'] kv IH]; cbn [assoc]; [discriminate |].
  destruct (String.eqb_spec k k') as [-> |]; [intros [= ->]; left | intros Hv; right; auto].
Qed.

Lemma pos_alias_value (raw : string) :
  pos_alias (pos_alias raw) = pos_alias raw /\ (raw <> "" -> pos_alias raw <> "").
Proof.
  unfold pos_alias at 2 3 4. destruct (assoc raw POS_ALIASES) as [v |] eqn:Hraw; cbn [default].
  - apply assoc_elem_of in Hraw. unfold POS_ALIASES in Hraw.
    repeat (apply elem_of_cons in Hraw as [[= -> ->] | Hraw];
            [split; [reflexivity | discriminate] |]).
    by apply elem_of_nil in Hraw.
  - unfold pos_alias. rewrite Hraw. tauto.
Qed.

Lemma split_on_cons (sep : ascii) (s : string) : exists h t, split_on sep s = h :: t.
Proof.
  induction s as [| c s (h & t & IH)]; cbn [split_on]; [eauto |].
  destruct (Ascii.eqb c sep); [eauto |]. rewrite IH. eauto.
Qed.

(** Splitting two lists joined by the separator gives the items of
    both. *)
Lemma split_on_join (sep : ascii) (a b : string) :
  split_on sep (a ++ String sep b) = split_on sep a ++ split_on sep b.
Proof.
  induction a as [| c a IH]; simpl.
  - rewrite Ascii.eqb_refl. reflexivity.
  - destruct (Ascii.eqb c sep); [rewrite IH; reflexivity |].
    rewrite IH. destruct (split_on_cons sep a) as (h & t & ->). reflexivity.
Qed.

Section AllowList.
Context `{Host}.

(** X17. The allow-list holds canonical codes only: alias-normalizing a
    code a second time changes nothing, so no code of the list is changed by
    the aliases and none is empty; the list of two configurations joined by
    a comma is the union of their lists; and an empty configuration gives
    the empty list. *)
Theorem parse_pos_list_canonical :
  (forall raw, pos_alias (pos_alias raw) = pos_alias raw)
  /\ (forall config code, code ∈ parse_pos_list config -> pos_alias code = code /\ code <> "")
  /\ (forall a b, parse_pos_list (a ++ "," ++ b) = parse_pos_list a ∪ parse_pos_list b)
  /\ parse_pos_list "" = ∅.
Proof.
  split; [intros raw; apply pos_alias_value |]. split; [| split].
  - intros config code Hin. unfold parse_pos_list in Hin.
    apply elem_of_pos_fold in Hin as [Hin | (item & _ & Hraw & ->)];
      [by apply not_elem_of_empty in Hin |].
    split; [apply pos_alias_value | apply pos_alias_value, Hraw].
  - intros a b. apply set_eq. intros code. unfold parse_pos_list.
    change (a ++ "," ++ b)%string with (a ++ String ","%char b)%string.
    rewrite split_on_join, elem_of_union, !elem_of_pos_fold.
    split.
    + intros [Hin | (item & Hin & Hrest)]; [by apply not_elem_of_empty in Hin |].
      apply elem_of_app in Hin as [Hin | Hin]; [left | right]; right; eauto.
    + intros [[Hin | (item & Hin & Hrest)] | [Hin | (item & Hin & Hrest)]];
        try (by apply not_elem_of_empty in Hin);
        right; exists item; (split; [apply elem_of_app; tauto | exact Hrest]).
  - unfold parse_pos_list. cbn [split_on foldl]. cbv zeta.
    rewrite (str_strip_ascii "") by reflexivity.
    rewrite (str_lower_ascii _) by reflexivity. reflexivity.
Qed.

End AllowList.

(** ** The form lookup *)

Lemma filter_by_id {R} (id : R -> Z) (rows : list R) (k : Z) :
  NoDup (map id rows) -> k ∈ map id rows ->
  exists r, List.filter (fun x => (k =? id x)%Z) rows = [r] /\ r ∈ rows /\ id r = k.
Proof.
  induction rows as [| x rows IH]; cbn [map List.filter]; intros Hnd Hin.
  - by apply elem_of_nil in Hin.
  - apply NoDup_cons in Hnd as [Hx Hnd].
    destruct (Z.eqb_spec k (id x)) as [-> | Hne].
    + exists x. split; [| split; [left | reflexivity]]. f_equal.
      clear IH Hin Hnd. induction rows as [| y rows IH]; cbn [List.filter]; [reflexivity |].
      cbn [map] in Hx. apply not_elem_of_cons in Hx as [Hxy Hx].
      destruct (Z.eqb_spec (id x) (id y)); [contradiction | auto].
    + apply elem_of_cons in Hin as [-> | Hin]; [contradiction |].
      destruct (IH Hnd Hin) as (r & Hf & Hr & Hid). exists r.
      split; [exact Hf |]. split; [right; exact Hr | exact Hid].
Qed.

Lemma filter_none {R} (rows : list R) : List.filter (fun _ => false) rows = [].
Proof. induction rows; auto. Qed.

Lemma same_id_same_row {R} (id : R -> Z) (rows : list R) (a b : R) :
  NoDup (map id rows) -> a ∈ rows -> b ∈ rows -> id a = id b -> a = b.
Proof.
  induction rows as [| x rows IH]; cbn [map]; intros Hnd Ha Hb Hid.
  - by apply elem_of_nil in Ha.
  - apply NoDup_cons in Hnd as [Hx Hnd].
    apply elem_of_cons in Ha as [-> | Ha]; apply elem_of_cons in Hb as [-> | Hb].
    + reflexivity.
    + exfalso. apply Hx. rewrite Hid. apply list_elem_of_fmap. eauto.
    + exfalso. apply Hx. rewrite <- Hid. apply list_elem_of_fmap. eauto.
    + auto.
Qed.

Lemma left_join_dialect_row db f :
  NoDup (dialect_ids db) ->
  (forall d, f_dialect_id f = Some d -> d ∈ dialect_ids db) ->
  match f_dialect_id f with
  | Some id => exists d, left_join_dialect db f = [Some d]
                         /\ d ∈ dialect_table db /\ dialect_id d = id
  | None => left_join_dialect db f = [None]
  end.
Proof.
  intros Hnd Href. unfold left_join_dialect.
  destruct (f_dialect_id f) as [id |].
  - destruct (filter_by_id dialect_id (dialect_table db) id Hnd (Href id eq_refl))
      as (d & -> & Hd & Hid).
    exists d. auto.
  - by rewrite filter_none.
Qed.

(** The rows the joins give for one form row: exactly one. *)
Lemma join_one db f :
  primary_keys db ->
  f_lemma_id f ∈ lemma_ids db -> f_pos_id f ∈ pos_ids db ->
  (forall d, f_dialect_id f = Some d -> d ∈ dialect_ids db) ->
  exists j,
    flat_map (fun l =>
      flat_map (fun p =>
        map (fun d => {| j_form := f; j_lemma := l; j_pos := p; j_dialect := d |})
            (left_join_dialect db f))
        (List.filter (fun p => (f_pos_id f =? pos_id p)%Z) (pos_table db)))
      (List.filter (fun l => (f_lemma_id f =? l_id l)%Z) (lemma_table db)) = [j]
    /\ j_form j = f /\ joined_by_ids db j.
Proof.
  intros (Hp & Hd & Hl & _) Hlem Hpos Hdia.
  destruct (filter_by_id l_id (lemma_table db) _ Hl Hlem) as (l & -> & Hlin & Hlid).
  destruct (filter_by_id pos_id (pos_table db) _ Hp Hpos) as (p & -> & Hpin & Hpid).
  pose proof (left_join_dialect_row db f Hd Hdia) as Hjoin.
  unfold joined_by_ids.
  destruct (f_dialect_id f) as [id |] eqn:Hid.
  - destruct Hjoin as (d & -> & Hdin & Hdid).
    eexists. split; [reflexivity |]. cbn. rewrite Hid. eauto 10.
  - rewrite Hjoin. eexists. split; [reflexivity |]. cbn. rewrite Hid. auto 10.
Qed.

Lemma join_forms_rows db form :
  primary_keys db -> references_hold db ->
  map j_form (join_forms db form) = forms_with_text db form
  /\ Forall (joined_by_ids db) (join_forms db form).
Proof.
  intros Hpk (_ & _ & Href). unfold join_forms, forms_with_text.
  assert (Hall : forall f, f ∈ List.filter (fun f => String.eqb (f_form f) form) (form_table db)
                           -> f ∈ form_table db).
  { intros f Hf. apply list_elem_of_In, filter_In in Hf as [Hf _]. by apply list_elem_of_In. }
  induction (List.filter _ (form_table db)) as [| f fs IH]; cbn [flat_map map].
  - split; [reflexivity | constructor].
  - destruct (Href f (Hall f ltac:(left))) as (Hl & Hp & Hd).
    destruct (join_one db f Hpk Hl Hp Hd) as (j & -> & Hjf & Hj).
    destruct IH as [IH1 IH2]; [intros; apply Hall; by right |].
    cbn [app map]. rewrite Hjf, IH1. split; [reflexivity |]. by constructor.
Qed.

Lemma NoDup_map_filter {A B} (f : A -> B) (p : A -> bool) (l : list A) :
  NoDup (map f l) -> NoDup (map f (List.filter p l)).
Proof.
  induction l as [| x l IH]; cbn [map List.filter]; [auto |].
  intros [Hx Hnd]%NoDup_cons. destruct (p x); [| auto].
  cbn [map]. apply NoDup_cons. split; [| auto].
  intros (y & Hxy & Hy)%list_elem_of_fmap. apply Hx, list_elem_of_fmap. exists y.
  split; [exact Hxy |]. apply list_elem_of_In, filter_In in Hy as [Hy _]. by apply list_elem_of_In.
Qed.

Lemma string_ltb_cases (a b : string) :
  String.ltb a b = true \/ a = b \/ String.ltb b a = true.
Proof.
  unfold String.ltb. rewrite (String.compare_antisym a b).
  destruct (String.compare b a) eqn:Hc; cbn; auto.
  apply String.compare_eq_iff in Hc. auto.
Qed.

Lemma order_before_cases a b :
  order_before a b = true <->
  order_precedes a b
  \/ (l_headword (j_lemma a) = l_headword (j_lemma b)
      /\ pos_code (j_pos a) = pos_code (j_pos b) /\ f_id (j_form a) = f_id (j_form b)).
Proof.
  unfold order_before, order_precedes. cbv zeta.
  rewrite !orb_true_iff, !andb_true_iff, !orb_true_iff, !andb_true_iff,
    !String.eqb_eq, Z.leb_le.
  split.
  - intros [? | [? [? | [? ?]]]]; auto.
    destruct (Z.eq_dec (f_id (j_form a)) (f_id (j_form b))); [auto |].
    left. right. split; [auto |]. right. split; [auto | lia].
  - intros [[? | [? [? | [? ?]]]] | (? & ? & ?)]; auto.
    + right. split; [auto |]. right. split; [auto | lia].
    + right. split; [auto |]. right. split; [auto | lia].
Qed.

#[local] Instance order_before_total : Total (fun a b => Is_true (order_before a b)).
Proof.
  intros a b. rewrite !Is_true_true, !order_before_cases. unfold order_precedes.
  destruct (string_ltb_cases (l_headword (j_lemma a)) (l_headword (j_lemma b)))
    as [Hlt | [Hh | Hgt]].
  - left; left; left; exact Hlt.
  - destruct (string_ltb_cases (pos_code (j_pos a)) (pos_code (j_pos b)))
      as [Hc1 | [Hc | Hc2]].
    + left; left; right. split; [exact Hh | left; exact Hc1].
    + destruct (Z.lt_trichotomy (f_id (j_form a)) (f_id (j_form b))) as [Hi | [Hi | Hi]].
      * left; left; right. split; [exact Hh |]. right. split; assumption.
      * left; right. repeat split; assumption.
      * right; left; right. split; [symmetry; exact Hh |]. right.
        split; [symmetry; exact Hc | exact Hi].
    + right; left; right. split; [symmetry; exact Hh | left; exact Hc2].
  - right; left; left; exact Hgt.
Qed.

Lemma string_ltb_irrefl (a : string) : String.ltb a a = false.
Proof. unfold String.ltb. by rewrite string_compare_refl. Qed.

Lemma order_precedes_trans a b c :
  order_precedes a b -> order_precedes b c -> order_precedes a c.
Proof.
  unfold order_precedes.
  intros [Hab | (Hab & [Hcab | (Hcab & Hiab)])] [Hbc | (Hbc & [Hcbc | (Hcbc & Hibc)])].
  all: try (left; eauto using string_ltb_trans; congruence).
  all: try (rewrite <- ?Hbc, ?Hab in *; auto; fail).
  - right. split; [congruence |]. left. eapply string_ltb_trans; eassumption.
  - right. split; [congruence |]. left. congruence.
  - right. split; [congruence |]. left. congruence.
  - right. split; [congruence |]. right. split; [congruence | lia].
Qed.

Lemma order_precedes_irrefl a : ~ order_precedes a a.
Proof.
  unfold order_precedes. rewrite !string_ltb_irrefl.
  intros [? | (_ & [? | (_ & ?)])]; [discriminate | discriminate | lia].
Qed.

Lemma order_precedes_same_key a b c :
  l_headword (j_lemma b) = l_headword (j_lemma c) ->
  pos_code (j_pos b) = pos_code (j_pos c) ->
  f_id (j_form b) = f_id (j_form c) ->
  (order_precedes a b <-> order_precedes a c) /\ (order_precedes b a <-> order_precedes c a).
Proof. unfold order_precedes. intros -> -> ->. split; reflexivity. Qed.

#[local] Instance order_before_trans : Transitive (fun a b => Is_true (order_before a b)).
Proof.
  intros a b c. rewrite !Is_true_true, !order_before_cases.
  intros [Hab | (Hh1 & Hc1 & Hi1)] [Hbc | (Hh2 & Hc2 & Hi2)].
  - left. eapply order_precedes_trans; eassumption.
  - left. by apply (order_precedes_same_key a b c Hh2 Hc2 Hi2).
  - left. by apply (order_precedes_same_key c a b Hh1 Hc1 Hi1).
  - right. repeat split; congruence.
Qed.

(** With one joined row per form id, the order of the SELECT is strict. *)
Lemma strictly_ordered (l : list joined) :
  NoDup (map (fun j => f_id (j_form j)) l) ->
  StronglySorted (fun a b => Is_true (order_before a b)) l ->
  StronglySorted order_precedes l.
Proof.
  intros Hnd Hsorted. induction Hsorted as [| a l Hl IH Hall]; constructor.
  - apply IH. cbn in Hnd. by apply NoDup_cons in Hnd as [_ ?].
  - cbn in Hnd. apply NoDup_cons in Hnd as [Ha _].
    rewrite Forall_forall in Hall |- *. intros b Hb.
    specialize (Hall b Hb). apply Is_true_true, order_before_cases in Hall.
    destruct Hall as [Hall | (_ & _ & Hid)]; [exact Hall |].
    exfalso. apply Ha. rewrite Hid.
    apply (list_elem_of_fmap_2 (fun j => f_id (j_form j))), Hb.
Qed.

Lemma join_forms_ids db form :
  primary_keys db -> references_hold db ->
  NoDup (map (fun j => f_id (j_form j)) (join_forms db form)).
Proof.
  intros Hpk Href. destruct (join_forms_rows db form Hpk Href) as [Hrows _].
  rewrite <- (map_map j_form f_id), Hrows. apply NoDup_map_filter, Hpk.
Qed.

Lemma Sorted_weaken {A} (R R' : A -> A -> Prop) (l : list A) :
  (forall a b, a ∈ l -> b ∈ l -> R a b -> R' a b) -> Sorted R l -> Sorted R' l.
Proof.
  intros Himp Hsorted. induction Hsorted as [| a l Hl IH Hhd]; constructor.
  - apply IH. intros x y Hx Hy. apply Himp; by right.
  - destruct Hhd as [| b l' Hab]; constructor.
    apply Himp; [left | right; left | exact Hab].
Qed.

(** The order of the result does not depend on how the rows are sorted. *)
Lemma ordered_forms_unique db form items :
  primary_keys db -> references_hold db ->
  items ≡ₚ join_forms db form ->
  Sorted (fun a b => order_before a b = true) items ->
  items = ordered_forms db form.
Proof.
  intros Hpk Href Hperm Hsorted.
  pose proof (join_forms_ids db form Hpk Href) as Hnd.
  assert (Hsame : forall a b, a ∈ join_forms db form -> b ∈ join_forms db form ->
                              order_before a b = true -> order_precedes a b \/ a = b).
  { intros a b Ha Hb [Hab | (_ & _ & Hid)]%order_before_cases; [by left | right].
    exact (same_id_same_row (fun j => f_id (j_form j)) _ a b Hnd Ha Hb Hid). }
  set (R := fun a b => order_precedes a b \/ a = b).
  assert (Htrans : Transitive R).
  { intros a b c [Hab | ->] [Hbc | ->]; unfold R; auto.
    left. eapply order_precedes_trans; eassumption. }
  assert (Hanti : AntiSymm (=) R).
  { intros a b [Hab | ->] [Hba | Heq]; auto.
    destruct (order_precedes_irrefl a). eapply order_precedes_trans; eassumption. }
  apply (Sorted_unique R).
  - eapply Sorted_weaken; [| exact Hsorted].
    intros a b Ha Hb. rewrite Hperm in Ha, Hb. apply Hsame; assumption.
  - eapply (Sorted_weaken (fun a b => Is_true (order_before a b))).
    + intros a b Ha Hb Hab. unfold ordered_forms in Ha, Hb.
      rewrite merge_sort_Permutation in Ha, Hb. apply Hsame; [assumption .. |].
      by apply Is_true_true.
    + apply Sorted_merge_sort. apply _.
  - rewrite Hperm. symmetry. apply merge_sort_Permutation.
Qed.

(** X18. What the lookup finds.  On a store whose primary keys are unique
    and whose references hold, the SELECT of [check_forms.py] returns one
    row for each form row with the text asked for, and no other: each is
    joined with the lemma, POS and dialect rows its ids name, a form without
    dialect with none; the rows come in ascending order of headword, POS
    code and form id, and no other order of them satisfies the ORDER BY.
    The script prints [No rows found.] and returns 1 exactly when no form
    row has the text; otherwise it prints the rows and returns 0. *)
Theorem check_forms_finds db form :
  primary_keys db -> references_hold db ->
  map j_form (ordered_forms db form) ≡ₚ forms_with_text db form
  /\ Forall (joined_by_ids db) (ordered_forms db form)
  /\ StronglySorted order_precedes (ordered_forms db form)
  /\ (forall items,
        items ≡ₚ join_forms db form ->
        Sorted (fun a b => order_before a b = true) items ->
        items = ordered_forms db form)
  /\ length (fetch_forms db form) = length (forms_with_text db form)
  /\ (forms_with_text db form = [] ->
      check_forms db form = (["No rows found."], 1%Z))
  /\ (forms_with_text db form <> [] ->
      check_forms db form = (flat_map print_row (fetch_forms db form), 0%Z)).
Proof.
  intros Hpk Href.
  destruct (join_forms_rows db form Hpk Href) as [Hrows Hjoined].
  assert (Hperm : ordered_forms db form ≡ₚ join_forms db form)
    by apply merge_sort_Permutation.
  assert (Hfound : map j_form (ordered_forms db form) ≡ₚ forms_with_text db form).
  { rewrite <- Hrows. change (j_form <$> ordered_forms db form ≡ₚ j_form <$> join_forms db form).
    by rewrite Hperm. }
  assert (Hlen : length (fetch_forms db form) = length (forms_with_text db form)).
  { unfold fetch_forms. rewrite length_map, <- (length_map j_form). by rewrite Hfound. }
  split; [exact Hfound |]. split; [by rewrite Hperm |].
  split.
  { apply strictly_ordered.
    - change (NoDup ((fun j => f_id (j_form j)) <$> ordered_forms db form)).
      rewrite Hperm. apply join_forms_ids; assumption.
    - apply (StronglySorted_merge_sort (fun a b => Is_true (order_before a b))). }
  split; [intros items; apply ordered_forms_unique; assumption |].
  split; [exact Hlen |].
  unfold check_forms. split.
  - intros Hnone. rewrite Hnone in Hlen.
    by destruct (fetch_forms db form).
  - intros Hsome. destruct (fetch_forms db form) eqn:Hfetch; [| reflexivity].
    destruct (forms_with_text db form); [contradiction | discriminate].
Qed.

Section Lookup.
Context `{Host}.

Lemma import_entry_keeps_integrity pos_code headword entry s s' :
  primary_keys (conn s) -> references_hold (conn s) -> caches_coherent s ->
  import_entry pos_code headword entry s = Ok s' ->
  primary_keys (conn s') /\ references_hold (conn s').
Proof.
  intros Hpk Href Hcoh Hrun.
  destruct (import_entry_steps _ _ _ _ _ Hcoh Hrun) as [Hsteps _]. split.
  - exact (store_steps_invariant primary_keys primary_keys_step _ _ Hsteps Hpk).
  - exact (store_steps_invariant references_hold references_step _ _ Hsteps Href).
Qed.

Lemma fetch_forms_row db r :
  primary_keys db -> references_hold db -> r ∈ form_table db ->
  exists j, select_columns j ∈ fetch_forms db (f_form r)
            /\ j_form j = r /\ joined_by_ids db j.
Proof.
  intros Hpk Href Hr.
  destruct (join_forms_rows db (f_form r) Hpk Href) as [Hrows Hjoined].
  assert (Hin : r ∈ map j_form (join_forms db (f_form r))).
  { rewrite Hrows. unfold forms_with_text. apply list_elem_of_In, filter_In.
    split; [by apply list_elem_of_In | apply String.eqb_refl]. }
  apply list_elem_of_fmap in Hin as (j & Hj & Hjin).
  exists j. split; [| split; [by symmetry |]].
  - unfold fetch_forms. apply list_elem_of_fmap_2.
    unfold ordered_forms. by rewrite merge_sort_Permutation.
  - rewrite Forall_forall in Hjoined. by apply Hjoined.
Qed.

(** X19. From the import of an entry to the lookup of its forms.  On a
    store whose primary keys are unique and whose references hold, after
    [import_entry] has stored an entry, [check_forms.py] finds every form
    of the entry that the admission filter keeps: asked for its text, it
    returns 0 and prints a row with the headword and POS code of the entry,
    the text, the features [parse_tags] reads off the tags of the form, the
    code of its dialect tag and the tags as JSON. *)
Theorem import_entry_then_check_forms pos_code headword entry s s' forms fd text raw :
  primary_keys (conn s) -> references_hold (conn s) -> caches_coherent s ->
  import_entry pos_code (JStr headword) entry s = Ok s' ->
  py_iter (py_or (dict_get "forms" entry) (JArr [])) = Ok forms ->
  JObj fd ∈ forms -> kept (JObj fd) = true ->
  dict_get "form" fd = JStr text ->
  str_items (py_or (dict_get "tags" fd) (JArr [])) = Ok raw ->
  (check_forms (conn s') text).2 = 0%Z
  /\ exists row,
       row ∈ fetch_forms (conn s') text
       /\ sel_headword row = headword /\ sel_pos_code row = pos_code
       /\ sel_form row = text
       /\ [sel_tense row; sel_mood row; sel_voice row; sel_person row; sel_number row;
           sel_grammatical_case row; sel_gender row; sel_verb_form_type row]
          = [p_tense (parse_tags raw); p_mood (parse_tags raw); p_voice (parse_tags raw);
             p_person (parse_tags raw); p_number (parse_tags raw);
             p_case (parse_tags raw); p_gender (parse_tags raw);
             p_verb_form_type (parse_tags raw)]
       /\ sel_dialect row = p_dialect (parse_tags raw)
       /\ sel_tags row = Some (json_dumps (py_or (dict_get "tags" fd) (JArr []))).
Proof.
  intros Hpk Href Hcoh Hrun Hforms Hfd Hkept Htext Hraw.
  destruct (import_entry_keeps_integrity _ _ _ _ _ Hpk Href Hcoh Hrun) as [Hpk' Href'].
  destruct (import_entry_adds _ _ _ _ _ Hcoh Hrun)
    as (lid & pid & senses & forms' & sense_rows & form_rows & pt & gc
        & Hpos & Hlem & _ & _ & Hforms' & _ & _ & _ & Hft & Hfrows & _ & _).
  rewrite Hforms in Hforms'. injection Hforms' as <-.
  assert (Hin : JObj fd ∈ List.filter kept forms).
  { apply list_elem_of_In, filter_In. split; [by apply list_elem_of_In | exact Hkept]. }
  apply list_elem_of_lookup_1 in Hin as [i Hi].
  destruct (Forall2_lookup_l _ _ _ _ _ Hfrows Hi) as (r & Hr & Hrow).
  apply list_elem_of_lookup_2 in Hr.
  destruct Hrow as (fd' & raw' & Hobj & Hform & _ & Hraw' & Hfeat & Hdia & Hlid & Hpid
                    & _ & _ & _ & Htags & _).
  injection Hobj as <-. rewrite Htext in Hform. injection Hform as Hform.
  rewrite Hraw in Hraw'. injection Hraw' as <-.
  assert (Hrin : r ∈ form_table (conn s')).
  { rewrite Hft. apply elem_of_app. by right. }
  destruct (fetch_forms_row _ r Hpk' Href' Hrin) as (j & Hj & Hjr & Hl & Hlid' & Hp & Hpid' & Hd).
  rewrite <- Hform in Hj.
  assert (Hstatus : (check_forms (conn s') text).2 = 0%Z).
  { unfold check_forms. destruct (fetch_forms (conn s') text); [| reflexivity].
    by apply elem_of_nil in Hj. }
  split; [exact Hstatus |].
  exists (select_columns j). split; [exact Hj |].
  destruct Hpk' as (Hpk1 & Hpk2 & Hpk3 & _).
  cbn [select_columns sel_headword sel_pos_code sel_form sel_tense sel_mood sel_voice
       sel_person sel_number sel_grammatical_case sel_gender sel_verb_form_type
       sel_dialect sel_tags].
  rewrite Hjr in *.
  split.
  { apply list_elem_of_fmap in Hlem as (l & Hkey & Hlin).
    injection Hkey as Hh _ Hid.
    assert (j_lemma j = l) as ->; [| by symmetry].
    apply (same_id_same_row l_id (lemma_table (conn s'))); [exact Hpk3 | exact Hl | exact Hlin |].
    congruence. }
  split.
  { apply list_elem_of_fmap in Hpos as (p & Hkey & Hpin).
    injection Hkey as Hc Hid.
    assert (j_pos j = p) as ->; [| by symmetry].
    apply (same_id_same_row pos_id (pos_table (conn s'))); [exact Hpk1 | exact Hp | exact Hpin |].
    congruence. }
  split; [by symmetry |].
  split.
  { unfold form_features, parsed_features in Hfeat.
    injection Hfeat as H1 H2 H3 H4 H5 H6 H7 _ H9.
    by rewrite H1, H2, H3, H4, H5, H6, H7, H9. }
  split; [| by rewrite Htags].
  destruct (p_dialect (parse_tags raw)) as [code |].
  - destruct Hdia as (id & Hid & Hentry). rewrite Hid in Hd.
    destruct Hd as (d & -> & Hdin & Hdid). cbn [option_map]. f_equal.
    apply list_elem_of_fmap in Hentry as (d' & Hkey & Hdin').
    injection Hkey as Hc Hid'.
    assert (d = d') as ->; [| by symmetry].
    apply (same_id_same_row dialect_id (dialect_table (conn s'))); [exact Hpk2 | exact Hdin | exact Hdin' |].
    congruence.
  - rewrite Hdia in Hd. by rewrite Hd.
Qed.

Lemma form_stored_extends db db' code headword text raw tags r :
  extends db db' -> form_stored db code headword text raw tags r ->
  form_stored db' code headword text raw tags r.
Proof.
  intros Hext (Hform & Hfeat & Htags & Hpos & Hlem & Hdia).
  split; [exact Hform |]. split; [exact Hfeat |]. split; [exact Htags |].
  split; [apply (extends_entries _ _ Hext), Hpos |].
  split; [apply (extends_entries _ _ Hext), Hlem |].
  destruct (p_dialect (parse_tags raw)) as [dialect |]; [| exact Hdia].
  destruct Hdia as (id & Hid & Hin). exists id. split; [exact Hid |].
  apply (extends_entries _ _ Hext), Hin.
Qed.

(** The form row [import_entry] writes for a form it keeps. *)
Lemma import_entry_stores_form pos_code headword entry s s' forms fd text raw :
  caches_coherent s ->
  import_entry pos_code (JStr headword) entry s = Ok s' ->
  py_iter (py_or (dict_get "forms" entry) (JArr [])) = Ok forms ->
  JObj fd ∈ forms -> kept (JObj fd) = true ->
  dict_get "form" fd = JStr text ->
  str_items (py_or (dict_get "tags" fd) (JArr [])) = Ok raw ->
  exists r, r ∈ form_table (conn s')
            /\ form_stored (conn s') pos_code headword text raw
                           (py_or (dict_get "tags" fd) (JArr [])) r.
Proof.
  intros Hcoh Hrun Hforms Hfd Hkept Htext Hraw.
  destruct (import_entry_adds _ _ _ _ _ Hcoh Hrun)
    as (lid & pid & senses & forms' & sense_rows & form_rows & pt & gc
        & Hpos & Hlem & _ & _ & Hforms' & _ & _ & _ & Hft & Hfrows & _ & _).
  rewrite Hforms in Hforms'. injection Hforms' as <-.
  assert (Hin : JObj fd ∈ List.filter kept forms).
  { apply list_elem_of_In, filter_In. split; [by apply list_elem_of_In | exact Hkept]. }
  apply list_elem_of_lookup_1 in Hin as [i Hi].
  destruct (Forall2_lookup_l _ _ _ _ _ Hfrows Hi) as (r & Hr & Hrow).
  apply list_elem_of_lookup_2 in Hr.
  destruct Hrow as (fd' & raw' & Hobj & Hform & _ & Hraw' & Hfeat & Hdia & Hlid & Hpid
                    & _ & _ & _ & Htags & _).
  injection Hobj as <-. rewrite Htext in Hform. injection Hform as Hform.
  rewrite Hraw in Hraw'. injection Hraw' as <-.
  exists r. split; [rewrite Hft; apply elem_of_app; by right |].
  split; [by symmetry |]. split; [exact Hfeat |]. split; [exact Htags |].
  rewrite Hlid, Hpid. by repeat split.
Qed.

(** The lookup of the text of a stored form shows it. *)
Lemma check_forms_shows db code headword text raw tags r :
  primary_keys db -> references_hold db ->
  r ∈ form_table db -> form_stored db code headword text raw tags r ->
  (check_forms db text).2 = 0%Z
  /\ exists row, row ∈ fetch_forms db text /\ form_shown code headword text raw tags row.
Proof.
  intros Hpk Href Hrin (Hform & Hfeat & Htags & Hpos & Hlem & Hdia).
  destruct (fetch_forms_row _ r Hpk Href Hrin)
    as (j & Hj & Hjr & Hl & Hlid & Hp & Hpid & Hd).
  rewrite Hform in Hj.
  split.
  { unfold check_forms. destruct (fetch_forms db text); [| reflexivity].
    by apply elem_of_nil in Hj. }
  exists (select_columns j). split; [exact Hj |].
  destruct Hpk as (Hpk1 & Hpk2 & Hpk3 & _).
  unfold form_shown.
  cbn [select_columns sel_headword sel_pos_code sel_form sel_tense sel_mood sel_voice
       sel_person sel_number sel_grammatical_case sel_gender sel_verb_form_type
       sel_dialect sel_tags].
  rewrite Hjr in *.
  split.
  { apply list_elem_of_fmap in Hlem as (l & Hkey & Hlin).
    injection Hkey as Hh _ Hid.
    assert (j_lemma j = l) as ->; [| by symmetry].
    apply (same_id_same_row l_id (lemma_table db)); [exact Hpk3 | exact Hl | exact Hlin |].
    congruence. }
  split.
  { apply list_elem_of_fmap in Hpos as (p & Hkey & Hpin).
    injection Hkey as Hc Hid.
    assert (j_pos j = p) as ->; [| by symmetry].
    apply (same_id_same_row pos_id (pos_table db)); [exact Hpk1 | exact Hp | exact Hpin |].
    congruence. }
  split; [exact Hform |].
  split.
  { unfold form_features, parsed_features in Hfeat.
    injection Hfeat as H1 H2 H3 H4 H5 H6 H7 _ H9.
    by rewrite H1, H2, H3, H4, H5, H6, H7, H9. }
  split; [| by rewrite Htags].
  destruct (p_dialect (parse_tags raw)) as [dialect |].
  - destruct Hdia as (id & Hid & Hentry). rewrite Hid in Hd.
    destruct Hd as (d & -> & Hdin & Hdid). cbn [option_map]. f_equal.
    apply list_elem_of_fmap in Hentry as (d' & Hkey & Hdin').
    injection Hkey as Hc Hid'.
    assert (d = d') as ->; [| by symmetry].
    apply (same_id_same_row dialect_id (dialect_table db));
      [exact Hpk2 | exact Hdin | exact Hdin' |].
    congruence.
  - rewrite Hdia in Hd. by rewrite Hd.
Qed.

Lemma foldM_split {A S} (f : A -> S -> result S) (l1 l2 : list A) (s s2 : S) :
  foldM f (l1 ++ l2) s = Ok s2 -> exists s1, foldM f l1 s = Ok s1 /\ foldM f l2 s1 = Ok s2.
Proof.
  revert s. induction l1 as [| x l1 IH]; cbn [foldM app]; intros s Hrun.
  - exists s. by split.
  - inv_bind Hrun. cbn [mbind result_bind]. by apply IH.
Qed.

Lemma import_lines_steps allowed_pos commit_every lines st st' :
  caches_coherent (sess st) ->
  foldM (import_line allowed_pos commit_every) lines st = Ok st' ->
  rtc store_step (conn (sess st)) (conn (sess st')) /\ caches_coherent (sess st').
Proof.
  revert st. induction lines as [| ln lines IH]; intros st Hcoh Hrun; cbn [foldM] in Hrun.
  - injection Hrun as <-. by split.
  - inv_bind Hrun. destruct (import_line_steps _ _ _ _ _ Hcoh E) as [Hsteps Hcoh'].
    destruct (IH _ Hcoh' Hrun) as [Hsteps' Hcoh''].
    split; [etrans; eassumption | exact Hcoh''].
Qed.

(** The accepted path of the loop body: the entry is imported. *)
Lemma import_line_imports allowed_pos commit_every entry pos headword st st' :
  import_line allowed_pos commit_every (Parsed (JObj entry)) st = Ok st' ->
  dict_get "lang_code" entry = JStr "grc" ->
  dict_get "pos" entry = JStr pos ->
  str_strip pos <> "" -> str_strip pos ∈ allowed_pos ->
  dict_get "word" entry = JStr headword -> headword <> "" ->
  import_entry (str_strip pos) (JStr headword) entry (sess st) = Ok (sess st').
Proof.
  intros Hrun Hlang Hpos Hcode Hallowed Hword Hhead.
  unfold import_line in Hrun. cbn [as_dict mbind result_bind] in Hrun.
  rewrite Hlang in Hrun. cbn [is_str] in Hrun. rewrite String.eqb_refl in Hrun.
  cbn [negb] in Hrun.
  assert (Hraw : py_or (dict_get "pos" entry) (JStr "") = JStr pos).
  { rewrite Hpos. unfold py_or. cbn [truthy].
    destruct (String.eqb_spec pos ""); [by subst | reflexivity]. }
  rewrite Hraw in Hrun. cbn [as_str mbind result_bind] in Hrun. cbv zeta in Hrun.
  destruct (String.eqb_spec (str_strip pos) ""); [contradiction |].
  rewrite bool_decide_true in Hrun by exact Hallowed. cbn [negb] in Hrun.
  rewrite Hword in Hrun. cbn [truthy] in Hrun.
  destruct (String.eqb_spec headword ""); [contradiction |]. cbn [negb] in Hrun.
  inv_bind Hrun. destruct (commit_every =? 0)%Z; [discriminate |].
  by injection Hrun as <-.
Qed.

(** X21. From the import of a stream to the lookup of its forms.  When a
    run of [import_jsonl] completes on a store whose primary keys are unique
    and whose references hold, [check_forms.py] finds every form the
    admission filter keeps of every entry of the stream that the importer
    accepts, whatever the later lines added: asked for the text of the
    form, it returns 0 and has a row with the headword and the stripped POS
    code of the entry, the text, the features and the dialect [parse_tags]
    reads off the tags of the form, and the tags as JSON. *)
Theorem import_jsonl_then_check_forms
    db lines allowed_pos commit_every st entry pos headword forms fd text raw :
  primary_keys db -> references_hold db ->
  import_jsonl db lines allowed_pos commit_every = Ok st ->
  Parsed (JObj entry) ∈ lines ->
  dict_get "lang_code" entry = JStr "grc" ->
  dict_get "pos" entry = JStr pos ->
  str_strip pos <> "" -> str_strip pos ∈ allowed_pos ->
  dict_get "word" entry = JStr headword -> headword <> "" ->
  py_iter (py_or (dict_get "forms" entry) (JArr [])) = Ok forms ->
  JObj fd ∈ forms -> kept (JObj fd) = true ->
  dict_get "form" fd = JStr text ->
  str_items (py_or (dict_get "tags" fd) (JArr [])) = Ok raw ->
  (check_forms (conn (sess st)) text).2 = 0%Z
  /\ exists row,
       row ∈ fetch_forms (conn (sess st)) text
       /\ form_shown (str_strip pos) headword text raw
                     (py_or (dict_get "tags" fd) (JArr [])) row.
Proof.
  intros Hpk Href Hrun Hline Hlang Hpos Hcode Hallowed Hword Hhead Hforms Hfd Hkept
    Htext Hraw.
  apply list_elem_of_split in Hline as (before & after & ->).
  unfold import_jsonl in Hrun.
  apply foldM_split in Hrun as (st1 & Hbefore & Hrest).
  cbn [foldM] in Hrest. inv_bind Hrest. rename a into st2.
  apply import_lines_steps in Hbefore as [Hsteps1 Hcoh1];
    [| apply empty_caches_coherent].
  destruct (import_line_steps _ _ _ _ _ Hcoh1 E) as [Hsteps2 Hcoh2].
  destruct (import_lines_steps _ _ _ _ _ Hcoh2 Hrest) as [Hsteps3 _].
  cbn [conn sess] in Hsteps1.
  pose proof (import_line_imports _ _ _ _ _ _ _ E Hlang Hpos Hcode Hallowed Hword Hhead)
    as Hentry.
  destruct (import_entry_stores_form _ _ _ _ _ _ _ _ _ Hcoh1 Hentry Hforms Hfd Hkept
              Htext Hraw) as (r & Hr & Hstored).
  pose proof (store_steps_extends _ _ Hsteps3) as Hext.
  assert (Hsteps : rtc store_step db (conn (sess st))).
  { etrans; [exact Hsteps1 |]. etrans; [exact Hsteps2 | exact Hsteps3]. }
  apply (check_forms_shows _ _ _ _ _ _ r).
  - exact (store_steps_invariant primary_keys primary_keys_step _ _ Hsteps Hpk).
  - exact (store_steps_invariant references_hold references_step _ _ Hsteps Href).
  - eapply elem_of_prefix; [apply Hext | exact Hr].
  - eapply form_stored_extends; [exact Hext | exact Hstored].
Qed.

End Lookup.

(** ** The run of [main] *)

Section MainProofs.
Context `{Host}.

Lemma foldM_app {A S} (f : A -> S -> result S) (l1 l2 : list A) (s s1 : S) :
  foldM f l1 s = Ok s1 -> foldM f (l1 ++ l2) s = foldM f l2 s1.
Proof.
  revert s. induction l1 as [| x l1 IH]; cbn [foldM app]; intros s Hrun.
  - by injection Hrun as <-.
  - inv_bind Hrun. cbn [mbind result_bind]. by apply IH.
Qed.

Lemma import_line_counts allowed_pos commit_every ln st st' :
  import_line allowed_pos commit_every ln st = Ok st' ->
  inserted st' = inserted st \/ inserted st' = inserted st + 1.
Proof.
  unfold import_line. intros Hrun.
  destruct ln as [| | v].
  - injection Hrun as <-. by left.
  - injection Hrun as <-. by left.
  - inv_bind Hrun.
    destruct (negb (is_str "grc" _)); [injection Hrun as <-; by left |].
    inv_bind Hrun.
    destruct (String.eqb _ ""); [injection Hrun as <-; by left |].
    destruct (negb (bool_decide _)); [injection Hrun as <-; by left |].
    destruct (negb (truthy _)); [injection Hrun as <-; by left |].
    inv_bind Hrun. destruct (commit_every =? 0)%Z; [discriminate |].
    injection Hrun as <-. by right.
Qed.

(** The loop from a state [st] reached from the last commit [base] by the
    lines [mid] without a commit. *)
Lemma import_lines_commit allowed_pos commit_every lines :
  forall base mid st r db',
    foldM (import_line allowed_pos commit_every) mid base = Ok st ->
    no_commit_between commit_every base st ->
    import_lines allowed_pos commit_every lines st (conn (sess base)) = (r, db') ->
    exists done rest st_d,
      mid ++ lines = done ++ rest
      /\ foldM (import_line allowed_pos commit_every) done base = Ok st_d
      /\ db' = conn (sess st_d)
      /\ match r with
         | Ok st_end => rest = [] /\ st_end = st_d
         | Raise e =>
             exists before ln after st_f,
               rest = before ++ ln :: after
               /\ foldM (import_line allowed_pos commit_every) before st_d = Ok st_f
               /\ import_line allowed_pos commit_every ln st_f = Raise e
               /\ no_commit_between commit_every st_d st_f
               /\ (done = [] \/ exists n, 0 < n /\ inserted st_d = n
                                          /\ (Z.of_nat n mod commit_every)%Z = 0%Z)
         end.
Proof.
  induction lines as [| ln lines IH]; intros base mid st r db' Hmid Hnone Hrun;
    cbn [import_lines] in Hrun.
  - injection Hrun as <- <-. exists mid, [], st.
    split; [reflexivity |]. split; [exact Hmid |]. split; [reflexivity |]. by split.
  - destruct (import_line allowed_pos commit_every ln st) as [st' | e] eqn:Hline.
    + assert (Hmid' : foldM (import_line allowed_pos commit_every) (mid ++ [ln]) base = Ok st').
      { rewrite (foldM_app _ mid [ln] base st Hmid). cbn [foldM]. rewrite Hline. reflexivity. }
      destruct (commits commit_every st st') eqn:Hc.
      * apply andb_true_iff in Hc as [Hone Hdiv].
        apply Nat.eqb_eq in Hone. apply Z.eqb_eq in Hdiv.
        destruct (IH st' [] st' r db' eq_refl ltac:(intros n ?; lia) Hrun)
          as (done & rest & st_d & Hsplit & Hdone & Hdb & Hr).
        cbn [app] in Hsplit.
        exists ((mid ++ [ln]) ++ done), rest, st_d.
        split; [rewrite <- !app_assoc; cbn [app]; by rewrite Hsplit |].
        split; [rewrite (foldM_app _ _ done base st' Hmid'); exact Hdone |].
        split; [exact Hdb |].
        destruct r as [st_end | e]; [exact Hr |].
        destruct Hr as (before & ln' & after & st_f & Hrest & Hbefore & Hfail & Hnone' & Hpoint).
        exists before, ln', after, st_f. repeat (split; [assumption |]).
        right. destruct Hpoint as [-> | Hpoint]; [| exact Hpoint].
        cbn [foldM] in Hdone. injection Hdone as <-.
        exists (inserted st'). split; [lia |]. by split.
      * assert (Hnone' : no_commit_between commit_every base st').
        { intros n Hn. destruct (import_line_counts _ _ _ _ _ Hline) as [Hsame | Hone].
          - apply Hnone. lia.
          - destruct (decide (n = inserted st')) as [-> | Hne]; [| apply Hnone; lia].
            apply andb_false_iff in Hc as [Hc | Hc].
            + apply Nat.eqb_neq in Hc. lia.
            + by apply Z.eqb_neq in Hc. }
        destruct (IH base (mid ++ [ln]) st' r db' Hmid' Hnone' Hrun)
          as (done & rest & st_d & Hsplit & Hdone & Hdb & Hr).
        exists done, rest, st_d. rewrite <- app_assoc in Hsplit. by repeat split.
    + injection Hrun as <- <-. exists [], (mid ++ ln :: lines), base.
      split; [reflexivity |]. split; [reflexivity |]. split; [reflexivity |].
      exists mid, ln, lines, st. split; [reflexivity |]. split; [exact Hmid |].
      split; [exact Hline |]. split; [exact Hnone |]. by left.
Qed.

(** X20. What a run of [main] leaves in the store.  With an empty
    allow-list [main] exits with its message and touches nothing.
    Otherwise the store it leaves is the one a complete import of an initial
    part of the input gives: of the whole input when [main] returns, which
    it does with status 0 after printing the skip report; and when the
    importer raises, which [main] passes on, of the lines up to the last
    commit, that is up to the last accepted entry whose count
    [commit_every] divides, or of no line if there was none.  What the lines
    after it had changed is gone. *)
Theorem main_leaves_committed pos commit_every lines db out printed db' :
  main pos commit_every lines db = (out, printed, db') ->
  (parse_pos_list pos = ∅ ->
   out = Exited "POS set is empty. Provide --pos." /\ printed = [] /\ db' = db)
  /\ (parse_pos_list pos <> ∅ ->
      exists done rest st,
        lines = done ++ rest
        /\ import_jsonl db done (parse_pos_list pos) commit_every = Ok st
        /\ db' = conn (sess st)
        /\ match out with
           | Returned status =>
               status = 0%Z /\ rest = []
               /\ printed = report_skip_summary (skipped_pos_counts st) (skipped_reasons st)
           | Exited _ => False
           | Failed e =>
               printed = []
               /\ import_jsonl db lines (parse_pos_list pos) commit_every = Raise e
               /\ (done = []
                   \/ (0 < inserted st
                       /\ (Z.of_nat (inserted st) mod commit_every)%Z = 0%Z))
               /\ exists before ln after st_f,
                    rest = before ++ ln :: after
                    /\ foldM (import_line (parse_pos_list pos) commit_every) before st
                       = Ok st_f
                    /\ import_line (parse_pos_list pos) commit_every ln st_f = Raise e
                    /\ no_commit_between commit_every st st_f
           end).
Proof.
  unfold main. cbv zeta. intros Hmain. case_bool_decide as Hempty.
  - injection Hmain as <- <- <-. split; [done | contradiction].
  - split; [contradiction |]. intros _.
    destruct (import_lines _ _ _ _ _) as [r db''] eqn:Hrun.
    match type of Hrun with
    | import_lines _ _ _ ?st0 _ = _ =>
        destruct (import_lines_commit (parse_pos_list pos) commit_every lines
                    st0 [] st0 r db'' eq_refl ltac:(intros n ?; cbn in *; lia) Hrun)
          as (done & rest & st & Hsplit & Hdone & Hdb & Hr)
    end.
    cbn [app] in Hsplit. exists done, rest, st.
    destruct r as [st_end | e]; injection Hmain as <- <- <-.
    + destruct Hr as [-> ->]. by repeat split.
    + destruct Hr as (before & ln & after & st_f & Hrest & Hbefore & Hfail & Hnone & Hpoint).
      split; [exact Hsplit |]. split; [exact Hdone |]. split; [exact Hdb |].
      split; [reflexivity |]. split.
      { unfold import_jsonl. rewrite Hsplit, Hrest.
        rewrite (foldM_app _ done _ _ st Hdone), (foldM_app _ before _ _ st_f Hbefore).
        cbn [foldM]. by rewrite Hfail. }
      split.
      { destruct Hpoint as [-> | (n & Hn & <- & Hdiv)]; [by left | by right]. }
      exists before, ln, after, st_f. by repeat split.
Qed.

End MainProofs.

(** * Concrete runs

    Runs on ASCII text, where [ascii_host] is Python. *)

#[local] Existing Instance ascii_host.
#[local] Existing Instance plain_engine.

Example ascii_dumps_sample :
  ascii_dumps (JObj [("a", JArr [JNum 1; JNull; JBool true; JStr "x-y"]); ("b", JNum (-2))])
  = (String "{" (String dquote ("a" ++ String dquote (": [1, null, true, "
      ++ String dquote ("x-y" ++ String dquote ("], "
      ++ String dquote ("b" ++ String dquote ": -2}")))))))%string.
Proof. vm_compute. reflexivity. Qed.

Example ascii_repr_sample :
  ascii_repr (JArr [JStr "with-gen"; JNum 3; JNull])
  = ("[" ++ String squote ("with-gen" ++ String squote ", 3, None]"))%string.
Proof. vm_compute. reflexivity. Qed.

Example text_samples :
  ascii_strip "  Noun , " = "Noun ,"
  /\ ascii_lower "Proper Noun" = "proper noun"
  /\ split_on "," "a,,b" = ["a"; ""; "b"]
  /\ split_on "/" "" = [""]
  /\ str_replace "with-" "" "with-with-gen" = "gen"
  /\ str_replace ";" "/" "gen;dat" = "gen/dat"
  /\ str_contains "relative" "a correlative x" = true
  /\ chars "abc" = ["a"; "b"; "c"].
Proof. vm_compute. repeat split. Qed.

Example demo_run :
  import_jsonl empty_db demo_lines demo_allowed 1000 = Ok demo_state
  /\ row_counts (conn (sess demo_state)) = [2; 1; 2; 3; 1]
  /\ tallies demo_state = [1; 1; 1; 1; 1; 2]
  /\ skipped_pos_counts demo_state = {[ "adjective" := 1 ]}.
Proof. vm_compute. repeat split. Qed.

(** ** C1 *)

(** C1 fails on the code: importing the lemma again with another etymology
    replaces the stored one, in [update_lemma_metadata] itself and through
    [import_jsonl]. *)
Lemma reimport_overwrites_etymology :
  (db ← update_lemma_metadata 1
          (extract_entry_metadata
             [("word", JStr "Logos"); ("etymology_text", JStr "of unknown origin")])
          stored_db;
   Ok (map l_etymology_text (lemma_table db)))
  = Ok [Some (VText "of unknown origin")]
  /\ (st1 ← import_jsonl empty_db [Parsed logos_entry] demo_allowed 1000;
      st2 ← import_jsonl (conn (sess st1)) [Parsed logos_again] demo_allowed 1000;
      Ok (map l_etymology_text (lemma_table (conn (sess st1))),
          map l_etymology_text (lemma_table (conn (sess st2)))))
     = Ok ([Some (VText "from lego")], [Some (VText "of unknown origin")]).
Proof. vm_compute. split; reflexivity. Qed.

Lemma update_lemma_metadata_coalesces_witness :
  update_lemma_metadata 1 related_only stored_db = Ok related_filled
  /\ length (lemma_table related_filled) = length (lemma_table stored_db).
Proof.
  split; [vm_compute; reflexivity |].
  apply (update_lemma_metadata_coalesces 1 related_only stored_db related_filled).
  vm_compute. reflexivity.
Defined.

(** ** C2 *)

(** C2 fails on the code where the stream brings no sense or no form: after
    the second import of an entry without senses and forms both tables are as
    empty as before, and after the second import of an entry whose only form
    is rejected the form table is still empty while the senses doubled. *)
Lemma reimport_need_not_add_rows :
  (st1 ← import_jsonl empty_db [Parsed kalos_entry] (parse_pos_list "adj") 1000;
   st2 ← import_jsonl (conn (sess st1)) [Parsed kalos_entry] (parse_pos_list "adj") 1000;
   Ok (inserted st1, row_counts (conn (sess st1)), row_counts (conn (sess st2))))
  = Ok (1, [1; 0; 1; 0; 0], [1; 0; 1; 0; 0])
  /\ (st1 ← import_jsonl empty_db [Parsed kai_entry] demo_allowed 1000;
      st2 ← import_jsonl (conn (sess st1)) [Parsed kai_entry] demo_allowed 1000;
      Ok (inserted st1, row_counts (conn (sess st1)), row_counts (conn (sess st2))))
     = Ok (1, [1; 0; 1; 1; 0], [1; 0; 1; 2; 0]).
Proof. vm_compute. split; reflexivity. Qed.

Lemma reimport_entities_stable_rows_repeated_witness :
  import_jsonl empty_db demo_lines demo_allowed 1000 = Ok demo_state
  /\ exists st2,
       import_jsonl (conn (sess demo_state)) demo_lines demo_allowed 1000 = Ok st2
       /\ length (lemma_table (conn (sess st2))) = 2
       /\ length (sense_table (conn (sess st2))) = 6
       /\ length (form_table (conn (sess st2))) = 2.
Proof.
  split; [vm_compute; reflexivity |].
  destruct (reimport_entities_stable_rows_repeated empty_db demo_lines demo_allowed 1000
              demo_state)
    as (st2 & Hrun & _ & _ & Hl & Hs & Hf & _); [vm_compute; reflexivity |].
  exists st2. split; [exact Hrun |].
  change (length (lemma_table (conn (sess demo_state)))) with 2 in Hl.
  change (length (sense_table (conn (sess demo_state)))) with 3 in Hs.
  change (length (form_table (conn (sess demo_state)))) with 1 in Hf.
  cbn in Hs, Hf. repeat split; lia.
Defined.

(** ** C3 *)

(** C3 fails on the code for a stream with a line that is JSON but no
    object: the run raises at [entry.get] with no tally moved and prints no
    report, though the line is not blank. *)
Lemma non_object_line_untallied :
  non_blank [Parsed (JArr [JNum 1; JNum 2])] = 1
  /\ import_jsonl empty_db [Parsed (JArr [JNum 1; JNum 2])] demo_allowed 1000
     = Raise AttributeError
  /\ import_jsonl empty_db [Garbled; Parsed (JNum 7); Parsed logos_entry] demo_allowed 1000
     = Raise AttributeError.
Proof. vm_compute. repeat split. Qed.

Lemma skip_accounting_complete_witness :
  import_jsonl empty_db demo_lines demo_allowed 1000 = Ok demo_state
  /\ total_skips (skipped_reasons demo_state) + inserted demo_state = non_blank demo_lines.
Proof.
  split; [vm_compute; reflexivity |].
  apply (skip_accounting_complete empty_db demo_lines demo_allowed 1000 demo_state).
  vm_compute. reflexivity.
Defined.

(** ** C4 *)

Lemma parse_tags_order_independent_witness :
  (forall t, t ∈ ["genitive"; "Singular"; "genitive"; "Attic"]
             <-> t ∈ ["Attic"; "Singular"; "genitive"])
  /\ parse_tags ["genitive"; "Singular"; "genitive"; "Attic"]
     = parse_tags ["Attic"; "Singular"; "genitive"].
Proof.
  assert (Hsame : forall t, t ∈ ["genitive"; "Singular"; "genitive"; "Attic"]
                            <-> t ∈ ["Attic"; "Singular"; "genitive"]).
  { intros t. rewrite !elem_of_cons. split; intros Ht; tauto. }
  split; [exact Hsame |].
  apply (parse_tags_order_independent
           ["genitive"; "Singular"; "genitive"; "Attic"]
           ["Attic"; "Singular"; "genitive"] Hsame).
Defined.

(** ** C5 *)

Lemma should_keep_form_rejects_witness :
  dict_get "form" [("form", JStr "logou"); ("tags", JArr [JStr "genitive"; JStr "table-tags"])]
  = from_option JStr JNull (Some "logou")
  /\ dict_get_or "tags" (JArr [])
       [("form", JStr "logou"); ("tags", JArr [JStr "genitive"; JStr "table-tags"])]
     = JArr (map JStr ["genitive"; "table-tags"])
  /\ should_keep_form
       (JObj [("form", JStr "logou"); ("tags", JArr [JStr "genitive"; JStr "table-tags"])])
     = Ok false.
Proof.
  split; [reflexivity |]. split; [reflexivity |].
  apply (should_keep_form_rejects
           [("form", JStr "logou"); ("tags", JArr [JStr "genitive"; JStr "table-tags"])]
           (Some "logou") ["genitive"; "table-tags"] eq_refl eq_refl).
  right. left.
Defined.

(** ** C6 *)

(** The names and types of the program are plain. *)
Example declared_columns_plain :
  forallb plain_name ["lemma"; "sense"; "form"] = true
  /\ forallb (fun c : string * string => plain_name c.1 && plain_type c.2)
             (LEMMA_EXTRA_COLUMNS ++ SENSE_EXTRA_COLUMNS ++ FORM_EXTRA_COLUMNS) = true.
Proof. vm_compute. split; reflexivity. Qed.

(** The columns and the row of the evolved table. *)
Example evolved_lemma_columns :
  map (fun c => (col_name c, col_type c, col_notnull c, col_default c, col_pk c))
      (table_info evolved_catalog "lemma")
  = [("id", "INTEGER", false, None, true); ("headword", "TEXT", true, None, false);
     ("headword_norm", "TEXT", true, None, false); ("sort_key", "TEXT", false, None, false);
     ("notes", "TEXT", false, None, false); ("related", "TEXT", false, None, false);
     ("etymology_text", "TEXT", false, None, false);
     ("etymology_templates", "TEXT", false, None, false);
     ("etymology_number", "INTEGER", false, None, false);
     ("inflection_templates", "TEXT", false, None, false);
     ("synonyms", "TEXT", false, None, false); ("antonyms", "TEXT", false, None, false);
     ("categories", "TEXT", false, None, false);
     ("entry_extra", "TEXT", false, None, false)]
  /\ (t ← evolved_catalog !! "lemma"; Some (tbl_rows t))
     = Some [[Some (VInt 1); Some (VText "Logos"); Some (VText "logos"); None; None;
              Some (VText "lego"); None; None; None; None; None; None; None; None]].
Proof. vm_compute. split; reflexivity. Qed.

Lemma ensure_columns_additive_idempotent_witness :
  plain_name "lemma" = true
  /\ Forall (fun c : string * string => plain_name c.1 = true /\ plain_type c.2 = true)
            LEMMA_EXTRA_COLUMNS
  /\ ensure_columns "lemma" LEMMA_EXTRA_COLUMNS legacy_catalog = Ok evolved_catalog
  /\ ensure_columns "lemma" LEMMA_EXTRA_COLUMNS evolved_catalog = Ok evolved_catalog.
Proof.
  assert (Hplain : Forall (fun c : string * string =>
                             plain_name c.1 = true /\ plain_type c.2 = true)
                          LEMMA_EXTRA_COLUMNS).
  { unfold LEMMA_EXTRA_COLUMNS. repeat constructor. }
  split; [reflexivity |]. split; [exact Hplain |].
  split; [vm_compute; reflexivity |].
  apply (ensure_columns_additive_idempotent "lemma" LEMMA_EXTRA_COLUMNS
           legacy_catalog evolved_catalog eq_refl Hplain).
  vm_compute. reflexivity.
Defined.

Example ensure_columns_failures :
  ensure_columns "sense" SENSE_EXTRA_COLUMNS legacy_catalog = Raise OperationalError
  /\ ensure_columns "lemma" [("Related", "TEXT")] legacy_catalog = Raise OperationalError
  /\ ensure_columns "LEMMA" [("related", "TEXT")] legacy_catalog = Ok legacy_catalog.
Proof. vm_compute. repeat split. Qed.

(** ** C8 *)

(** A preposition with a marked sense tag and a head template: the tag
    gives the genitive, the argument the dative and the accusative, and the
    genitive it names again is kept once. *)
Lemma extract_governs_case_spec_witness :
  extract_governs_case
    [("senses", JArr [JObj [("tags", JArr [JStr "rare"; JStr "With-Genitive"])]]);
     ("head_templates",
      JArr [JObj [("name", JStr "head"); ("args", JObj [("1", JStr "grc");
                                                        ("2", JStr "dat, ACC;gen/x")])]])]
  = Ok (Some "genitive/dative/accusative")
  /\ extract_governs_case [("senses", JArr [JObj [("tags", JArr [JStr "with-article"])]])]
     = Ok None.
Proof.
  rewrite !extract_governs_case_spec. vm_compute. split; reflexivity.
Defined.

(** ** C9 *)

(** C9 fails on the code: with the allow-list configured as [adjective] an
    entry whose [pos] is [adjective] is skipped as [pos_not_allowed], since
    only the list is alias-normalized; the entry whose [pos] is [adj] is the
    one accepted. *)
Lemma adjective_entry_is_skipped :
  elements (parse_pos_list "adjective") = ["adj"]
  /\ (st ← import_jsonl empty_db [Parsed adjective_entry] (parse_pos_list "adjective") 1000;
      Ok (inserted st, pos_not_allowed (skipped_reasons st),
          skipped_pos_counts st !! "adjective", row_counts (conn (sess st))))
     = Ok (0, 1, Some 1, [0; 0; 0; 0; 0])
  /\ (st ← import_jsonl empty_db [Parsed kalos_entry] (parse_pos_list "adjective") 1000;
      Ok (inserted st, pos_not_allowed (skipped_reasons st)))
     = Ok (1, 0).
Proof. vm_compute. repeat split. Qed.

(** ** C10 *)



(** ** Completion *)



(** ** Integrity of the store *)

Lemma import_jsonl_keeps_unique_keys_witness :
  unique_keys stored_db
  /\ unique_keys (conn (sess (final_state fresh_driver
                                (import_jsonl stored_db demo_lines demo_allowed 1000)))).
Proof.
  assert (Hinv : unique_keys stored_db).
  { unfold unique_keys. vm_compute. repeat split; repeat constructor; set_solver. }
  split; [exact Hinv |].
  apply (import_jsonl_keeps_unique_keys stored_db demo_lines demo_allowed 1000 _ Hinv).
  vm_compute. reflexivity.
Defined.

Lemma import_jsonl_keeps_primary_keys_witness :
  primary_keys stored_db
  /\ primary_keys (conn (sess (final_state fresh_driver
                                 (import_jsonl stored_db demo_lines demo_allowed 1000)))).
Proof.
  assert (Hinv : primary_keys stored_db).
  { unfold primary_keys. vm_compute. repeat split; repeat constructor; set_solver. }
  split; [exact Hinv |].
  apply (import_jsonl_keeps_primary_keys stored_db demo_lines demo_allowed 1000 _ Hinv).
  vm_compute. reflexivity.
Defined.

Lemma import_jsonl_keeps_references_witness :
  references_hold empty_db /\ references_hold (conn (sess demo_state)).
Proof.
  assert (Hinv : references_hold empty_db).
  { unfold references_hold. cbn. split; [| split]; intros r Hr; by apply elem_of_nil in Hr. }
  split; [exact Hinv |].
  apply (import_jsonl_keeps_references empty_db demo_lines demo_allowed 1000 _ Hinv).
  vm_compute. reflexivity.
Defined.

Lemma import_jsonl_keeps_normalized_witness :
  normalized stored_db
  /\ normalized (conn (sess (final_state fresh_driver
                               (import_jsonl stored_db demo_lines demo_allowed 1000)))).
Proof.
  assert (Hinv : normalized stored_db).
  { unfold normalized, stored_db. cbn [lemma_table form_table]. split; intros r Hr.
    - apply list_elem_of_singleton in Hr. subst r. reflexivity.
    - by apply elem_of_nil in Hr. }
  split; [exact Hinv |].
  apply (import_jsonl_keeps_normalized stored_db demo_lines demo_allowed 1000 _ Hinv).
  vm_compute. reflexivity.
Defined.

Lemma import_jsonl_admits_forms_witness :
  forms_admitted empty_db /\ forms_admitted (conn (sess demo_state)).
Proof.
  assert (Hinv : forms_admitted empty_db).
  { intros r Hr. by apply elem_of_nil in Hr. }
  split; [exact Hinv |].
  apply (import_jsonl_admits_forms empty_db demo_lines demo_allowed 1000 _ Hinv).
  vm_compute. reflexivity.
Defined.

Lemma import_jsonl_appends_witness :
  import_jsonl stored_db [Parsed logos_again] demo_allowed 1000
  = Ok (final_state fresh_driver
          (import_jsonl stored_db [Parsed logos_again] demo_allowed 1000))
  /\ extends stored_db
       (conn (sess (final_state fresh_driver
                      (import_jsonl stored_db [Parsed logos_again] demo_allowed 1000)))).
Proof.
  split; [vm_compute; reflexivity |].
  apply (import_jsonl_appends stored_db [Parsed logos_again] demo_allowed 1000).
  vm_compute. reflexivity.
Defined.

Lemma ensure_pos_resolves_witness :
  caches_coherent (sess fresh_driver)
  /\ ("noun", 1%Z) ∈ pos_entries (conn (ensure_pos "noun" (sess fresh_driver)).2).
Proof.
  split; [apply empty_caches_coherent |].
  exact (proj1 (ensure_pos_resolves "noun" (sess fresh_driver)
                  (empty_caches_coherent empty_db))).
Defined.

Lemma ensure_dialect_resolves_witness :
  caches_coherent (sess fresh_driver)
  /\ ("attic", 1%Z) ∈ dialect_entries (conn (ensure_dialect "attic" (sess fresh_driver)).2).
Proof.
  split; [apply empty_caches_coherent |].
  exact (proj1 (ensure_dialect_resolves "attic" (sess fresh_driver)
                  (empty_caches_coherent empty_db))).
Defined.

Lemma ensure_lemma_resolves_witness :
  caches_coherent (sess fresh_driver)
  /\ (("Logos", "logos"), 1%Z)
       ∈ lemma_entries (conn (ensure_lemma "Logos" (sess fresh_driver)).2).
Proof.
  split; [apply empty_caches_coherent |].
  exact (proj1 (ensure_lemma_resolves "Logos" (sess fresh_driver)
                  (empty_caches_coherent empty_db))).
Defined.

(** ** The classifier and the rows of an entry *)

Lemma parse_tags_fills_slots_witness :
  (p_case, CASE_TAGS) ∈ slots
  /\ p_case (parse_tags ["Genitive"; "dative"; "Attic"]) = Some "genitive".
Proof.
  assert (Hslot : (p_case, CASE_TAGS) ∈ slots) by (unfold slots; right; left).
  split; [exact Hslot |].
  apply (proj2 (proj2 (parse_tags_fills_slots ["Genitive"; "dative"; "Attic"] p_case
                         CASE_TAGS Hslot))
           [("nominative", "nominative")] "genitive" "genitive"
           [("dative", "dative"); ("accusative", "accusative"); ("vocative", "vocative")]
           eq_refl).
  - exists "Genitive". split; [left | reflexivity].
  - intros k' t Hk' Ht. apply list_elem_of_singleton in Hk'. subst k'.
    repeat (apply elem_of_cons in Ht as [-> | Ht]; [discriminate |]).
    by apply elem_of_nil in Ht.
Defined.

Lemma import_entry_rows_witness :
  caches_coherent (sess fresh_driver)
  /\ exists s', import_entry "noun" (JStr "Logos")
                  [("word", JStr "Logos");
                   ("senses", JArr [JObj [("glosses", JArr [JStr "word"])]]);
                   ("forms", JArr [JObj [("form", JStr "logou");
                                         ("tags", JArr [JStr "genitive"])]])]
                  (sess fresh_driver) = Ok s'
       /\ exists sense_rows,
            sense_table (conn s') = sense_table (conn (sess fresh_driver)) ++ sense_rows
            /\ map s_sense_order sense_rows = [0%Z].
Proof.
  split; [apply empty_caches_coherent |].
  eexists. split; [vm_compute; reflexivity |].
  match goal with
  | |- context [sense_table (conn ?s')] =>
      destruct (import_entry_rows "noun" "Logos"
                  [("word", JStr "Logos");
                   ("senses", JArr [JObj [("glosses", JArr [JStr "word"])]]);
                   ("forms", JArr [JObj [("form", JStr "logou");
                                         ("tags", JArr [JStr "genitive"])]])]
                  (sess fresh_driver) s' (empty_caches_coherent empty_db))
        as (lemma_id & pos_id & senses & forms & sense_rows & form_rows & pt & gc
            & _ & _ & _ & Hsenses & _ & Htab & _ & Hord & _)
  end.
  { vm_compute. reflexivity. }
  exists sense_rows. split; [exact Htab |].
  injection Hsenses as <-. exact Hord.
Defined.

(** ** The skip report *)

Example report_skip_summary_sample :
  report_skip_summary {[ "verb" := 2; "name" := 3; "adv" := 2 ]}
    {| json_decode_error := 0; non_grc := 1; missing_pos := 0; pos_not_allowed := 7;
       missing_headword := 0 |}
  = [(newline ++ "Skip report")%string; "----------------------------------------";
     "json_decode_error: 0"; "non_grc: 1"; "missing_pos: 0"; "pos_not_allowed: 7";
     "missing_headword: 0"; (newline ++ "Skipped POS breakdown")%string;
     "name: 3"; "adv: 2"; "verb: 2"].
Proof. vm_compute. reflexivity. Qed.

Lemma skipped_pos_counts_account_witness :
  import_jsonl empty_db demo_lines demo_allowed 1000 = Ok demo_state
  /\ pos_not_allowed (skipped_reasons demo_state)
     = total_skipped_pos (skipped_pos_counts demo_state).
Proof.
  split; [vm_compute; reflexivity |].
  apply (skipped_pos_counts_account empty_db demo_lines demo_allowed 1000 demo_state).
  vm_compute. reflexivity.
Defined.

(** ** Repeated metadata updates *)

Lemma update_lemma_metadata_repeats_witness :
  update_lemma_metadata 1 related_only stored_db = Ok related_filled
  /\ update_lemma_metadata 1 related_only related_filled = Ok related_filled.
Proof.
  split; [vm_compute; reflexivity |].
  apply (update_lemma_metadata_repeats 1 related_only stored_db related_filled).
  vm_compute. reflexivity.
Defined.

(** ** The form lookup *)

(** The three forms [lege] of the sample store, in the order of headword,
    POS code and form id. *)
Example check_forms_sample :
  check_forms lookup_db "lege"
  = (["------------------------------------------------------------";
      "lemma: lego  pos: noun"; "form: lege";
      "tense: None  mood: None  voice: None"; "person: None  number: None";
      "case: None  gender: None  verb_form_type: None";
      "dialect: None  source: None"; "tags: []";
      "------------------------------------------------------------";
      "lemma: lego  pos: verb"; "form: lege";
      "tense: None  mood: imperative  voice: None"; "person: None  number: None";
      "case: None  gender: None  verb_form_type: None";
      "dialect: attic  source: None"; "tags: []";
      "------------------------------------------------------------";
      "lemma: legos  pos: noun"; "form: lege";
      "tense: None  mood: None  voice: None"; "person: None  number: None";
      "case: None  gender: None  verb_form_type: None";
      "dialect: None  source: None"; "tags: []"], 0%Z)
  /\ check_forms lookup_db "logos" = (["No rows found."], 1%Z).
Proof. split; vm_compute; reflexivity. Qed.

Lemma check_forms_finds_witness :
  primary_keys lookup_db /\ references_hold lookup_db
  /\ length (fetch_forms lookup_db "lege") = 3
  /\ map (fun j => f_id (j_form j)) (ordered_forms lookup_db "lege") = [4%Z; 2%Z; 1%Z].
Proof.
  assert (Hpk : primary_keys lookup_db).
  { apply (bool_decide_unpack _). vm_compute. exact I. }
  assert (Href : references_hold lookup_db).
  { unfold references_hold. split; [| split]; intros r Hr.
    - by apply elem_of_nil in Hr.
    - by apply elem_of_nil in Hr.
    - cbn [lookup_db form_table] in Hr.
      repeat (apply elem_of_cons in Hr as [-> | Hr]); [.. | by apply elem_of_nil in Hr].
      all: split; [| split]; [apply (bool_decide_unpack _); vm_compute; exact I .. |].
      all: intros d Hd; cbn in Hd; try discriminate Hd.
      injection Hd as <-. apply (bool_decide_unpack _). vm_compute. exact I. }
  split; [exact Hpk |]. split; [exact Href |].
  split; [| vm_compute; reflexivity].
  destruct (check_forms_finds lookup_db "lege" Hpk Href) as (_ & _ & _ & _ & Hlen & _).
  exact Hlen.
Defined.

Lemma import_entry_then_check_forms_witness :
  exists s',
    import_entry "noun" (JStr "Logos")
      [("word", JStr "Logos");
       ("forms", JArr [JObj [("form", JStr "logou");
                             ("tags", JArr [JStr "genitive"; JStr "Attic"])];
                       JObj [("form", JStr "-")]])]
      (sess fresh_driver) = Ok s'
    /\ (check_forms (conn s') "logou").2 = 0%Z.
Proof.
  eexists. split; [vm_compute; reflexivity |].
  refine (proj1 (import_entry_then_check_forms "noun" "Logos"
                   [("word", JStr "Logos");
                    ("forms", JArr [JObj [("form", JStr "logou");
                                          ("tags", JArr [JStr "genitive"; JStr "Attic"])];
                                    JObj [("form", JStr "-")]])]
                   (sess fresh_driver) _
                   [JObj [("form", JStr "logou");
                          ("tags", JArr [JStr "genitive"; JStr "Attic"])];
                    JObj [("form", JStr "-")]]
                   [("form", JStr "logou"); ("tags", JArr [JStr "genitive"; JStr "Attic"])]
                   "logou" ["genitive"; "Attic"] _ _ _ _ _ _ _ _ _)).
  - unfold primary_keys. cbn. repeat split; constructor.
  - unfold references_hold. cbn. split; [| split]; intros r Hr; by apply elem_of_nil in Hr.
  - apply empty_caches_coherent.
  - vm_compute. reflexivity.
  - vm_compute. reflexivity.
  - left.
  - vm_compute. reflexivity.
  - reflexivity.
  - vm_compute. reflexivity.
Defined.

(** ** The run of [main] *)

(** A failing entry after one accepted entry, and after two, with a commit
    at every second one; a run to the end; an empty allow-list. *)
Example main_sample :
  (let r := main "noun,conj" 2 [Parsed logos_entry; Parsed broken_entry] empty_db in
   (r.1.1, row_counts r.2)) = (Failed TypeError, [0; 0; 0; 0; 0])
  /\ (let r := main "noun,conj" 2
                [Parsed logos_entry; Parsed kai_entry; Blank; Parsed broken_entry]
                empty_db in
      (r.1.1, row_counts r.2)) = (Failed TypeError, [2; 1; 2; 3; 1])
  /\ (let r := main "noun,conj" 2 [Parsed logos_entry; Parsed kai_entry; Blank] empty_db in
      (r.1.1, row_counts r.2)) = (Returned 0, [2; 1; 2; 3; 1])
  /\ (let r := main " , " 2 [Parsed logos_entry; Parsed kai_entry; Blank] empty_db in
      (r.1.1, row_counts r.2))
     = (Exited "POS set is empty. Provide --pos.", [0; 0; 0; 0; 0]).
Proof. repeat split; vm_compute; reflexivity. Qed.

Lemma main_leaves_committed_witness :
  exists done rest st,
    [Parsed logos_entry; Parsed kai_entry; Blank; Parsed broken_entry] = done ++ rest
    /\ import_jsonl empty_db done (parse_pos_list "noun,conj") 2 = Ok st
    /\ (main "noun,conj" 2
          [Parsed logos_entry; Parsed kai_entry; Blank; Parsed broken_entry] empty_db).2
       = conn (sess st).
Proof.
  assert (Hrun : main "noun,conj" 2
                   [Parsed logos_entry; Parsed kai_entry; Blank; Parsed broken_entry]
                   empty_db
                 = ((main "noun,conj" 2
                       [Parsed logos_entry; Parsed kai_entry; Blank; Parsed broken_entry]
                       empty_db).1.1,
                    (main "noun,conj" 2
                       [Parsed logos_entry; Parsed kai_entry; Blank; Parsed broken_entry]
                       empty_db).1.2,
                    (main "noun,conj" 2
                       [Parsed logos_entry; Parsed kai_entry; Blank; Parsed broken_entry]
                       empty_db).2)).
  { by destruct (main _ _ _ _) as [[? ?] ?]. }
  assert (Hpos : parse_pos_list "noun,conj" <> ∅).
  { intros Heq.
    apply (f_equal (fun codes : gset string => bool_decide ("noun" ∈ codes))) in Heq.
    vm_compute in Heq. discriminate Heq. }
  destruct (proj2 (main_leaves_committed _ _ _ _ _ _ _ Hrun) Hpos)
    as (done & rest & st & Hsplit & Hdone & Hdb & _).
  exists done, rest, st. by repeat split.
Defined.

(** ** From the stream to the lookup *)

Lemma import_jsonl_then_check_forms_witness :
  import_jsonl empty_db demo_lines demo_allowed 1000 = Ok demo_state
  /\ (check_forms (conn (sess demo_state)) "logou").2 = 0%Z.
Proof.
  split; [vm_compute; reflexivity |].
  refine (proj1 (import_jsonl_then_check_forms empty_db demo_lines demo_allowed 1000
                   demo_state
                   ([("lang_code", JStr "grc"); ("pos", JStr "noun"); ("word", JStr "Logos")]
                    ++ [("etymology_text", JStr "from lego");
                        ("senses",
                         JArr [JObj [("glosses", JArr [JStr "word"; JStr "speech"])];
                               JObj [("tags", JArr [JStr "rare"])]]);
                        ("forms",
                         JArr [JObj [("form", JStr "logou");
                                     ("tags", JArr [JStr "genitive"; JStr "Singular";
                                                    JStr "Attic"])];
                               JObj [("form", JStr "-");
                                     ("tags", JArr [JStr "table-tags"])]])])
                   "noun" "Logos"
                   [JObj [("form", JStr "logou");
                          ("tags", JArr [JStr "genitive"; JStr "Singular"; JStr "Attic"])];
                    JObj [("form", JStr "-"); ("tags", JArr [JStr "table-tags"])]]
                   [("form", JStr "logou");
                    ("tags", JArr [JStr "genitive"; JStr "Singular"; JStr "Attic"])]
                   "logou" ["genitive"; "Singular"; "Attic"]
                   _ _ _ _ _ _ _ _ _ _ _ _ _ _ _)).
  - unfold primary_keys. cbn. repeat split; constructor.
  - unfold references_hold. cbn. split; [| split]; intros r Hr; by apply elem_of_nil in Hr.
  - vm_compute. reflexivity.
  - left.
  - reflexivity.
  - reflexivity.
  - vm_compute. discriminate.
  - apply (bool_decide_unpack _). vm_compute. exact I.
  - reflexivity.
  - discriminate.
  - vm_compute. reflexivity.
  - left.
  - vm_compute. reflexivity.
  - reflexivity.
  - vm_compute. reflexivity.
Defined.
